(** * Systrack: syscall table extraction engine ([systrack/kernel.py])

    A shallow embedding of the [Kernel] class: the version detector, the
    syscall table unpacker, the symbol resolver, the name/number normaliser
    and the implementation filter, followed by the properties proved about
    them.

    Conventions.
    - Python integers are unbounded: addresses, sizes and syscall numbers are
      [Z]; list positions and byte counts are [nat].
    - Python exceptions are the [Raise] side of [result].
    - Calls to [logging] only write to the log and never change control flow
      (formatting errors inside [logging] are swallowed by the handler), so
      they are left out of the embedding.
    - Collaborators whose code lives in other modules ([elf], [arch],
      [syscall], [utils], [location], [signature], [kconfig]) appear either as
      records of data and functions or as section variables. *)

From Stdlib Require Import ZArith Lia Ascii.
From stdpp Require Import gmap strings list pretty sorting.

Open Scope Z_scope.

(** ** Exceptions and results *)

Inductive exn : Type :=
  | StructError          (* struct.error *)
  | KeyError             (* dict[key] on a missing key *)
  | AssertionError       (* a failed assert *)
  | AttributeError       (* an attribute of None *)
  | TypeError            (* an operator applied to None *)
  | OSError              (* a file that cannot be opened *)
  | SystemExit           (* sys.exit() *)
  | KernelVersionError.  (* class KernelVersionError(RuntimeError) *)

Inductive result (A : Type) : Type :=
  | Ok (a : A)
  | Raise (e : exn).
Arguments Ok {A} a.
Arguments Raise {A} e.

Definition bind {A B : Type} (m : result A) (k : A → result B) : result B :=
  match m with
  | Ok a => k a
  | Raise e => Raise e
  end.

Notation "'let*' x ':=' m 'in' k" := (bind m (fun x => k))
  (at level 10, x name, m at level 100, k at level 200, only parsing).

(** ** Data owned by the binary image accessor ([elf.py]) *)

(** Modelled from the spec: the [Symbol] tuple of [elf.py]
    (name, virtual address, size, classification). *)
Record Symbol : Type := mkSymbol {
  sym_name  : string;
  sym_vaddr : Z;
  sym_size  : Z;
  sym_type  : string
}.

(** Modelled from the spec: the [Section] tuple of [elf.py]. *)
Record Section : Type := mkSection {
  sec_name  : string;
  sec_vaddr : Z;
  sec_size  : Z
}.

#[global] Instance Symbol_eq_dec : EqDecision Symbol.
Proof. solve_decision. Defined.

(** Python dictionaries keep insertion order and are iterated in it:
    [d.values()] is the list of second components, [d.get(k)] the first
    binding of [k]. *)
Definition dict (V : Type) : Type := list (string * V).

Fixpoint dict_get {V : Type} (k : string) (d : dict V) : option V :=
  match d with
  | [] => None
  | (k', v) :: d' => if String.eqb k k' then Some v else dict_get k d'
  end.

Definition dict_values {V : Type} (d : dict V) : list V := map snd d.

(** [d[k]]: raises [KeyError] on a missing key. *)
Definition dict_index {V : Type} (k : string) (d : dict V) : result V :=
  match dict_get k d with
  | Some v => Ok v
  | None => Raise KeyError
  end.

(** Modelled from the spec: the [ELF] object of [elf.py], as far as
    [kernel.py] uses it. [elf_file] is the content of the open file. *)
Record ELF : Type := mkELF {
  elf_symbols          : dict Symbol;
  elf_functions        : dict Symbol;
  elf_sections         : dict Section;
  elf_file             : list Byte.byte;
  bits32               : bool;
  big_endian           : bool;
  has_debug_info       : bool;
  vaddr_to_file_offset : Z → nat;
  vaddr_read           : Z → nat → list Byte.byte;
  read_symbol          : Symbol → string;
  vaddr_read_string    : Z → string
}.

(** ** Unpacking pointer-sized words ([struct]) *)

(** [self.__long_size = (8, 4)[self.vmlinux.bits32]] *)
Definition long_size (vmlinux : ELF) : nat :=
  if bits32 vmlinux then 4%nat else 8%nat.

Fixpoint le_to_Z (bs : list Byte.byte) : Z :=
  match bs with
  | [] => 0
  | b :: bs' => Z.of_N (Byte.to_N b) + 256 * le_to_Z bs'
  end.

(** [struct.unpack(self.__long_pack_fmt, bs)[0]] where the format is
    ['<>'[big_endian] + 'QL'[bits32]]; a buffer of the wrong length raises
    [struct.error]. *)
Definition unpack_long (vmlinux : ELF) (bs : list Byte.byte) : result Z :=
  if Nat.eqb (length bs) (long_size vmlinux)
  then Ok (le_to_Z (if big_endian vmlinux then rev bs else bs))
  else Raise StructError.

(** The first [n] words of a buffer. *)
Fixpoint words (vmlinux : ELF) (n : nat) (bs : list Byte.byte) : list Z :=
  match n with
  | O => []
  | S n' =>
      le_to_Z (if big_endian vmlinux
               then rev (take (long_size vmlinux) bs)
               else take (long_size vmlinux) bs)
      :: words vmlinux n' (drop (long_size vmlinux) bs)
  end.

(** [f.seek(off); f.read(size)] *)
Definition file_read (vmlinux : ELF) (off size : nat) : list Byte.byte :=
  take size (drop off (elf_file vmlinux)).

(** [__iter_unpack_vmlinux_long(off, size)] with a size:
    [struct.iter_unpack] over [f.read(size)], which raises [struct.error]
    unless the buffer length is a multiple of the word size. *)
Definition iter_unpack_vmlinux_long_sized (vmlinux : ELF) (off : nat) (size : Z)
  : result (list Z) :=
  let buf := file_read vmlinux off (Z.to_nat size) in
  if Nat.eqb (length buf mod long_size vmlinux) 0
  then Ok (words vmlinux (length buf / long_size vmlinux) buf)
  else Raise StructError.

(** [__iter_unpack_vmlinux_long(off)] without a size: the generator yields
    one word per [f.read(chunk_size)] and raises [struct.error] at the first
    short read. The words it yields before raising are the complete words of
    the rest of the file. *)
Definition iter_unpack_vmlinux_long_unsized (vmlinux : ELF) (off : nat) : list Z :=
  let buf := drop off (elf_file vmlinux) in
  words vmlinux (length buf / long_size vmlinux) buf.

(** ** Table unpacker: [Kernel.__unpack_syscall_table] *)

Inductive unpack_mode : Type := Strict | Adaptive.

(** The test [tbl.size > 0x80]. *)
Definition table_mode (tbl : Symbol) : unpack_mode :=
  if 128 <? sym_size tbl then Strict else Adaptive.

(** [vstart <= vaddr < vend] *)
Definition in_section (target_section : Section) (vaddr : Z) : bool :=
  (sec_vaddr target_section <=? vaddr)
  && (vaddr <? sec_vaddr target_section + sec_size target_section).

(** The set [boundaries]: addresses of the symbols that are not of type
    ['FUNC'], without the table's own address. *)
Definition boundaries (vmlinux : ELF) (tbl : Symbol) : gset Z :=
  list_to_set
    (map sym_vaddr
       (filter (λ x, sym_type x ≠ "FUNC"%string) (dict_values (elf_symbols vmlinux))))
  ∖ {[ sym_vaddr tbl ]}.

(** The [for vaddr in self.__iter_unpack_vmlinux_long(tbl_file_off)] loop of
    the adaptive branch. [gen] holds the words the generator still yields
    before it raises; the result is [vaddrs] with the final cursor. *)
Fixpoint adaptive_loop (vmlinux : ELF) (target_section : Section)
    (bnd : gset Z) (gen : list Z) (cur_idx_vaddr : Z) (vaddrs : list Z)
  : result (list Z * Z) :=
  match gen with
  | [] => Raise StructError
  | vaddr :: gen' =>
      if negb (in_section target_section vaddr) then Ok (vaddrs, cur_idx_vaddr)
      else if bool_decide (cur_idx_vaddr ∈ bnd) then Ok (vaddrs, cur_idx_vaddr)
      else adaptive_loop vmlinux target_section bnd gen'
             (cur_idx_vaddr + Z.of_nat (long_size vmlinux)) (vaddrs ++ [vaddr])
  end.

Definition unpack_syscall_table (vmlinux : ELF) (tbl : Symbol)
    (target_section : Section) : result (list Z) :=
  let tbl_file_off := vaddr_to_file_offset vmlinux (sym_vaddr tbl) in
  match table_mode tbl with
  | Strict =>
      iter_unpack_vmlinux_long_sized vmlinux tbl_file_off (sym_size tbl)
  | Adaptive =>
      let* r := adaptive_loop vmlinux target_section (boundaries vmlinux tbl)
                  (iter_unpack_vmlinux_long_unsized vmlinux tbl_file_off)
                  (sym_vaddr tbl) [] in
      Ok r.1
  end.

(** ** Syscalls and the architecture profile *)

(** A kernel version is a tuple of two or three integers. *)
Definition KernelVersion : Type := list Z.

(** Payloads that only pass through this module. *)
Definition Path : Type := string.
Definition Signature : Type := list string.
Definition KconfigDeps : Type := list string.
Definition Kconfig : Type := list (string * string).

(** Modelled from the spec: the [Syscall] object of [syscall.py], built as
    [Syscall(index, number, name, origname, symbol, kconfig, signature=None,
    esoteric=False)]; the enrichment fields start empty. The [kconfig]
    argument is [None] for hardcoded entries. *)
Record Syscall : Type := mkSyscall {
  sc_index         : option nat;
  sc_number        : Z;
  sc_name          : string;
  sc_origname      : string;
  sc_symbol        : Symbol;
  sc_kconfig       : option KconfigDeps;
  sc_signature     : option Signature;
  sc_esoteric      : bool;
  sc_file          : option Path;
  sc_line          : option Z;
  sc_good_location : bool
}.

Definition new_Syscall (index : option nat) (number : Z) (name origname : string)
    (symbol : Symbol) (kconfig : option KconfigDeps)
    (signature : option Signature) (esoteric : bool) : Syscall :=
  {| sc_index := index; sc_number := number; sc_name := name;
     sc_origname := origname; sc_symbol := symbol; sc_kconfig := kconfig;
     sc_signature := signature; sc_esoteric := esoteric;
     sc_file := None; sc_line := None; sc_good_location := false |}.

(** Modelled from the spec: the [Arch] object of [arch/], as far as
    [__extract_syscalls] uses it. [esoteric_syscalls] is the
    [VersionedDict] indexed by kernel version; each entry is
    [(number, name, symbol name, signature)]; [arch_kconfig] is the
    [VersionedDict] [kconfig]. *)
Record Arch : Type := mkArch {
  arch_name                     : string;
  arch_bits32                   : bool;
  config_target                 : string;
  arch_kconfig                  : KernelVersion → Kconfig;
  syscall_table_name            : string;
  syscall_num_base              : Z;
  uses_function_descriptors     : bool;
  symbol_is_ni_syscall          : Symbol → bool;
  preferred_symbol              : Symbol → Symbol → Symbol;
  translate_syscall_symbol_name : string → string;
  normalize_syscall_name        : string → string;
  skip_syscall                  : Syscall → bool;
  is_dummy_syscall              : Syscall → ELF → bool;
  esoteric_syscalls             : KernelVersion → list (Z * string * string * option Signature)
}.

(** ** Counters *)

(** [c[k] += 1] on a [Counter] or a [defaultdict(int)]: a new key goes to
    the end, an old key keeps its place. *)
Fixpoint count_incr {K : Type} `{EqDecision K} (k : K) (c : list (K * Z)) : list (K * Z) :=
  match c with
  | [] => [(k, 1)]
  | (k', n) :: c' =>
      if decide (k = k') then (k', n + 1) :: c' else (k', n) :: count_incr k c'
  end.

(** [Counter(l).items()] *)
Definition Counter {K : Type} `{EqDecision K} (l : list K) : list (K * Z) :=
  foldl (λ c k, count_incr k c) [] l.

(** [sorted(items, key=itemgetter(1), reverse=True)]: descending counts,
    items with equal counts stay in their original order. *)
Fixpoint sorted_insert {K : Type} (x : K * Z) (l : list (K * Z)) : list (K * Z) :=
  match l with
  | [] => [x]
  | y :: l' => if y.2 <=? x.2 then x :: y :: l' else y :: sorted_insert x l'
  end.

Definition sorted_by_count {K : Type} (items : list (K * Z)) : list (K * Z) :=
  foldr sorted_insert [] items.

(** The accumulation [ni_total += n] over the sorted items. *)
Definition sum_counts {K : Type} (items : list (K * Z)) : Z :=
  foldl (λ acc kn, acc + kn.2) 0 items.

(** ** Extraction: [Kernel.__extract_syscalls] *)

(** [set(vaddrs)] *)
Definition seen_of (vaddrs : list Z) : gset Z := list_to_set vaddrs.

(** [{sym.vaddr: sym for sym in ni_syscalls}], with the symbols in the
    order in which the set is iterated. *)
Definition symbols_by_vaddr_init (ni_iter : list Symbol) : gmap Z Symbol :=
  foldl (λ m sym, <[sym_vaddr sym := sym]> m) ∅ ni_iter.

(** One iteration of [for sym in self.vmlinux.symbols.values()]. *)
Definition resolve_step (arch : Arch) (seen : gset Z) (ni_syscalls : list Symbol)
    (symbols_by_vaddr : gmap Z Symbol) (sym : Symbol) : gmap Z Symbol :=
  let vaddr := sym_vaddr sym in
  if bool_decide (vaddr ∈ seen) then
    match symbols_by_vaddr !! vaddr with
    | None => <[vaddr := sym]> symbols_by_vaddr
    | Some other =>
        if bool_decide (sym = other) then symbols_by_vaddr
        else if bool_decide (other ∈ ni_syscalls)
                && negb (bool_decide (sym ∈ ni_syscalls))
        then symbols_by_vaddr
        else <[vaddr := preferred_symbol arch sym other]> symbols_by_vaddr
    end
  else symbols_by_vaddr.

(** The address-to-symbol map after the loop over [symbols]. *)
Definition resolve_symbols (arch : Arch) (vaddrs : list Z)
    (ni_syscalls ni_iter : list Symbol) (symbols : list Symbol) : gmap Z Symbol :=
  foldl (resolve_step arch (seen_of vaddrs) ni_syscalls)
        (symbols_by_vaddr_init ni_iter) symbols.

(** [counts = sorted(Counter(vaddrs).items(), ...)] and
    [best = symbols_by_vaddr[counts[0][0]]]; [vaddrs] is not empty here. *)
Definition most_frequent (symbols_by_vaddr : gmap Z Symbol) (vaddrs : list Z)
  : result Symbol :=
  match sorted_by_count (Counter vaddrs) with
  | [] => Raise KeyError
  | (va, _) :: _ =>
      match symbols_by_vaddr !! va with
      | Some best => Ok best
      | None => Raise KeyError
      end
  end.

(** The loop [for idx, vaddr in enumerate(vaddrs)] that keeps the defined
    syscalls; [idx] is the index of the head of [vaddrs]. *)
Fixpoint filter_defined (symbols_by_vaddr : gmap Z Symbol) (ni_syscalls : list Symbol)
    (idx : nat) (vaddrs : list Z)
    (symbols : list (nat * Symbol)) (ni_count : list (string * Z))
  : list (nat * Symbol) * list (string * Z) :=
  match vaddrs with
  | [] => (symbols, ni_count)
  | vaddr :: vaddrs' =>
      match symbols_by_vaddr !! vaddr with
      | None =>
          filter_defined symbols_by_vaddr ni_syscalls (S idx) vaddrs' symbols ni_count
      | Some sym =>
          if bool_decide (sym ∈ ni_syscalls)
          then filter_defined symbols_by_vaddr ni_syscalls (S idx) vaddrs'
                 symbols (count_incr (sym_name sym) ni_count)
          else filter_defined symbols_by_vaddr ni_syscalls (S idx) vaddrs'
                 (symbols ++ [(idx, sym)]) ni_count
      end
  end.

(** The loop [for num, name, sym_name, sig in esoteric]. *)
Fixpoint add_esoteric (vmlinux : ELF)
    (esoteric : list (Z * string * string * option Signature))
    (syscalls : list Syscall) : result (list Syscall) :=
  match esoteric with
  | [] => Ok syscalls
  | (num, name, sname, sig) :: esoteric' =>
      let* sym := dict_index sname (elf_symbols vmlinux) in
      add_esoteric vmlinux esoteric'
        (syscalls ++ [new_Syscall None num name name sym None sig true])
  end.

(** The values that the assertion of [__extract_syscalls] relates. *)
Record Normalized : Type := mkNormalized {
  nz_syscalls   : list Syscall;
  nz_ni_total   : Z;
  nz_n_skipped  : Z;
  nz_n_esoteric : Z
}.

Definition set_location (sc : Syscall) (loc : option Path * option Z * bool) : Syscall :=
  {| sc_index := sc_index sc; sc_number := sc_number sc; sc_name := sc_name sc;
     sc_origname := sc_origname sc; sc_symbol := sc_symbol sc;
     sc_kconfig := sc_kconfig sc; sc_signature := sc_signature sc;
     sc_esoteric := sc_esoteric sc;
     sc_file := loc.1.1; sc_line := loc.1.2; sc_good_location := loc.2 |}.

Definition set_signature (sc : Syscall) (sig : option Signature) : Syscall :=
  {| sc_index := sc_index sc; sc_number := sc_number sc; sc_name := sc_name sc;
     sc_origname := sc_origname sc; sc_symbol := sc_symbol sc;
     sc_kconfig := sc_kconfig sc; sc_signature := sig;
     sc_esoteric := sc_esoteric sc;
     sc_file := sc_file sc; sc_line := sc_line sc;
     sc_good_location := sc_good_location sc |}.

Section Extraction.

(** [Arch.adjust_abi(vmlinux)] updates the architecture object in place. *)
Variable adjust_abi : Arch → ELF → Arch.
(** The order in which Python iterates over the set [ni_syscalls]. *)
Variable set_order : list Symbol → list Symbol.
(** From [syscall.py], [utils.py] and [kconfig.py]. *)
Variable common_syscall_symbol_prefixes : list string → Z → list string.
Variable noprefix : string → list string → string.
Variable kconfig_syscall_deps : string → KernelVersion → KconfigDeps.
(** [pathlib.PurePath.match] *)
Variable path_match : Path → string → bool.
(** What the enrichment collaborators find for the syscall at a position
    of the list they are given. *)
Variable locations_of :
  list Syscall → ELF → option Path → option Path → Arch → nat
  → option Path * option Z * bool.
Variable signatures_of : list Syscall → ELF → bool → nat → option Signature.

(** The fields [self.kdir] and [self.rdir], and the outcome of reading
    the property [self.version] during the run: a value once it is cached,
    or the exception that leaves the run. *)
Variable self_kdir self_rdir : option Path.
Variable self_version : result KernelVersion.

(** Modelled from the spec: [extract_syscall_locations] of [location.py]
    fills file, line and good-location of the entries in place and neither
    adds nor removes entries. *)
Definition extract_syscall_locations (syscalls : list Syscall) (vmlinux : ELF)
    (arch : Arch) : list Syscall :=
  imap (λ i sc, set_location sc (locations_of syscalls vmlinux self_kdir self_rdir arch i))
       syscalls.

(** Modelled from the spec: [extract_syscall_signatures] of [signature.py]
    fills the signature of the entries in place and neither adds nor
    removes entries. *)
Definition extract_syscall_signatures (syscalls : list Syscall) (vmlinux : ELF)
    (have_source : bool) : list Syscall :=
  imap (λ i sc, set_signature sc (signatures_of syscalls vmlinux have_source i))
       syscalls.

(** The ni_syscall symbols among [self.vmlinux.functions.values()]. *)
Definition find_ni_syscalls (arch : Arch) (vmlinux : ELF) : list Symbol :=
  filter (λ sym, symbol_is_ni_syscall arch sym = true)
         (dict_values (elf_functions vmlinux)).

(** Translation of function descriptors, one more level of indirection. *)
Fixpoint translate_descriptors (vmlinux : ELF) (descriptors : list Z)
    (vaddrs : list Z) : result (list Z) :=
  match descriptors with
  | [] => Ok vaddrs
  | desc_vaddr :: descriptors' =>
      let* vaddr := unpack_long vmlinux
                      (vaddr_read vmlinux desc_vaddr (long_size vmlinux)) in
      translate_descriptors vmlinux descriptors' (vaddrs ++ [vaddr])
  end.

(** The syscall [sc] that one iteration of the loop over [symbols]
    builds, once [self.version] has been read. *)
Definition table_syscall (arch : Arch) (prefixes : list string)
    (version : KernelVersion) (slot : nat * Symbol) : Syscall :=
  let '(idx, sym) := slot in
  let num := syscall_num_base arch + Z.of_nat idx in
  let origname := noprefix (sym_name sym) prefixes in
  let origname := translate_syscall_symbol_name arch origname in
  let name := normalize_syscall_name arch origname in
  let kdeps := kconfig_syscall_deps name version in
  let kdeps := match kdeps with
               | [] => kconfig_syscall_deps origname version
               | _ => kdeps
               end in
  new_Syscall (Some idx) num name origname sym (Some kdeps) None false.

(** The loop [for idx, sym in symbols] that builds the syscalls. *)
Fixpoint build_syscalls (arch : Arch) (prefixes : list string)
    (symbols : list (nat * Symbol)) (syscalls : list Syscall) (n_skipped : Z)
  : result (list Syscall * Z) :=
  match symbols with
  | [] => Ok (syscalls, n_skipped)
  | slot :: symbols' =>
      let* version := self_version in
      let sc := table_syscall arch prefixes version slot in
      if skip_syscall arch sc
      then build_syscalls arch prefixes symbols' syscalls (n_skipped + 1)
      else build_syscalls arch prefixes symbols' (syscalls ++ [sc]) n_skipped
  end.

(** From [symbols = []] to the assertion that closes the normalisation. *)
Definition normalize (arch : Arch) (vmlinux : ELF)
    (symbols_by_vaddr : gmap Z Symbol) (ni_syscalls : list Symbol)
    (vaddrs : list Z) : result Normalized :=
  let '(symbols, ni_count) :=
    filter_defined symbols_by_vaddr ni_syscalls 0 vaddrs [] [] in
  let symbol_names := map (λ p, sym_name p.2) symbols in
  let prefixes := common_syscall_symbol_prefixes symbol_names 20 in
  let* built := build_syscalls arch prefixes symbols [] 0 in
  let* version := self_version in
  let esoteric := esoteric_syscalls arch version in
  let n_esoteric := Z.of_nat (length esoteric) in
  let* syscalls := add_esoteric vmlinux esoteric built.1 in
  let ni_total := sum_counts (sorted_by_count ni_count) in
  if Z.of_nat (length syscalls)
     =? Z.of_nat (length vaddrs) - ni_total - built.2 + n_esoteric
  then Ok (mkNormalized syscalls ni_total built.2 n_esoteric)
  else Raise AssertionError.

(** The test that decides whether the filter keeps a syscall. *)
Definition is_implemented (arch : Arch) (vmlinux : ELF) (sc : Syscall) : bool :=
  if negb (sc_esoteric sc) then
    if is_dummy_syscall arch sc vmlinux then false
    else if negb (sc_good_location sc) then
      match sc_file sc with
      | Some file => negb (path_match file "**/kernel/sys_ni.c")
      | None => true
      end
    else true
  else true.

(** The loop [for sc in syscalls] that collects [implemented]. *)
Definition implementation_filter (arch : Arch) (vmlinux : ELF)
    (syscalls : list Syscall) : list Syscall :=
  foldl (λ implemented sc,
           if is_implemented arch vmlinux sc then implemented ++ [sc]
           else implemented)
        [] syscalls.

(** The second half of [__extract_syscalls], from [symbols = []] to
    [return implemented]. *)
Definition syscalls_of_resolved (arch : Arch) (vmlinux : ELF)
    (symbols_by_vaddr : gmap Z Symbol) (ni_syscalls : list Symbol)
    (vaddrs : list Z) : result (list Syscall) :=
  let* norm := normalize arch vmlinux symbols_by_vaddr ni_syscalls vaddrs in
  let syscalls := extract_syscall_locations (nz_syscalls norm) vmlinux arch in
  let syscalls := extract_syscall_signatures syscalls vmlinux
                    (bool_decide (is_Some self_kdir)) in
  Ok (implementation_filter arch vmlinux syscalls).

Definition extract_syscalls (arch0 : Arch) (vmlinux : ELF) : result (list Syscall) :=
  if negb (Bool.eqb (arch_bits32 arch0) (bits32 vmlinux)) then Ok [] else
  let arch := adjust_abi arch0 vmlinux in
  match dict_get (syscall_table_name arch) (elf_symbols vmlinux) with
  | None => Ok []
  | Some tbl =>
    let* text := dict_index ".text" (elf_sections vmlinux) in
    let* decoded :=
      (if uses_function_descriptors arch then
         match dict_get ".opd" (elf_sections vmlinux) with
         | None => Ok None
         | Some opd =>
             let* descriptors := unpack_syscall_table vmlinux tbl opd in
             let* vaddrs := translate_descriptors vmlinux descriptors [] in
             Ok (Some vaddrs)
         end
       else
         let* vaddrs := unpack_syscall_table vmlinux tbl text in
         Ok (Some vaddrs)) in
    match decoded with
    | None | Some [] => Ok []
    | Some vaddrs =>
      let ni_syscalls := find_ni_syscalls arch vmlinux in
      match ni_syscalls with
      | [] => Ok []
      | _ =>
        let symbols_by_vaddr :=
          resolve_symbols arch vaddrs ni_syscalls (set_order ni_syscalls)
            (dict_values (elf_symbols vmlinux)) in
        if bool_decide (symbols_by_vaddr = ∅) then Ok [] else
        let* best := most_frequent symbols_by_vaddr vaddrs in
        syscalls_of_resolved arch vmlinux symbols_by_vaddr ni_syscalls vaddrs
      end
    end
  end.

End Extraction.

(** ** Version detector *)

(** [\d] on a character of ASCII text: the digits [0] to [9]. Text is
    modelled as ASCII text; on other text the [\d] of a [str] pattern also
    matches the decimal digits of other scripts, which this model does not
    cover. *)
Definition is_digit (c : ascii) : bool :=
  (48 <=? Z.of_nat (nat_of_ascii c)) && (Z.of_nat (nat_of_ascii c) <=? 57).

(** The longest run of digits at the start of a string, as matched by a
    greedy [\d+], with the rest of the string. Strings are ASCII here, so
    [\d] is [0-9]. *)
Fixpoint span_digits (s : string) : list ascii * string :=
  match s with
  | String c s' =>
      if is_digit c
      then let '(ds, rest) := span_digits s' in (c :: ds, rest)
      else ([], s)
  | EmptyString => ([], s)
  end.

(** [int(digits)] for a run of ASCII digits that [int] converts: beyond
    [sys.int_max_str_digits] digits (4300 unless changed) [int] raises
    [ValueError], which this model does not cover. *)
Definition int_of_digits (ds : list ascii) : Z :=
  foldl (λ acc c, 10 * acc + (Z.of_nat (nat_of_ascii c) - 48)) 0 ds.

(** [re.match(r'(\d+)\.(\d+)(\.(\d+))?', s)] and the tuple built from its
    groups. *)
Definition version_from_str (s : string) : option KernelVersion :=
  match span_digits s with
  | ([], _) => None
  | (a, String "." s1) =>
      match span_digits s1 with
      | ([], _) => None
      | (b, String "." s2) =>
          match span_digits s2 with
          | ([], _) => Some [int_of_digits a; int_of_digits b]
          | (c, _) => Some [int_of_digits a; int_of_digits b; int_of_digits c]
          end
      | (b, _) => Some [int_of_digits a; int_of_digits b]
      end
  | _ => None
  end.

(** [s[n:]] *)
Fixpoint string_drop (n : nat) (s : string) : string :=
  match n, s with
  | S n', String _ s' => string_drop n' s'
  | _, _ => s
  end.

(** [banner] is the decoded text of the banner. *)
Definition version_from_banner (banner : string) : option KernelVersion :=
  if String.prefix "Linux version " banner
  then version_from_str (string_drop 14 banner)
  else None.

(** [Kernel.__version_from_vmlinux] *)
Definition version_from_vmlinux (vmlinux : ELF) : option KernelVersion :=
  match dict_get "linux_banner" (elf_symbols vmlinux) with
  | None => None
  | Some banner =>
      let banner :=
        if negb (sym_size banner =? 0)
        then read_symbol vmlinux banner
        else vaddr_read_string vmlinux (sym_vaddr banner) in
      version_from_banner banner
  end.

(** Comparison of tuples of integers, [a >= b]. *)
Fixpoint tuple_ge (a b : list Z) : bool :=
  match a, b with
  | _, [] => true
  | [], _ :: _ => false
  | x :: a', y :: b' =>
      if y <? x then true else if x <? y then false else tuple_ge a' b'
  end.

(** ** The [Kernel] object *)

Record Kernel : Type := mkKernel {
  vmlinux                 : option ELF;
  kdir                    : option Path;
  outdir                  : option Path;
  rdir                    : option Path;
  arch                    : Arch;
  toolchain_prefix        : option string;
  Kernel__version         : option KernelVersion;
  Kernel__version_source  : option string;
  Kernel__syscalls        : option (list Syscall);
  Kernel__backup_makefile : option string
}.

Definition set_version (v : option KernelVersion) (self : Kernel) : Kernel :=
  mkKernel (vmlinux self) (kdir self) (outdir self) (rdir self) (arch self)
    (toolchain_prefix self) v (Kernel__version_source self)
    (Kernel__syscalls self) (Kernel__backup_makefile self).

Definition set_version_source (src : option string) (self : Kernel) : Kernel :=
  mkKernel (vmlinux self) (kdir self) (outdir self) (rdir self) (arch self)
    (toolchain_prefix self) (Kernel__version self) src
    (Kernel__syscalls self) (Kernel__backup_makefile self).

Definition set_syscalls (l : option (list Syscall)) (self : Kernel) : Kernel :=
  mkKernel (vmlinux self) (kdir self) (outdir self) (rdir self) (arch self)
    (toolchain_prefix self) (Kernel__version self) (Kernel__version_source self)
    l (Kernel__backup_makefile self).

Definition set_backup_makefile (data : option string) (self : Kernel) : Kernel :=
  mkKernel (vmlinux self) (kdir self) (outdir self) (rdir self) (arch self)
    (toolchain_prefix self) (Kernel__version self) (Kernel__version_source self)
    (Kernel__syscalls self) data.

(** ['\n' * n] *)
Fixpoint newlines (n : nat) : string :=
  match n with
  | O => EmptyString
  | S n' => String "010" (newlines n')
  end.

(** [s[:n]] *)
Fixpoint string_take (n : nat) (s : string) : string :=
  match n, s with
  | S n', String c s' => String c (string_take n' s')
  | _, _ => EmptyString
  end.

(** ** Methods of [Kernel] that act on the object and on the outside world *)

Section KernelObject.

(** The outside world: the file system, the processes run by [make], the
    clock and the [atexit] registry. *)
Variable World : Type.
Variable Time : Type.
Variable monotonic : World → Time.
Variable time_sub : Time → Time → Time.
Variable sched_getaffinity : World → nat.
Variable high_verbosity : World → bool.
Variable path_join : Path → string → Path.
Variable path_absolute : Path → Path.
(** [ensure_command] leaves the program when the command fails. *)
Variable ensure_command :
  list string → option Path → option string → bool → bool → World
  → result string * World.
Variable run_command :
  list string → option Path → option string → bool → World → Z * World.
Variable read_file : Path → World → result string.
Variable write_file : Path → string → World → World.
(** [re.search(r'^KBUILD_CFLAGS\s*\+=\s*-O(2)\n', data, re.MULTILINE)]
    and the span of its group. *)
Variable search_kbuild_cflags : string → option (nat * nat).
Variable atexit_register : World → World.
Variable atexit_unregister : World → World.
Variable edit_config :
  option Path → Path → Kconfig → World → result unit * World.
Variable edit_config_check_deps :
  option Path → Path → Kconfig → World → result unit * World.
Variable kconfig_debugging : KernelVersion → Kconfig.
Variable kconfig_compatibility : KernelVersion → Kconfig.
Variable kconfig_more_syscalls : KernelVersion → Kconfig.

(** A method: it may change the object and the world, and it returns or
    raises. The object keeps the changes made before an exception. *)
Definition method (A : Type) : Type := Kernel → World → result A * Kernel * World.

Definition ret {A : Type} (a : A) : method A := λ self w, (Ok a, self, w).

Definition raise {A : Type} (e : exn) : method A := λ self w, (Raise e, self, w).

Definition mbind {A B : Type} (m : method A) (k : A → method B) : method B :=
  λ self w,
    match m self w with
    | (Ok a, self', w') => k a self' w'
    | (Raise e, self', w') => (Raise e, self', w')
    end.

Notation "'do' x ← m ; k" := (mbind m (λ x, k))
  (at level 10, x name, m at level 100, k at level 200, only parsing).
Notation "m ;; k" := (mbind m (λ _, k))
  (at level 100, k at level 200, right associativity, only parsing).

Definition get_self : method Kernel := λ self w, (Ok self, self, w).

Definition modify (f : Kernel → Kernel) : method unit :=
  λ self w, (Ok tt, f self, w).

Definition get_world : method World := λ self w, (Ok w, self, w).

Definition modify_world (f : World → World) : method unit :=
  λ self w, (Ok tt, self, f w).

(** The private method [__extract_syscalls], as it acts on the object and
    the world; what it computes is [extract_syscalls]. *)
Variable Kernel__extract_syscalls : method (list Syscall).

(** [Kernel.__version_from_make] *)
Definition version_from_make : method (option KernelVersion) :=
  λ self w,
    match ensure_command ["make kernelversion"%string] (kdir self) None false false w with
    | (Ok v, w') => (Ok (version_from_str v), self, w')
    | (Raise e, w') => (Raise e, self, w')
    end.

(** The property [Kernel.version] *)
Definition version : method KernelVersion :=
  do self ← get_self;
  (match Kernel__version self with
   | None =>
       match vmlinux self with
       | Some elf =>
           modify (set_version (version_from_vmlinux elf)) ;;
           modify (set_version_source (Some "vmlinux"%string))
       | None =>
           match kdir self with
           | Some _ =>
               do v ← version_from_make;
               modify (set_version v) ;;
               modify (set_version_source (Some "make"%string))
           | None => ret tt
           end
       end
   | Some _ => ret tt
   end) ;;
  do self ← get_self;
  match Kernel__version self with
  | None => raise KernelVersionError
  | Some v => ret v
  end.

(** The property [Kernel.syscalls] *)
Definition syscalls : method (list Syscall) :=
  do self ← get_self;
  match Kernel__syscalls self with
  | None =>
      do l ← Kernel__extract_syscalls;
      modify (set_syscalls (Some l)) ;;
      ret l
  | Some l => ret l
  end.

(** [Kernel.__try_set_optimization_level] *)
Definition try_set_optimization_level (lvl : nat) : method bool :=
  do self ← get_self;
  match kdir self with
  | None => raise TypeError
  | Some d =>
      do w ← get_world;
      match read_file (path_join d "Makefile") w with
      | Raise e => raise e
      | Ok data =>
          modify (set_backup_makefile (Some data)) ;;
          match search_kbuild_cflags data with
          | None => ret false
          | Some (start, stop) =>
              modify_world
                (write_file (path_join d "Makefile")
                   (string_take start data +:+ pretty lvl +:+ string_drop stop data)) ;;
              ret true
          end
      end
  end.

(** [Kernel.__restore_makefile] *)
Definition restore_makefile : method unit :=
  do self ← get_self;
  (match Kernel__backup_makefile self with
   | Some (String c data) =>
       match kdir self with
       | None => raise TypeError
       | Some d => modify_world (write_file (path_join d "Makefile") (String c data))
       end
   | _ => ret tt
   end) ;;
  modify_world atexit_unregister.

(** [Kernel.make] *)
Definition make (target : string) (stdin : option string) (ensure : bool)
  : method Z :=
  do self ← get_self;
  do w ← get_world;
  let j := Nat.max (sched_getaffinity w - 1) 1 in
  let cmd := ["make"; "-j" +:+ pretty j; "ARCH=" +:+ arch_name (arch self)]%string in
  match kdir self with
  | None => raise AttributeError
  | Some d =>
      let cmd := cmd ++ ["KCFLAGS='-fdebug-prefix-map=" +:+ path_absolute d +:+ "=.'"]%string in
      let cmd := match toolchain_prefix self with
                 | Some (String c p) => cmd ++ ["CROSS_COMPILE=" +:+ String c p]%string
                 | _ => cmd
                 end in
      let cmd := match outdir self with
                 | Some o => cmd ++ ["O=" +:+ o]%string
                 | None => cmd
                 end in
      if ensure then
        λ self w,
          match ensure_command (cmd ++ [target]) (kdir self) stdin false
                  (high_verbosity w) w with
          | (Ok _, w') => (Ok 0, self, w')
          | (Raise e, w') => (Raise e, self, w')
          end
      else
        λ self w,
          let '(res, w') := run_command (cmd ++ [target]) (kdir self) stdin
                              (high_verbosity w) w in
          (Ok res, self, w')
  end.

(** [Kernel.sync_config] *)
Definition sync_config : method unit :=
  do v ← version;
  if tuple_ge v [3; 7]
  then make "olddefconfig" None true ;; ret tt
  else make "oldconfig" (Some (newlines 1000)) true ;; ret tt.

(** [Kernel.clean] *)
Definition clean : method unit :=
  modify (set_version None) ;;
  make "distclean" None true ;;
  ret tt.

Definition lift_world (f : World → result unit * World) : method unit :=
  λ self w, let '(r, w') := f w in (r, self, w').

(** [Kernel.configure] *)
Definition configure : method unit :=
  do self ← get_self;
  match (match outdir self with Some o => Some o | None => kdir self end) with
  | None => raise TypeError
  | Some d =>
      let config_file := path_join d ".config" in
      modify (set_version None) ;;
      make (config_target (arch self)) None true ;;
      (do v ← version;
       lift_world (edit_config (kdir self) config_file (kconfig_debugging v))) ;;
      sync_config ;;
      (do v ← version;
       lift_world (edit_config (kdir self) config_file (kconfig_compatibility v))) ;;
      sync_config ;;
      (do v ← version;
       lift_world (edit_config_check_deps (kdir self) config_file
                     (kconfig_more_syscalls v))) ;;
      sync_config ;;
      (do v ← version;
       lift_world (edit_config_check_deps (kdir self) config_file
                     (arch_kconfig (arch self) v))) ;;
      sync_config
  end.

(** [Kernel.build] *)
Definition build (try_disable_opt : bool) : method Time :=
  do w0 ← get_world;
  let start := monotonic w0 in
  let finish : method Time :=
    do w ← get_world; ret (time_sub (monotonic w) start) in
  let normal_build : method Time :=
    make "vmlinux" None true ;; finish in
  modify (set_version None) ;;
  if try_disable_opt then
    do patched ← try_set_optimization_level 0;
    if patched then
      modify_world atexit_register ;;
      do res ← make "vmlinux" None false;
      restore_makefile ;;
      if res =? 0 then finish else
      try_set_optimization_level 1 ;;
      do res ← make "vmlinux" None false;
      restore_makefile ;;
      if res =? 0 then finish else
      normal_build
    else normal_build
  else normal_build.

(** The object and the world that a method leaves behind, whether it
    returns or raises. *)
Definition object_after {A : Type} (m : method A) (self : Kernel) (w : World)
  : Kernel := (m self w).1.2.

Definition world_after {A : Type} (m : method A) (self : Kernel) (w : World)
  : World := (m self w).2.

Definition outcome {A : Type} (m : method A) (self : Kernel) (w : World)
  : result A := (m self w).1.1.

(** A method that leaves the cached syscall list as it found it. *)
Definition keeps_syscalls {A : Type} (m : method A) : Prop :=
  ∀ self w, Kernel__syscalls (object_after m self w) = Kernel__syscalls self.

(** A method that discards the cached version: it runs as if no version
    were cached. *)
Definition discards_version {A : Type} (m : method A) : Prop :=
  ∀ self w, m self w = m (set_version None self) w.

(** A method that does not touch the cached version. *)
Definition keeps_version_field {A : Type} (m : method A) : Prop :=
  ∀ self w, Kernel__version (object_after m self w) = Kernel__version self.

End KernelObject.

(** ** The version properties of [Kernel] *)

(** ['.'.join(parts)] *)
Fixpoint join_dot (parts : list string) : string :=
  match parts with
  | [] => EmptyString
  | [p] => p
  | p :: parts' => p +:+ "." +:+ join_dot parts'
  end.

(** [str(x)] of an optional string inside an f-string. *)
Definition str_of_option (o : option string) : string :=
  match o with
  | Some s => s
  | None => "None"
  end.

(** Exceptions raised by the methods below, beside those of [exn]. *)
Inductive exception : Type :=
  | ValueError                  (* a tuple of the wrong length in an unpacking *)
  | KernelArchError             (* class KernelArchError(RuntimeError) *)
  | KernelWithoutSymbolsError   (* class KernelWithoutSymbolsError(RuntimeError) *)
  | KernelMultiABIError         (* class KernelMultiABIError(RuntimeError) *)
  | Propagated (e : exn).

Inductive xresult (A : Type) : Type :=
  | XOk (a : A)
  | XRaise (e : exception).
Arguments XOk {A} a.
Arguments XRaise {A} e.

Section KernelVersionProperties.

Variable World : Type.
Variable ensure_command :
  list string → option Path → option string → bool → bool → World
  → result string * World.

Local Notation "'do' x ← m ; k" := (mbind World m (λ x, k))
  (at level 10, x name, m at level 100, k at level 200, only parsing).

(** The property [Kernel.version_str] *)
Definition version_str : method World string :=
  do v ← version World ensure_command;
  do self ← get_self World;
  ret World (join_dot (map pretty v)
             +:+ " (from " +:+ str_of_option (Kernel__version_source self) +:+ ")").

(** The property [Kernel.version_tag]; [a, b, c = self.version] raises
    [ValueError] unless the version has three components. *)
Definition version_tag (self : Kernel) (w : World)
  : xresult string * Kernel * World :=
  match version World ensure_command self w with
  | (Ok [a; b; c], self', w') =>
      (XOk (if c =? 0
            then "v" +:+ pretty a +:+ "." +:+ pretty b
            else "v" +:+ pretty a +:+ "." +:+ pretty b +:+ "." +:+ pretty c),
       self', w')
  | (Ok _, self', w') => (XRaise ValueError, self', w')
  | (Raise e, self', w') => (XRaise (Propagated e), self', w')
  end.

(** The property [Kernel.version_source] *)
Definition version_source : method World (option string) :=
  do self ← get_self World;
  match Kernel__version_source self with
  | Some (String c s) => ret World (Some (String c s))
  | _ =>
      do v ← version World ensure_command;
      do self ← get_self World;
      match v with
      | [] => ret World None
      | _ => ret World (Kernel__version_source self)
      end
  end.

End KernelVersionProperties.

(** ** Vocabulary for the statements about the kernel builder *)

(** A method started in a state that satisfies [P] ends, whether it returns
    or raises, in a state that satisfies [Q]. *)
Definition ensures {World A : Type} (P : Kernel → World → Prop)
    (m : method World A) (Q : result A → Kernel → World → Prop) : Prop :=
  ∀ self w, P self w → Q (m self w).1.1 (m self w).1.2 (m self w).2.

(** The Makefile of the source tree [d] holds the content [data]. *)
Definition makefile_intact (World : Type) (path_join : Path → string → Path)
    (read_file : Path → World → result string) (d : Path) (data : string)
    (self : Kernel) (w : World) : Prop :=
  kdir self = Some d ∧ read_file (path_join d "Makefile") w = Ok data.

(** The content [data] is backed up in the object, and it is also in the
    file in case the restore would not write it. *)
Definition makefile_backed_up (World : Type) (path_join : Path → string → Path)
    (read_file : Path → World → result string) (d : Path) (data : string)
    (self : Kernel) (w : World) : Prop :=
  kdir self = Some d ∧ Kernel__backup_makefile self = Some data
  ∧ (data = EmptyString → read_file (path_join d "Makefile") w = Ok data).

(** ** Vocabulary for the statements about version strings *)

(** The text is ASCII text, on which [is_digit] is the [\d] of the
    pattern. *)
Fixpoint ascii_text (s : string) : bool :=
  match s with
  | EmptyString => true
  | String c s' => (nat_of_ascii c <? 128)%nat && ascii_text s'
  end.

(** The default of [sys.int_max_str_digits]: [int] and [str] convert the
    non-negative integers below [10 ^ int_max_str_digits]. *)
Definition int_max_str_digits : Z := 4300.

(** The string starts with a decimal digit. *)
Definition starts_with_digit (s : string) : bool :=
  match s with
  | String c _ => is_digit c
  | EmptyString => false
  end.

(** The string cannot continue a two-component version: it starts neither
    with a digit nor with a dot followed by a digit. *)
Definition ends_version (s : string) : bool :=
  match s with
  | String "." s' => negb (starts_with_digit s')
  | _ => negb (starts_with_digit s)
  end.

(** A version as [version_from_str] builds it: two or three components,
    none of them negative. *)
Definition well_formed_version (v : KernelVersion) : Prop :=
  (length v = 2%nat ∨ length v = 3%nat) ∧ Forall (λ x, 0 ≤ x) v.

(** ** Vocabulary for the statements about descriptors and counters *)

(** The code address stored in the descriptor at [desc_vaddr]. *)
Definition descriptor_target (vmlinux : ELF) (desc_vaddr : Z) : Z :=
  le_to_Z (if big_endian vmlinux
           then rev (vaddr_read vmlinux desc_vaddr (long_size vmlinux))
           else vaddr_read vmlinux desc_vaddr (long_size vmlinux)).

(** The entries of a map are symbols of [known] that sit at their key, and
    the keys are decoded addresses or addresses of placeholders. *)
Definition map_sound (vaddrs : list Z) (ni_iter : list Symbol)
    (known : Symbol → Prop) (m : gmap Z Symbol) : Prop :=
  ∀ a s, m !! a = Some s →
    sym_vaddr s = a
    ∧ (s ∈ ni_iter ∨ known s)
    ∧ (a ∈ vaddrs ∨ ∃ p, p ∈ ni_iter ∧ sym_vaddr p = a).

(** The number of times an address occurs in the decoded sequence. *)
Fixpoint occurrences (k : Z) (l : list Z) : Z :=
  match l with
  | [] => 0
  | x :: l' => (if decide (k = x) then 1 else 0) + occurrences k l'
  end.

(** The count recorded for a key, [0] when the key is absent. *)
Fixpoint count_get {K : Type} `{EqDecision K} (k : K) (c : list (K * Z)) : Z :=
  match c with
  | [] => 0
  | (k', n) :: c' => if decide (k = k') then n else count_get k c'
  end.

(** ** Vocabulary for the statements about the table unpacker *)

(** The words that follow the table's file offset. *)
Definition table_words (vmlinux : ELF) (tbl : Symbol) : list Z :=
  iter_unpack_vmlinux_long_unsized vmlinux
    (vaddr_to_file_offset vmlinux (sym_vaddr tbl)).

(** The cursor of the adaptive mode before it decodes word [i]. *)
Definition cursor (vmlinux : ELF) (tbl : Symbol) (i : nat) : Z :=
  sym_vaddr tbl + Z.of_nat i * Z.of_nat (long_size vmlinux).

(** An address held by a symbol that is not a function, the table's own
    address left out. *)
Definition symbol_boundary (vmlinux : ELF) (tbl : Symbol) (c : Z) : Prop :=
  c ≠ sym_vaddr tbl
  ∧ ∃ s, s ∈ dict_values (elf_symbols vmlinux)
         ∧ sym_type s ≠ "FUNC"%string ∧ sym_vaddr s = c.

(** The adaptive mode stops before word [i]. *)
Definition stops_at (vmlinux : ELF) (tbl : Symbol) (target_section : Section)
    (i : nat) : Prop :=
  ∃ v, table_words vmlinux tbl !! i = Some v
       ∧ (in_section target_section v = false
          ∨ symbol_boundary vmlinux tbl (cursor vmlinux tbl i)).

(** The reading of the boundary test that leaves out the table symbol
    only: an address held by a symbol that is not a function and is not the
    table itself. *)
Definition other_symbol_at (vmlinux : ELF) (tbl : Symbol) (c : Z) : Prop :=
  ∃ s, s ∈ dict_values (elf_symbols vmlinux)
       ∧ sym_type s ≠ "FUNC"%string ∧ s ≠ tbl ∧ sym_vaddr s = c.

(** ** Vocabulary for the statements about the normaliser *)

(** The number of slots that satisfy a test. *)
Fixpoint count_slots (f : Z → bool) (vaddrs : list Z) : nat :=
  match vaddrs with
  | [] => O
  | v :: vaddrs' => (if f v then 1 else 0) + count_slots f vaddrs'
  end.

(** The slot's address has no symbol. *)
Definition unresolved_slot (symbols_by_vaddr : gmap Z Symbol) (v : Z) : bool :=
  match symbols_by_vaddr !! v with
  | None => true
  | Some _ => false
  end.

(** The slot's address resolves to a placeholder. *)
Definition ni_slot (symbols_by_vaddr : gmap Z Symbol) (ni_syscalls : list Symbol)
    (v : Z) : bool :=
  match symbols_by_vaddr !! v with
  | None => false
  | Some sym => bool_decide (sym ∈ ni_syscalls)
  end.

(** The slots that resolve to a symbol that is not a placeholder, each with
    its index; [idx] is the index of the head of [vaddrs]. *)
Fixpoint defined_slots (symbols_by_vaddr : gmap Z Symbol) (ni_syscalls : list Symbol)
    (idx : nat) (vaddrs : list Z) : list (nat * Symbol) :=
  match vaddrs with
  | [] => []
  | v :: vaddrs' =>
      match symbols_by_vaddr !! v with
      | Some sym =>
          if bool_decide (sym ∈ ni_syscalls)
          then defined_slots symbols_by_vaddr ni_syscalls (S idx) vaddrs'
          else (idx, sym) :: defined_slots symbols_by_vaddr ni_syscalls (S idx) vaddrs'
      | None => defined_slots symbols_by_vaddr ni_syscalls (S idx) vaddrs'
      end
  end.

(** The syscall of one hardcoded entry, given its symbol. *)
Definition esoteric_syscall (e : Z * string * string * option Signature)
    (sym : Symbol) : Syscall :=
  new_Syscall None e.1.1.1 e.1.1.2 e.1.1.2 sym None e.2 true.

(** The syscalls of the hardcoded entries, in order. *)
Fixpoint esoteric_list (vmlinux : ELF)
    (esoteric : list (Z * string * string * option Signature))
  : result (list Syscall) :=
  match esoteric with
  | [] => Ok []
  | e :: esoteric' =>
      let* sym := dict_index e.1.2 (elf_symbols vmlinux) in
      let* rest := esoteric_list vmlinux esoteric' in
      Ok (esoteric_syscall e sym :: rest)
  end.

(** Two syscalls with the same identity fields; the enrichment fields and
    the signature may differ. *)
Definition same_identity (a b : Syscall) : Prop :=
  sc_index a = sc_index b ∧ sc_number a = sc_number b ∧ sc_name a = sc_name b
  ∧ sc_origname a = sc_origname b ∧ sc_symbol a = sc_symbol b
  ∧ sc_kconfig a = sc_kconfig b ∧ sc_esoteric a = sc_esoteric b.

(** [a] comes from an earlier table slot than [b]. *)
Definition slot_before (a b : Syscall) : Prop :=
  match sc_index a, sc_index b with
  | Some i, Some j => (i < j)%nat
  | _, _ => False
  end.

(** A syscall that comes from slot [i] of the decoded sequence: its symbol
    is the one chosen for the address in that slot and its number is the
    slot index plus the numbering base. *)
Definition table_entry (arch : Arch) (symbols_by_vaddr : gmap Z Symbol)
    (vaddrs : list Z) (sc : Syscall) : Prop :=
  sc_esoteric sc = false
  ∧ ∃ i v, sc_index sc = Some i ∧ vaddrs !! i = Some v
           ∧ symbols_by_vaddr !! v = Some (sc_symbol sc)
           ∧ sc_number sc = syscall_num_base arch + Z.of_nat i.

(** A syscall that comes from a hardcoded entry of the architecture. *)
Definition hardcoded_entry (arch : Arch) (version : KernelVersion)
    (sc : Syscall) : Prop :=
  sc_esoteric sc = true ∧ sc_index sc = None
  ∧ ∃ e, e ∈ esoteric_syscalls arch version
         ∧ sc_number sc = e.1.1.1 ∧ sc_name sc = e.1.1.2.

(** The prefixes found for the defined slots of a run. *)
Definition prefixes_of_run
    (common_syscall_symbol_prefixes : list string → Z → list string)
    (symbols_by_vaddr : gmap Z Symbol) (ni_syscalls : list Symbol)
    (vaddrs : list Z) : list string :=
  common_syscall_symbol_prefixes
    (map (λ p, sym_name p.2) (defined_slots symbols_by_vaddr ni_syscalls 0 vaddrs))
    20.

(** The syscalls built for the defined slots of a run, before any is
    skipped. *)
Definition built_of_run
    (common_syscall_symbol_prefixes : list string → Z → list string)
    (noprefix : string → list string → string)
    (kconfig_syscall_deps : string → KernelVersion → KconfigDeps)
    (version : KernelVersion) (arch : Arch)
    (symbols_by_vaddr : gmap Z Symbol) (ni_syscalls : list Symbol)
    (vaddrs : list Z) : list Syscall :=
  map (table_syscall noprefix kconfig_syscall_deps arch
         (prefixes_of_run common_syscall_symbol_prefixes symbols_by_vaddr
            ni_syscalls vaddrs) version)
      (defined_slots symbols_by_vaddr ni_syscalls 0 vaddrs).

(** The list that enrichment hands to the implementation filter. *)
Definition enriched
    (locations_of : list Syscall → ELF → option Path → option Path → Arch → nat
                    → option Path * option Z * bool)
    (signatures_of : list Syscall → ELF → bool → nat → option Signature)
    (self_kdir self_rdir : option Path) (arch : Arch) (vmlinux : ELF)
    (syscalls : list Syscall) : list Syscall :=
  extract_syscall_signatures signatures_of
    (extract_syscall_locations locations_of self_kdir self_rdir syscalls vmlinux arch)
    vmlinux (bool_decide (is_Some self_kdir)).

(** ** Vocabulary for the statements about the symbol resolver *)

(** A placeholder holds the address [a] in the map. *)
Definition placeholder_at (ni_syscalls : list Symbol) (a : Z)
    (m : gmap Z Symbol) : Prop :=
  ∃ q, m !! a = Some q ∧ q ∈ ni_syscalls ∧ sym_vaddr q = a.

(** Tie-breaks among distinct placeholders at [a] yield a placeholder at
    [a]. *)
Definition tie_break_closed (arch : Arch) (ni_syscalls : list Symbol) (a : Z) : Prop :=
  ∀ x y, x ∈ ni_syscalls → y ∈ ni_syscalls → x ≠ y →
         sym_vaddr x = a → sym_vaddr y = a →
         preferred_symbol arch x y ∈ ni_syscalls
         ∧ sym_vaddr (preferred_symbol arch x y) = a.

(** ** Example images *)

Definition byte_of_Z (z : Z) : Byte.byte :=
  default Byte.x00 (Byte.of_N (Z.to_N (z mod 256))).

Fixpoint le_bytes (n : nat) (z : Z) : list Byte.byte :=
  match n with
  | O => []
  | S n' => byte_of_Z z :: le_bytes n' (z / 256)
  end.

(** A 64-bit little-endian image whose file holds the given words, mapped at
    address [0x2000], with a code section at [0x1000, 0x9000). *)
Definition ex_text : Section := mkSection ".text" 0x1000 0x8000.

Definition ex_image (symbols functions : dict Symbol) (ws : list Z) : ELF :=
  mkELF symbols functions [(".text"%string, ex_text)]
    (concat (map (le_bytes 8) ws)) false false false
    (λ v, Z.to_nat (v - 0x2000)) (λ _ _, []) (λ _, EmptyString) (λ _, EmptyString).

(** A table that declares two pointers. *)
Definition ex_tbl16 : Symbol := mkSymbol "sys_call_table" 0x2000 16 "OBJECT".

Definition ex_image16 : ELF :=
  ex_image [("sys_call_table"%string, ex_tbl16)] [] [0x1000; 0x1008; 0x1010; 0].

(** A table that declares seventeen pointers. *)
Definition ex_tbl136 : Symbol := mkSymbol "sys_call_table" 0x2000 136 "OBJECT".

Definition ex_image136 : ELF :=
  ex_image [("sys_call_table"%string, ex_tbl136)] []
    (map (λ i, 0x1000 + 16 * Z.of_nat i) (seq 0 17)).

(** A table whose declared size is not a multiple of the pointer width. *)
Definition ex_tbl132 : Symbol := mkSymbol "sys_call_table" 0x2000 132 "OBJECT".

(** A table of unknown size with an alias at its own address and another
    table two words further. *)
Definition ex_tbl0 : Symbol := mkSymbol "sys_call_table" 0x2000 0 "OBJECT".
Definition ex_alias : Symbol := mkSymbol "__start_table" 0x2000 0 "NOTYPE".
Definition ex_compat : Symbol := mkSymbol "compat_sys_call_table" 0x2010 0 "OBJECT".

Definition ex_image_alias : ELF :=
  ex_image [("sys_call_table"%string, ex_tbl0);
            ("__start_table"%string, ex_alias);
            ("compat_sys_call_table"%string, ex_compat)] []
    [0x1000; 0x1008; 0x1010; 0].

(** ** Example run *)

Definition ex_tbl : Symbol := mkSymbol "sys_call_table" 0x2000 0 "OBJECT".
Definition ex_ni : Symbol := mkSymbol "sys_ni_syscall" 0x1000 16 "FUNC".
Definition ex_ni_alias : Symbol := mkSymbol "__x64_sys_vm86" 0x1000 16 "FUNC".
Definition ex_read : Symbol := mkSymbol "__x64_sys_read" 0x1010 16 "FUNC".
Definition ex_write : Symbol := mkSymbol "__x64_sys_write" 0x1020 16 "FUNC".
Definition ex_eso : Symbol := mkSymbol "sys_esoteric" 0x1030 16 "FUNC".
Definition ex_next : Symbol := mkSymbol "compat_sys_call_table" 0x2020 0 "OBJECT".

Definition ex_functions : dict Symbol :=
  [("__x64_sys_vm86", ex_ni_alias); ("sys_ni_syscall", ex_ni);
   ("__x64_sys_read", ex_read); ("__x64_sys_write", ex_write);
   ("sys_esoteric", ex_eso)]%string.

Definition ex_symbols : dict Symbol :=
  (("sys_call_table", ex_tbl) :: ex_functions
   ++ [("compat_sys_call_table", ex_next)])%string.

(** An architecture with one hardcoded entry that is backed by the symbol
    named [eso_symbol]. *)
Definition ex_arch (eso_symbol : string) : Arch :=
  mkArch "x86" false "x86_64_defconfig" (λ _, []) "sys_call_table" 0 false
    (λ sym, String.eqb (sym_name sym) "sys_ni_syscall")
    (λ a b, a) (λ name, name) (λ name, name) (λ _, false) (λ _ _, false)
    (λ _, [(1000, "esoteric", eso_symbol, None)]%string).

(** Four slots: read, not implemented, write, not implemented; the next
    table starts right after them. *)
Definition ex_vmlinux : ELF :=
  ex_image ex_symbols ex_functions [0x1010; 0x1000; 0x1020; 0x1000; 0x1010].

(** The same image with a third slot that points at no symbol. *)
Definition ex_vmlinux_unresolved : ELF :=
  ex_image ex_symbols ex_functions [0x1010; 0x1000; 0x1028; 0x1000; 0x1010].

(** Collaborators of the example run: one known prefix, no Kconfig
    dependencies, no source tree, enrichment that finds nothing and keeps
    the hardcoded signatures. *)
Definition ex_noprefix (name : string) (prefixes : list string) : string :=
  match filter (λ p, String.prefix p name = true) prefixes with
  | p :: _ => string_drop (String.length p) name
  | [] => name
  end.

Definition ex_version : KernelVersion := [6; 1].

Definition ex_extract (self_version : result KernelVersion) (arch : Arch)
    (vmlinux : ELF) : result (list Syscall) :=
  extract_syscalls (λ a _, a) (λ l, l) (λ _ _, ["__x64_sys_"%string]) ex_noprefix
    (λ _ _, []) (λ _ _, false) (λ _ _ _ _ _ _, (None, None, false))
    (λ l _ _ i, l !! i ≫= sc_signature) None None self_version arch vmlinux.

Definition ex_normalize (arch : Arch) (vmlinux : ELF)
    (symbols_by_vaddr : gmap Z Symbol) (ni_syscalls : list Symbol)
    (vaddrs : list Z) : result Normalized :=
  normalize (λ _ _, ["__x64_sys_"%string]) ex_noprefix (λ _ _, [])
    (Ok ex_version) arch vmlinux symbols_by_vaddr ni_syscalls vaddrs.

Definition ex_syscalls_of_resolved (arch : Arch) (vmlinux : ELF)
    (symbols_by_vaddr : gmap Z Symbol) (ni_syscalls : list Symbol)
    (vaddrs : list Z) : result (list Syscall) :=
  syscalls_of_resolved (λ _ _, ["__x64_sys_"%string]) ex_noprefix (λ _ _, [])
    (λ _ _, false) (λ _ _ _ _ _ _, (None, None, false))
    (λ l _ _ i, l !! i ≫= sc_signature) None None
    (Ok ex_version) arch vmlinux symbols_by_vaddr ni_syscalls vaddrs.

(** The map and the decoded sequence of the example run. *)
Definition ex_map : gmap Z Symbol :=
  <[0x1000 := ex_ni]> (<[0x1010 := ex_read]> (<[0x1020 := ex_write]> ∅)).

Definition ex_vaddrs : list Z := [0x1010; 0x1000; 0x1020; 0x1000].

(** The syscalls expected from the example run. *)
Definition ex_sc_read : Syscall :=
  new_Syscall (Some 0%nat) 0 "read" "read" ex_read (Some []) None false.
Definition ex_sc_write : Syscall :=
  new_Syscall (Some 2%nat) 2 "write" "write" ex_write (Some []) None false.
Definition ex_sc_esoteric : Syscall :=
  new_Syscall None 1000 "esoteric" "esoteric" ex_eso None None true.
Definition ex_output : list Syscall := [ex_sc_read; ex_sc_write; ex_sc_esoteric].

(** The hardcoded entry of [ex_arch "sys_missing"]. *)
Definition ex_missing_entry : Z * string * string * option Signature :=
  (1000, "esoteric", "sys_missing", None)%string.

(** ** Example kernel objects *)

(** A world that records the commands it runs; [make kernelversion] prints
    a version and every command succeeds. *)
Definition ex_World : Type := list (list string).

Definition ex_ensure_command (cmd : list string) (cwd : option Path)
    (stdin : option string) (capture verbose : bool) (w : ex_World)
  : result string * ex_World :=
  (Ok "5.10.0"%string, cmd :: w).

Definition ex_run_command (cmd : list string) (cwd : option Path)
    (stdin : option string) (verbose : bool) (w : ex_World) : Z * ex_World :=
  (0, cmd :: w).

(** An image without a [linux_banner] symbol. *)
Definition ex_kernel_no_banner : Kernel :=
  mkKernel (Some ex_vmlinux) (Some "/usr/src/linux"%string) None None
    (ex_arch "sys_esoteric") None None None None None.

(** A source tree alone. *)
Definition ex_kernel_source_only : Kernel :=
  mkKernel None (Some "/usr/src/linux"%string) None None
    (ex_arch "sys_esoteric") None None None None None.

(** The image of the example run with a version banner. *)
Definition ex_banner : Symbol := mkSymbol "linux_banner" 0x3000 32 "OBJECT".

Definition ex_vmlinux_banner : ELF :=
  mkELF (("linux_banner"%string, ex_banner) :: ex_symbols) ex_functions
    [(".text"%string, ex_text)] (elf_file ex_vmlinux) false false false
    (λ v, Z.to_nat (v - 0x2000)) (λ _ _, [])
    (λ _, "Linux version 6.1.0 (gcc 12.2.0) #1 SMP"%string) (λ _, EmptyString).

(** An object whose version and syscalls are cached. *)
Definition ex_kernel_cached : Kernel :=
  mkKernel (Some ex_vmlinux_banner) (Some "/usr/src/linux"%string) None None
    (ex_arch "sys_esoteric") None (Some [5; 9]) (Some "vmlinux"%string)
    (Some ex_output) None.

Definition ex_version_property : method ex_World KernelVersion :=
  version ex_World ex_ensure_command.

(** The other collaborators of the example objects: four processors, a
    Makefile that can be patched, configuration edits that succeed, and an
    extraction that would fail if it were run. *)
Definition ex_path_join (a : Path) (b : string) : Path := a +:+ "/" +:+ b.

Definition ex_read_file (path : Path) (w : ex_World) : result string :=
  Ok ("KBUILD_CFLAGS += -O2" +:+ newlines 1).

Definition ex_edit_config (kdir : option Path) (config_file : Path)
    (configs : Kconfig) (w : ex_World) : result unit * ex_World :=
  (Ok tt, w).

Definition ex_extract_method : method ex_World (list Syscall) :=
  λ self w, (Raise AssertionError, self, w).

Definition ex_syscalls_property : method ex_World (list Syscall) :=
  syscalls ex_World ex_extract_method.

Definition ex_clean : method ex_World unit :=
  clean ex_World (λ _, 4%nat) (λ _, false) (λ d, d) ex_ensure_command ex_run_command.

Definition ex_configure : method ex_World unit :=
  configure ex_World (λ _, 4%nat) (λ _, false) ex_path_join (λ d, d)
    ex_ensure_command ex_run_command ex_edit_config ex_edit_config
    (λ _, []) (λ _, []) (λ _, []).

Definition ex_build (try_disable_opt : bool) : method ex_World nat :=
  build ex_World nat (λ w, length w) Nat.sub (λ _, 4%nat) (λ _, false)
    ex_path_join (λ d, d) ex_ensure_command ex_run_command ex_read_file
    (λ _ _ w, w) (λ _, Some (18%nat, 19%nat)) (λ w, w) (λ w, w) try_disable_opt.

(** ** Further example objects *)

(** A build tool that prints a release candidate's version. *)
Definition ex_ensure_command_rc (cmd : list string) (cwd : option Path)
    (stdin : option string) (capture verbose : bool) (w : ex_World)
  : result string * ex_World :=
  (Ok "6.1-rc3"%string, cmd :: w).

(** An extraction that succeeds and leaves a trace in the world. *)
Definition ex_extract_ok : method ex_World (list Syscall) :=
  λ self w, (Ok ex_output, self, ["extract"%string] :: w).

(** An image alone, without a source tree. *)
Definition ex_kernel_image_only : Kernel :=
  mkKernel (Some ex_vmlinux) None None None
    (ex_arch "sys_esoteric") None None None None None.

(** An object that caches the version of an old kernel. *)
Definition ex_kernel_old : Kernel :=
  mkKernel None (Some "/usr/src/linux"%string) None None
    (ex_arch "sys_esoteric") None (Some [2; 6; 32]) (Some "make"%string) None None.

(** An image with two function descriptors: the one at [0x5000] points
    into the code section, the one at [0x5010] points outside of it; nothing
    can be read elsewhere. *)
Definition ex_image_opd : ELF :=
  mkELF [] [] [(".text"%string, ex_text)] [] false false false (λ _, 0%nat)
    (λ v n, if v =? 0x5000 then le_bytes n 0x1010
            else if v =? 0x5010 then le_bytes n 0x9abc else [])
    (λ _, EmptyString) (λ _, EmptyString).

(** An image alone whose version and syscalls are cached. *)
Definition ex_kernel_image_cached : Kernel :=
  mkKernel (Some ex_vmlinux_banner) None None None
    (ex_arch "sys_esoteric") None (Some [6; 1; 0]) (Some "vmlinux"%string)
    (Some ex_output) None.

(** The image of the example run without its table symbol. *)
Definition ex_image_no_table : ELF :=
  ex_image (ex_functions ++ [("compat_sys_call_table"%string, ex_next)])
    ex_functions [0x1010; 0x1000; 0x1020; 0x1000; 0x1010].

(** The image of the example run without a code section. *)
Definition ex_image_no_text : ELF :=
  mkELF ex_symbols ex_functions [] (elf_file ex_vmlinux) false false false
    (λ v, Z.to_nat (v - 0x2000)) (λ _ _, []) (λ _, EmptyString) (λ _, EmptyString).

(** The image of the example run with a table whose first word points
    outside the code section. *)
Definition ex_image_bad_pointer : ELF :=
  ex_image ex_symbols ex_functions [0; 0x1000; 0x1020; 0x1000; 0x1010].

(** An image with two syscalls in four slots and no placeholder function. *)
Definition ex_image_no_placeholder : ELF :=
  ex_image
    [("sys_call_table", ex_tbl); ("__x64_sys_read", ex_read);
     ("__x64_sys_write", ex_write); ("compat_sys_call_table", ex_next)]%string
    [("__x64_sys_read", ex_read); ("__x64_sys_write", ex_write)]%string
    [0x1010; 0x1020; 0x1010; 0x1020; 0x1010].

(** A world that is the content of the one Makefile: every read returns
    it, every write replaces it, the commands leave it alone and every
    build that may fail does fail. *)
Definition ex_Makefile : Type := string.

Definition ex_makefile : ex_Makefile := "KBUILD_CFLAGS += -O2" +:+ newlines 1.

Definition ex_makefile_read (path : Path) (w : ex_Makefile) : result string := Ok w.

Definition ex_makefile_write (path : Path) (s : string) (w : ex_Makefile)
  : ex_Makefile := s.

Definition ex_makefile_search (data : string) : option (nat * nat) :=
  if String.prefix "KBUILD_CFLAGS += -O2" data then Some (19%nat, 20%nat) else None.

Definition ex_makefile_ensure (cmd : list string) (cwd : option Path)
    (stdin : option string) (capture verbose : bool) (w : ex_Makefile)
  : result string * ex_Makefile :=
  (Ok EmptyString, w).

Definition ex_makefile_run (cmd : list string) (cwd : option Path)
    (stdin : option string) (verbose : bool) (w : ex_Makefile) : Z * ex_Makefile :=
  (2, w).

Definition ex_makefile_build (try_disable_opt : bool) : method ex_Makefile nat :=
  build ex_Makefile nat (λ _, 0%nat) Nat.sub (λ _, 4%nat) (λ _, false)
    ex_path_join (λ d, d) ex_makefile_ensure ex_makefile_run ex_makefile_read
    ex_makefile_write ex_makefile_search (λ w, w) (λ w, w) try_disable_opt.

(** * Properties *)

(** ** Table unpacker *)

Lemma length_words vmlinux n bs : length (words vmlinux n bs) = n.
Proof. revert bs. induction n as [|n IH]; intros bs; simpl; [done|]. by rewrite IH. Qed.

Lemma long_size_pos vmlinux : (0 < long_size vmlinux)%nat.
Proof. unfold long_size. destruct (bits32 vmlinux); lia. Qed.

Lemma table_mode_strict tbl : table_mode tbl = Strict ↔ 128 < sym_size tbl.
Proof.
  unfold table_mode. destruct (Z.ltb_spec 128 (sym_size tbl)); split; (done || lia).
Qed.

Lemma table_mode_adaptive tbl : table_mode tbl = Adaptive ↔ sym_size tbl ≤ 128.
Proof.
  unfold table_mode. destruct (Z.ltb_spec 128 (sym_size tbl)); split; (done || lia).
Qed.

(** C1 (as stated) fails: a table that declares two pointers, more than one
    pointer width, is decoded in adaptive mode and yields three entries; and
    a strict table whose size is not a multiple of the pointer width, or
    that reaches beyond the end of the file, does not yield size /
    pointer-width entries. *)
Lemma C1_counterexample :
  ¬ (table_mode ex_tbl16 = Strict ↔ Z.of_nat (long_size ex_image16) < sym_size ex_tbl16)
  ∧ unpack_syscall_table ex_image16 ex_tbl16 ex_text = Ok [0x1000; 0x1008; 0x1010]
  ∧ sym_size ex_tbl16 / Z.of_nat (long_size ex_image16) = 2
  ∧ table_mode ex_tbl132 = Strict
  ∧ unpack_syscall_table ex_image136 ex_tbl132 ex_text = Raise StructError
  ∧ (∃ vaddrs, unpack_syscall_table ex_image16 ex_tbl136 ex_text = Ok vaddrs
               ∧ length vaddrs = 4%nat).
Proof.
  split; [|repeat split; try (vm_compute; reflexivity);
           eexists; split; vm_compute; reflexivity].
  intros [_ H]. assert (Hlt : Z.of_nat (long_size ex_image16) < sym_size ex_tbl16).
  { vm_compute. reflexivity. }
  specialize (H Hlt). vm_compute in H. discriminate H.
Qed.

(** C1 (amended): the unpacker is strict exactly when the declared size
    exceeds 0x80 bytes; a declared size of one pointer or less is decoded in
    adaptive mode; in strict mode, when the declared size is a multiple of
    the pointer width and the file holds that many bytes at the table's
    offset, exactly size / pointer-width entries are decoded. *)
Theorem C1_strict_mode_threshold vmlinux tbl target_section :
  (table_mode tbl = Strict ↔ 128 < sym_size tbl)
  ∧ (sym_size tbl ≤ Z.of_nat (long_size vmlinux) → table_mode tbl = Adaptive)
  ∧ (table_mode tbl = Strict →
     (sym_size tbl) `mod` Z.of_nat (long_size vmlinux) = 0 →
     Z.of_nat (vaddr_to_file_offset vmlinux (sym_vaddr tbl)) + sym_size tbl
       ≤ Z.of_nat (length (elf_file vmlinux)) →
     ∃ vaddrs,
       unpack_syscall_table vmlinux tbl target_section = Ok vaddrs
       ∧ Z.of_nat (length vaddrs) = sym_size tbl / Z.of_nat (long_size vmlinux)).
Proof.
  split; [apply table_mode_strict|]. split.
  - intros Hle. apply table_mode_adaptive.
    unfold long_size in Hle. destruct (bits32 vmlinux); lia.
  - intros Hmode Hmod Hfile. unfold unpack_syscall_table. rewrite Hmode.
    apply table_mode_strict in Hmode.
    unfold iter_unpack_vmlinux_long_sized, file_read.
    set (off := vaddr_to_file_offset vmlinux (sym_vaddr tbl)) in *.
    assert (Hlen : length (take (Z.to_nat (sym_size tbl)) (drop off (elf_file vmlinux)))
                   = Z.to_nat (sym_size tbl)).
    { rewrite length_take, length_drop. lia. }
    rewrite Hlen.
    pose proof (long_size_pos vmlinux) as Hpos.
    assert (Hm : (Z.to_nat (sym_size tbl) mod long_size vmlinux = 0)%nat).
    { apply Nat2Z.inj. rewrite Nat2Z.inj_mod, Z2Nat.id by lia. exact Hmod. }
    rewrite Hm. simpl. eexists. split; [reflexivity|].
    rewrite length_words, Nat2Z.inj_div, Z2Nat.id by lia. reflexivity.
Qed.

Lemma C1_strict_mode_threshold_witness :
  ∃ vaddrs,
    unpack_syscall_table ex_image136 ex_tbl136 ex_text = Ok vaddrs
    ∧ Z.of_nat (length vaddrs) = sym_size ex_tbl136 / Z.of_nat (long_size ex_image136).
Proof.
  destruct (C1_strict_mode_threshold ex_image136 ex_tbl136 ex_text) as (_ & _ & H).
  apply H; vm_compute; (reflexivity || congruence).
Defined.

Lemma elem_of_boundaries vmlinux tbl c :
  c ∈ boundaries vmlinux tbl ↔ symbol_boundary vmlinux tbl c.
Proof.
  unfold boundaries, symbol_boundary.
  rewrite elem_of_difference, elem_of_list_to_set, not_elem_of_singleton.
  change (map sym_vaddr) with (fmap (M:=list) sym_vaddr).
  rewrite list_elem_of_fmap. split.
  - intros [(s & -> & Hs) Hne]. apply list_elem_of_filter in Hs as [Hty Hin]. eauto.
  - intros [Hne (s & Hin & Hty & <-)]. split; [|done].
    exists s. split; [done|]. apply list_elem_of_filter. done.
Qed.

(** The adaptive loop started at cursor [cur] on the words [gen] returns
    exactly when some word stops it; it then holds the words before the
    first such word. *)
Lemma adaptive_loop_Ok vmlinux target_section bnd gen cur acc res c' :
  adaptive_loop vmlinux target_section bnd gen cur acc = Ok (res, c')
  ↔ ∃ n v,
      gen !! n = Some v
      ∧ (in_section target_section v = false
         ∨ cur + Z.of_nat n * Z.of_nat (long_size vmlinux) ∈ bnd)
      ∧ (∀ i w, (i < n)%nat → gen !! i = Some w →
           in_section target_section w = true
           ∧ cur + Z.of_nat i * Z.of_nat (long_size vmlinux) ∉ bnd)
      ∧ res = acc ++ take n gen
      ∧ c' = cur + Z.of_nat n * Z.of_nat (long_size vmlinux).
Proof.
  revert cur acc. induction gen as [|x gen IH]; intros cur acc; simpl.
  { split; [done|]. intros (n & v & Hn & _). by rewrite lookup_nil in Hn. }
  destruct (in_section target_section x) eqn:Hx; simpl.
  - case_bool_decide as Hb.
    + split.
      * intros [= <- <-]. exists 0%nat, x. simpl. split; [done|].
        split; [right; by rewrite Z.add_0_r|]. split; [intros; lia|].
        by rewrite app_nil_r, Z.add_0_r.
      * intros (n & v & Hn & Hstop & Hbefore & -> & ->).
        destruct n as [|n].
        { simpl. by rewrite app_nil_r, Z.add_0_r. }
        destruct (Hbefore 0%nat x) as [_ Hnb]; [lia|done|].
        rewrite Z.add_0_r in Hnb. done.
    + rewrite IH. split.
      * intros (n & v & Hn & Hstop & Hbefore & -> & ->).
        exists (S n), v. simpl. split; [done|]. split.
        { destruct Hstop as [?|Hs]; [by left|right].
          replace (cur + Z.of_nat (S n) * Z.of_nat (long_size vmlinux))
            with (cur + Z.of_nat (long_size vmlinux)
                  + Z.of_nat n * Z.of_nat (long_size vmlinux)) by lia. done. }
        split.
        { intros [|i] w Hi Hw; simpl in Hw.
          - injection Hw as <-. by rewrite Z.add_0_r.
          - destruct (Hbefore i w) as [? Hnb]; [lia|done|]. split; [done|].
            replace (cur + Z.of_nat (S i) * Z.of_nat (long_size vmlinux))
              with (cur + Z.of_nat (long_size vmlinux)
                    + Z.of_nat i * Z.of_nat (long_size vmlinux)) by lia. done. }
        split; [by rewrite <- app_assoc|lia].
      * intros (n & v & Hn & Hstop & Hbefore & -> & ->).
        destruct n as [|n].
        { simpl in Hn. injection Hn as <-. destruct Hstop as [?|Hs]; [congruence|].
          rewrite Z.add_0_r in Hs. done. }
        exists n, v. simpl in Hn. split; [done|]. split.
        { destruct Hstop as [?|Hs]; [by left|right].
          replace (cur + Z.of_nat (long_size vmlinux)
                   + Z.of_nat n * Z.of_nat (long_size vmlinux))
            with (cur + Z.of_nat (S n) * Z.of_nat (long_size vmlinux)) by lia. done. }
        split.
        { intros i w Hi Hw. destruct (Hbefore (S i) w) as [? Hnb]; [lia|done|].
          split; [done|].
          replace (cur + Z.of_nat (long_size vmlinux)
                   + Z.of_nat i * Z.of_nat (long_size vmlinux))
            with (cur + Z.of_nat (S i) * Z.of_nat (long_size vmlinux)) by lia. done. }
        split; [by rewrite <- app_assoc|lia].
  - split.
    + intros [= <- <-]. exists 0%nat, x. simpl. split; [done|].
      split; [by left|]. split; [intros; lia|].
      by rewrite app_nil_r, Z.add_0_r.
    + intros (n & v & Hn & Hstop & Hbefore & -> & ->).
      destruct n as [|n].
      { simpl. by rewrite app_nil_r, Z.add_0_r. }
      destruct (Hbefore 0%nat x) as [Hin _]; [lia|done|]. congruence.
Qed.

(** The only exception of the adaptive loop is the short read. *)
Lemma adaptive_loop_Raise vmlinux target_section bnd gen cur acc e :
  adaptive_loop vmlinux target_section bnd gen cur acc = Raise e → e = StructError.
Proof.
  revert cur acc. induction gen as [|x gen IH]; intros cur acc; simpl.
  { by intros [= <-]. }
  destruct (negb _); [done|]. case_bool_decide; [done|]. apply IH.
Qed.

(** C7 (as stated) fails: a symbol that is not a function and is not the
    table sits at the table's own address, the cursor coincides with it
    before the first word, and two words are decoded all the same. *)
Lemma C7_counterexample :
  table_mode ex_tbl0 = Adaptive
  ∧ other_symbol_at ex_image_alias ex_tbl0 (cursor ex_image_alias ex_tbl0 0)
  ∧ unpack_syscall_table ex_image_alias ex_tbl0 ex_text = Ok [0x1000; 0x1008].
Proof.
  split; [reflexivity|]. split; [|vm_compute; reflexivity].
  exists ex_alias. split; [|split; [|split]]; [|discriminate|discriminate|reflexivity].
  unfold dict_values. simpl. set_solver.
Qed.

(** C7 (amended): in adaptive mode the unpacker returns exactly the words
    that precede the first stop, where a stop is a word outside the target
    section or a cursor on the address of a symbol that is not a function
    and does not lie at the table's own address; no word at or after such a
    stop is decoded, and without any stop before the end of the file the
    read fails. *)
Theorem C7_adaptive_decoding vmlinux tbl target_section :
  table_mode tbl = Adaptive →
  (∀ vaddrs,
     unpack_syscall_table vmlinux tbl target_section = Ok vaddrs
     ↔ ∃ n, stops_at vmlinux tbl target_section n
            ∧ (∀ i, (i < n)%nat → ¬ stops_at vmlinux tbl target_section i)
            ∧ vaddrs = take n (table_words vmlinux tbl))
  ∧ ((∀ n, ¬ stops_at vmlinux tbl target_section n) →
     unpack_syscall_table vmlinux tbl target_section = Raise StructError).
Proof.
  intros Hmode.
  assert (Hok : ∀ vaddrs,
     unpack_syscall_table vmlinux tbl target_section = Ok vaddrs
     ↔ ∃ n, stops_at vmlinux tbl target_section n
            ∧ (∀ i, (i < n)%nat → ¬ stops_at vmlinux tbl target_section i)
            ∧ vaddrs = take n (table_words vmlinux tbl)).
  { intros vaddrs. unfold unpack_syscall_table. rewrite Hmode.
    fold (table_words vmlinux tbl).
    destruct (adaptive_loop vmlinux target_section (boundaries vmlinux tbl)
                (table_words vmlinux tbl) (sym_vaddr tbl) []) as [[res c']|e] eqn:Hloop;
      simpl.
    - apply adaptive_loop_Ok in Hloop as (n & v & Hn & Hstop & Hbefore & -> & ->).
      simpl. split.
      + intros [= <-]. exists n. split; [|split; [|done]].
        * exists v. split; [done|]. destruct Hstop as [?|Hb]; [by left|right].
          by apply elem_of_boundaries.
        * intros i Hi (w & Hw & Hs). destruct (Hbefore i w Hi Hw) as [Hin Hnb].
          destruct Hs as [?|Hb]; [congruence|].
          apply Hnb. by apply elem_of_boundaries.
      + intros (m & Hm & Hbm & ->). f_equal.
        destruct (Nat.lt_trichotomy n m) as [Hlt|[->|Hlt]]; [|done|].
        * exfalso. apply (Hbm n Hlt). exists v. split; [done|].
          destruct Hstop as [?|Hb]; [by left|right]. by apply elem_of_boundaries.
        * exfalso. destruct Hm as (w & Hw & Hs).
          destruct (Hbefore m w Hlt Hw) as [Hin Hnb].
          destruct Hs as [?|Hb]; [congruence|].
          apply Hnb. by apply elem_of_boundaries.
    - split; [done|]. intros (n & (v & Hv & Hs) & Hbefore & ->). exfalso.
      assert (Hex : ∃ r, adaptive_loop vmlinux target_section (boundaries vmlinux tbl)
                (table_words vmlinux tbl) (sym_vaddr tbl) [] = Ok r).
      { eexists (_, _). apply adaptive_loop_Ok. exists n, v. split; [done|]. split.
        - destruct Hs as [?|Hb]; [by left|right]. by apply elem_of_boundaries.
        - split; [|done]. intros i w Hi Hw. split.
          + destruct (in_section target_section w) eqn:Hin; [done|].
            exfalso. apply (Hbefore i Hi). exists w. auto.
          + intros Hb. apply (Hbefore i Hi). exists w. split; [done|right].
            by apply elem_of_boundaries. }
      destruct Hex as [r Hr]. congruence. }
  split; [exact Hok|].
  intros Hnone.
  destruct (unpack_syscall_table vmlinux tbl target_section) as [vaddrs|e] eqn:Hrun.
  - destruct (proj1 (Hok vaddrs) eq_refl) as (n & Hn & _). by destruct (Hnone n).
  - f_equal. unfold unpack_syscall_table in Hrun. rewrite Hmode in Hrun.
    destruct (adaptive_loop _ _ _ _ _ _) as [r|e'] eqn:Hloop; simpl in Hrun; [done|].
    injection Hrun as <-. by apply adaptive_loop_Raise in Hloop.
Qed.

Lemma C7_adaptive_decoding_witness :
  ∃ n, stops_at ex_image_alias ex_tbl0 ex_text n
       ∧ (∀ i, (i < n)%nat → ¬ stops_at ex_image_alias ex_tbl0 ex_text i)
       ∧ [0x1000; 0x1008] = take n (table_words ex_image_alias ex_tbl0).
Proof.
  destruct (C7_adaptive_decoding ex_image_alias ex_tbl0 ex_text) as [H _];
    [reflexivity|].
  apply H. vm_compute. reflexivity.
Defined.

(** ** Symbol resolver *)

Section Resolver.

Variable arch : Arch.
Variable vaddrs : list Z.
Variable ni_syscalls ni_iter : list Symbol.
(** The set is iterated over its own members. *)
Hypothesis ni_iter_sub : ∀ x, x ∈ ni_iter → x ∈ ni_syscalls.

Local Abbreviation placeholder_at' := (placeholder_at ni_syscalls).
Local Abbreviation tie_break_closed' := (tie_break_closed arch ni_syscalls).

Lemma symbols_by_vaddr_init_snoc l x :
  symbols_by_vaddr_init (l ++ [x]) = <[sym_vaddr x := x]> (symbols_by_vaddr_init l).
Proof. unfold symbols_by_vaddr_init. by rewrite foldl_app. Qed.

Lemma placeholder_at_init p :
  p ∈ ni_iter → placeholder_at' (sym_vaddr p) (symbols_by_vaddr_init ni_iter).
Proof.
  revert ni_iter_sub. generalize ni_iter. intros l.
  induction l as [|x l IH] using rev_ind; intros Hsub Hp.
  { by apply elem_of_nil in Hp. }
  rewrite symbols_by_vaddr_init_snoc. unfold placeholder_at.
  destruct (decide (sym_vaddr x = sym_vaddr p)) as [Heq|Hne].
  - exists x. rewrite Heq, lookup_insert_eq. split; [done|]. split; [|done].
    apply Hsub, elem_of_app. right. apply list_elem_of_here.
  - rewrite lookup_insert_ne by done.
    apply IH; [intros y Hy; apply Hsub, elem_of_app; by left|].
    apply elem_of_app in Hp as [Hp|Hp]; [done|].
    apply list_elem_of_singleton in Hp. congruence.
Qed.

Lemma placeholder_at_step a seen m sym :
  tie_break_closed' a →
  placeholder_at' a m →
  placeholder_at' a (resolve_step arch seen ni_syscalls m sym).
Proof.
  intros Hpref (q & Hq & Hni & Hva). unfold resolve_step.
  case_bool_decide as Hseen; [|by exists q].
  destruct (decide (sym_vaddr sym = a)) as [Heq|Hne].
  - rewrite Heq, Hq. case_bool_decide as Hsame; [by exists q|].
    rewrite (bool_decide_eq_true_2 _ Hni). simpl.
    case_bool_decide as Hsym; simpl; [|by exists q].
    destruct (Hpref sym q) as [Hin Hv]; [done..|].
    exists (preferred_symbol arch sym q). by rewrite lookup_insert_eq.
  - assert (Hkeep : ∀ s, <[sym_vaddr sym := s]> m !! a = Some q).
    { intros s. by rewrite lookup_insert_ne. }
    destruct (m !! sym_vaddr sym) as [other|]; [|by exists q].
    case_bool_decide; [by exists q|].
    destruct (_ && _); by exists q.
Qed.

Lemma placeholder_at_resolve a symbols m :
  tie_break_closed' a →
  placeholder_at' a m →
  placeholder_at' a (foldl (resolve_step arch (seen_of vaddrs) ni_syscalls) m symbols).
Proof.
  intros Hpref. revert m. induction symbols as [|sym symbols IH]; intros m Hm; simpl.
  - done.
  - apply IH. by apply placeholder_at_step.
Qed.

(** C6: a placeholder that is the only placeholder at its address holds
    that address in the final map whatever the order in which the symbols
    of the image are visited and whatever the tie-break function does; when
    several placeholders share the address, one of them holds it, as long
    as the tie-break among placeholders yields one of them. *)
Theorem C6_placeholder_retained (p : Symbol) (symbols : list Symbol) :
  p ∈ ni_iter →
  ((∀ q, q ∈ ni_syscalls → sym_vaddr q = sym_vaddr p → q = p) →
   resolve_symbols arch vaddrs ni_syscalls ni_iter symbols !! sym_vaddr p = Some p)
  ∧ (tie_break_closed' (sym_vaddr p) →
     placeholder_at' (sym_vaddr p)
       (resolve_symbols arch vaddrs ni_syscalls ni_iter symbols)).
Proof.
  intros Hp.
  assert (Hgen : tie_break_closed' (sym_vaddr p) →
     placeholder_at' (sym_vaddr p)
       (resolve_symbols arch vaddrs ni_syscalls ni_iter symbols)).
  { intros Hpref. unfold resolve_symbols.
    apply placeholder_at_resolve; [done|]. by apply placeholder_at_init. }
  split; [|exact Hgen].
  intros Huniq. destruct Hgen as (q & Hq & Hni & Hva).
  - intros x y Hx Hy Hne Hvx Hvy.
    rewrite (Huniq x Hx Hvx), (Huniq y Hy Hvy) in Hne. done.
  - by rewrite Hq, (Huniq q Hni Hva).
Qed.

End Resolver.

Lemma C6_placeholder_retained_witness :
  resolve_symbols (ex_arch "sys_esoteric") [0x1010; 0x1000] [ex_ni] [ex_ni]
    [ex_ni_alias; ex_ni; ex_read] !! 0x1000 = Some ex_ni
  ∧ resolve_symbols (ex_arch "sys_esoteric") [0x1010; 0x1000] [ex_ni] [ex_ni]
      [ex_read; ex_ni; ex_ni_alias] !! 0x1000 = Some ex_ni.
Proof.
  split.
  - apply (C6_placeholder_retained (ex_arch "sys_esoteric") [0x1010; 0x1000]
             [ex_ni] [ex_ni] (λ x H, H) ex_ni [ex_ni_alias; ex_ni; ex_read]).
    + apply list_elem_of_here.
    + intros q Hq _. apply list_elem_of_singleton in Hq. exact Hq.
  - apply (C6_placeholder_retained (ex_arch "sys_esoteric") [0x1010; 0x1000]
             [ex_ni] [ex_ni] (λ x H, H) ex_ni [ex_read; ex_ni; ex_ni_alias]).
    + apply list_elem_of_here.
    + intros q Hq _. apply list_elem_of_singleton in Hq. exact Hq.
Defined.

(** ** Counters *)

Lemma sum_counts_foldl {K : Type} (items : list (K * Z)) (a : Z) :
  foldl (λ acc kn, acc + kn.2) a items = a + sum_counts items.
Proof.
  unfold sum_counts. revert a. induction items as [|x items IH]; intros a; simpl.
  - lia.
  - rewrite IH, (IH (0 + x.2)). lia.
Qed.

Lemma sum_counts_cons {K : Type} (x : K * Z) (items : list (K * Z)) :
  sum_counts (x :: items) = x.2 + sum_counts items.
Proof. unfold sum_counts at 1. simpl. rewrite sum_counts_foldl. lia. Qed.

Lemma sum_counts_incr {K : Type} `{EqDecision K} (k : K) (c : list (K * Z)) :
  sum_counts (count_incr k c) = sum_counts c + 1.
Proof.
  induction c as [|[k' n] c IH]; simpl; [done|].
  destruct (decide (k = k')); rewrite !sum_counts_cons; simpl; lia.
Qed.

Lemma sum_counts_sorted_insert {K : Type} (x : K * Z) (l : list (K * Z)) :
  sum_counts (sorted_insert x l) = x.2 + sum_counts l.
Proof.
  induction l as [|y l IH]; simpl; [by rewrite sum_counts_cons|].
  destruct (y.2 <=? x.2); rewrite !sum_counts_cons; lia.
Qed.

(** Sorting the items does not change the total. *)
Lemma sum_counts_sorted {K : Type} (items : list (K * Z)) :
  sum_counts (sorted_by_count items) = sum_counts items.
Proof.
  unfold sorted_by_count. induction items as [|x items IH]; simpl; [done|].
  by rewrite sum_counts_sorted_insert, sum_counts_cons, IH.
Qed.

(** ** The loop over the decoded slots *)

Lemma filter_defined_symbols sbv ni idx vaddrs symbols ni_count :
  (filter_defined sbv ni idx vaddrs symbols ni_count).1
  = symbols ++ defined_slots sbv ni idx vaddrs.
Proof.
  revert idx symbols ni_count.
  induction vaddrs as [|v vaddrs IH]; intros idx symbols ni_count; simpl.
  - by rewrite app_nil_r.
  - destruct (sbv !! v) as [sym|]; [|apply IH].
    case_bool_decide; rewrite IH; [done|]. by rewrite <- app_assoc.
Qed.

Lemma filter_defined_ni_count sbv ni idx vaddrs symbols ni_count :
  sum_counts (filter_defined sbv ni idx vaddrs symbols ni_count).2
  = sum_counts ni_count + Z.of_nat (count_slots (ni_slot sbv ni) vaddrs).
Proof.
  revert idx symbols ni_count.
  induction vaddrs as [|v vaddrs IH]; intros idx symbols ni_count; simpl.
  - lia.
  - unfold ni_slot at 1. destruct (sbv !! v) as [sym|]; [|rewrite IH; lia].
    case_bool_decide; rewrite IH; [rewrite sum_counts_incr|]; lia.
Qed.

(** Every slot is unresolved, a placeholder or defined. *)
Lemma slots_partition sbv ni idx vaddrs :
  (length (defined_slots sbv ni idx vaddrs)
   + count_slots (ni_slot sbv ni) vaddrs
   + count_slots (unresolved_slot sbv) vaddrs = length vaddrs)%nat.
Proof.
  revert idx. induction vaddrs as [|v vaddrs IH]; intros idx; simpl; [done|].
  unfold ni_slot at 1. unfold unresolved_slot at 1.
  specialize (IH (S idx)).
  destruct (sbv !! v) as [sym|]; [|lia].
  case_bool_decide; simpl; lia.
Qed.

Lemma count_slots_zero f vaddrs :
  (∀ v, v ∈ vaddrs → f v = false) → count_slots f vaddrs = O.
Proof.
  induction vaddrs as [|v vaddrs IH]; intros H; simpl; [done|].
  rewrite (H v), IH; [done| |apply list_elem_of_here].
  intros w Hw. apply H. by apply list_elem_of_further.
Qed.

Lemma count_slots_pos f vaddrs v :
  v ∈ vaddrs → f v = true → (0 < count_slots f vaddrs)%nat.
Proof.
  induction vaddrs as [|w vaddrs IH]; intros Hin Hv.
  - by apply elem_of_nil in Hin.
  - simpl. apply elem_of_cons in Hin as [->|Hin]; [rewrite Hv; lia|].
    specialize (IH Hin Hv). lia.
Qed.

(** A defined slot keeps the index it has in the decoded sequence. *)
Lemma defined_slots_lookup sbv ni idx vaddrs i sym :
  (i, sym) ∈ defined_slots sbv ni idx vaddrs →
  (idx ≤ i)%nat
  ∧ ∃ v, vaddrs !! (i - idx)%nat = Some v ∧ sbv !! v = Some sym ∧ sym ∉ ni.
Proof.
  revert idx. induction vaddrs as [|v vaddrs IH]; intros idx; simpl.
  { intros H. by apply elem_of_nil in H. }
  assert (Hrest : (i, sym) ∈ defined_slots sbv ni (S idx) vaddrs →
     (idx ≤ i)%nat
     ∧ ∃ v0, (v :: vaddrs) !! (i - idx)%nat = Some v0 ∧ sbv !! v0 = Some sym ∧ sym ∉ ni).
  { intros H. destruct (IH _ H) as (Hle & v0 & Hv0 & Hs).
    split; [lia|]. exists v0. split; [|done].
    replace (i - idx)%nat with (S (i - S idx)) by lia. done. }
  destruct (sbv !! v) as [s|] eqn:Hv; [|done].
  case_bool_decide as Hni; [done|].
  intros H. apply elem_of_cons in H as [[= -> ->]|H]; [|by apply Hrest].
  split; [lia|]. exists v. rewrite Nat.sub_diag. done.
Qed.

(** The defined slots are listed by increasing index. *)
Lemma defined_slots_sorted sbv ni idx vaddrs :
  StronglySorted (λ a b, (a.1 < b.1)%nat) (defined_slots sbv ni idx vaddrs).
Proof.
  revert idx. induction vaddrs as [|v vaddrs IH]; intros idx; simpl.
  { constructor. }
  destruct (sbv !! v) as [s|]; [|apply IH].
  case_bool_decide; [apply IH|].
  constructor; [apply IH|].
  apply Forall_forall. intros [i sym] Hin.
  apply defined_slots_lookup in Hin as [Hle _]. simpl. lia.
Qed.

(** ** Name/number normaliser *)

Lemma length_filter_bool {A : Type} (f : A → bool) (l : list A) :
  (length (filter (λ x, f x = false) l) + length (filter (λ x, f x = true) l)
   = length l)%nat.
Proof.
  induction l as [|x l IH]; simpl; [done|].
  rewrite !filter_cons. destruct (f x) eqn:Hx.
  - rewrite decide_False, decide_True by done. simpl. lia.
  - rewrite decide_True, decide_False by done. simpl. lia.
Qed.

Lemma add_esoteric_list vmlinux esoteric syscalls :
  add_esoteric vmlinux esoteric syscalls
  = (let* extra := esoteric_list vmlinux esoteric in Ok (syscalls ++ extra)).
Proof.
  revert syscalls. induction esoteric as [|[[[num name] sname] sig] esoteric IH];
    intros syscalls; simpl.
  - by rewrite app_nil_r.
  - destruct (dict_index sname (elf_symbols vmlinux)) as [sym|e]; simpl; [|done].
    rewrite IH. destruct (esoteric_list vmlinux esoteric) as [rest|e]; simpl; [|done].
    by rewrite <- app_assoc.
Qed.

(** With every backing symbol present, all hardcoded entries are built. *)
Lemma esoteric_list_Ok vmlinux esoteric :
  (∀ e, e ∈ esoteric → is_Some (dict_get e.1.2 (elf_symbols vmlinux))) →
  ∃ extra, esoteric_list vmlinux esoteric = Ok extra.
Proof.
  induction esoteric as [|e esoteric IH]; intros H; simpl; [by eexists|].
  destruct (H e) as [sym Hsym]; [apply list_elem_of_here|].
  unfold dict_index. rewrite Hsym. simpl.
  destruct IH as [rest ->]; [|by eexists].
  intros e' He'. apply H. by apply list_elem_of_further.
Qed.

(** A missing backing symbol makes the loop raise [KeyError]. *)
Lemma esoteric_list_missing vmlinux esoteric e :
  e ∈ esoteric → dict_get e.1.2 (elf_symbols vmlinux) = None →
  esoteric_list vmlinux esoteric = Raise KeyError.
Proof.
  induction esoteric as [|e' esoteric IH]; intros Hin Hnone.
  - by apply elem_of_nil in Hin.
  - simpl. unfold dict_index at 1.
    destruct (dict_get e'.1.2 (elf_symbols vmlinux)) as [sym|] eqn:Hsym; simpl; [|done].
    apply elem_of_cons in Hin as [->|Hin]; [congruence|].
    by rewrite (IH Hin Hnone).
Qed.

(** The built entries follow the hardcoded entries one by one. *)
Lemma esoteric_list_Forall2 vmlinux esoteric extra :
  esoteric_list vmlinux esoteric = Ok extra →
  Forall2 (λ e sc, ∃ sym, dict_get e.1.2 (elf_symbols vmlinux) = Some sym
                          ∧ sc = esoteric_syscall e sym) esoteric extra.
Proof.
  revert extra. induction esoteric as [|e esoteric IH]; intros extra; simpl.
  - intros [= <-]. constructor.
  - unfold dict_index.
    destruct (dict_get e.1.2 (elf_symbols vmlinux)) as [sym|] eqn:Hsym; simpl; [|done].
    destruct (esoteric_list vmlinux esoteric) as [rest|] eqn:Hrest; simpl; [|done].
    intros [= <-]. constructor; [by exists sym|]. by apply IH.
Qed.

(** ** Enrichment and implementation filter *)

Lemma imap_Forall2 {A B : Type} (R : A → B → Prop) (f : nat → A → B) (l : list A) :
  (∀ i x, R x (f i x)) → Forall2 R l (imap f l).
Proof.
  revert f. induction l as [|x l IH]; intros f Hf; [constructor|].
  rewrite imap_cons. constructor; [apply Hf|]. apply IH. intros i y. apply Hf.
Qed.

Lemma Forall2_compose {A B C : Type} (P : A → B → Prop) (Q : B → C → Prop)
    (R : A → C → Prop) l k m :
  (∀ x y z, P x y → Q y z → R x z) →
  Forall2 P l k → Forall2 Q k m → Forall2 R l m.
Proof.
  intros HR Hlk. revert m. induction Hlk as [|x y l k Hxy Hlk IH]; intros m Hkm.
  - inversion Hkm. constructor.
  - inversion Hkm as [|? z ? m' Hyz Hkm']; subst. constructor; eauto.
Qed.

Lemma same_identity_trans a b c :
  same_identity a b → same_identity b c → same_identity a c.
Proof. unfold same_identity. intros (?&?&?&?&?&?&?) (?&?&?&?&?&?&?). repeat split; congruence. Qed.

Lemma table_entry_identity arch sbv vaddrs a b :
  same_identity a b → table_entry arch sbv vaddrs a → table_entry arch sbv vaddrs b.
Proof.
  unfold same_identity, table_entry.
  intros (Hi & Hn & _ & _ & Hs & _ & He) (Hes & i & v & Hidx & Hv & Hsym & Hnum).
  split; [congruence|]. exists i, v. repeat split; congruence.
Qed.

Lemma hardcoded_entry_identity arch version a b :
  same_identity a b → hardcoded_entry arch version a → hardcoded_entry arch version b.
Proof.
  unfold same_identity, hardcoded_entry.
  intros (Hi & Hn & Hna & _ & _ & _ & He) (Hes & Hidx & e & Hin & Hnum & Hname).
  split; [congruence|]. split; [congruence|]. exists e. repeat split; congruence.
Qed.

Lemma filter_all {A : Type} (P : A → Prop) `{∀ x, Decision (P x)} (l : list A) :
  Forall P l → filter P l = l.
Proof.
  induction 1 as [|x l Hx Hl IH]; [done|].
  rewrite filter_cons, decide_True by done. by rewrite IH.
Qed.

Lemma StronglySorted_filter {A : Type} (R : relation A) (P : A → Prop)
    `{∀ x, Decision (P x)} (l : list A) :
  StronglySorted R l → StronglySorted R (filter P l).
Proof.
  induction 1 as [|x l Hl IH Hx]; [constructor|].
  rewrite filter_cons. destruct (decide (P x)); [|done].
  constructor; [done|]. apply Forall_forall. intros y Hy.
  apply list_elem_of_filter in Hy as [_ Hy].
  by apply (proj1 (Forall_forall _ _) Hx).
Qed.

Lemma StronglySorted_Forall2 {A B : Type} (R : relation A) (R' : relation B)
    (S : A → B → Prop) (l : list A) (k : list B) :
  (∀ a b a' b', S a a' → S b b' → R a b → R' a' b') →
  Forall2 S l k → StronglySorted R l → StronglySorted R' k.
Proof.
  intros HS Hlk. induction Hlk as [|x y l k Hxy Hlk IH]; intros Hsorted.
  - constructor.
  - apply StronglySorted_cons in Hsorted as [Hx Hl]. constructor; [by apply IH|].
    clear IH Hl. induction Hlk as [|x' y' l k Hxy' Hlk IH]; [constructor|].
    apply Forall_cons in Hx as [Hxx' Hx]. constructor; eauto.
Qed.

Section ExtractionFacts.

Variable common_syscall_symbol_prefixes : list string → Z → list string.
Variable noprefix : string → list string → string.
Variable kconfig_syscall_deps : string → KernelVersion → KconfigDeps.
(** The runs in which reading [self.version] yields [version]. *)
Variable version : KernelVersion.
Variable arch : Arch.
Variable vmlinux : ELF.
Variable symbols_by_vaddr : gmap Z Symbol.
Variable ni_syscalls : list Symbol.
Variable vaddrs : list Z.

Local Abbreviation table_syscall' :=
  (table_syscall noprefix kconfig_syscall_deps arch).
Local Abbreviation build_syscalls' :=
  (build_syscalls noprefix kconfig_syscall_deps (Ok version) arch).
Local Abbreviation normalize' :=
  (normalize common_syscall_symbol_prefixes noprefix kconfig_syscall_deps
     (Ok version) arch vmlinux symbols_by_vaddr ni_syscalls vaddrs).

Local Abbreviation prefixes_of_run' :=
  (prefixes_of_run common_syscall_symbol_prefixes symbols_by_vaddr ni_syscalls vaddrs).
Local Abbreviation built_of_run' :=
  (built_of_run common_syscall_symbol_prefixes noprefix kconfig_syscall_deps version
     arch symbols_by_vaddr ni_syscalls vaddrs).

Lemma build_syscalls_Ok prefixes symbols syscalls n_skipped :
  build_syscalls' prefixes symbols syscalls n_skipped
  = Ok (syscalls
          ++ filter (λ sc, skip_syscall arch sc = false)
               (map (table_syscall' prefixes version) symbols),
        n_skipped
          + Z.of_nat (length (filter (λ sc, skip_syscall arch sc = true)
                                (map (table_syscall' prefixes version) symbols)))).
Proof.
  revert syscalls n_skipped.
  induction symbols as [|slot symbols IH]; intros syscalls n_skipped; simpl.
  - rewrite app_nil_r. f_equal. f_equal. lia.
  - rewrite !filter_cons.
    destruct (skip_syscall arch (table_syscall' prefixes version slot)) eqn:Hskip.
    + rewrite IH, decide_False, decide_True by done. simpl. f_equal. f_equal. lia.
    + rewrite IH, decide_True, decide_False by done. simpl.
      by rewrite <- app_assoc.
Qed.

(** The normaliser, once the version is known: it raises on a missing
    hardcoded symbol, fails its assertion when a slot is unresolved, and
    returns the kept table syscalls followed by the hardcoded ones
    otherwise. *)
Lemma normalize_unfold :
  normalize'
  = (let* extra := esoteric_list vmlinux (esoteric_syscalls arch version) in
     if Nat.eqb (count_slots (unresolved_slot symbols_by_vaddr) vaddrs) 0
     then Ok (mkNormalized
                (filter (λ sc, skip_syscall arch sc = false) built_of_run' ++ extra)
                (Z.of_nat (count_slots (ni_slot symbols_by_vaddr ni_syscalls) vaddrs))
                (Z.of_nat (length (filter (λ sc, skip_syscall arch sc = true)
                                     built_of_run')))
                (Z.of_nat (length (esoteric_syscalls arch version))))
     else Raise AssertionError).
Proof.
  unfold normalize.
  pose proof (filter_defined_symbols symbols_by_vaddr ni_syscalls 0 vaddrs [] [])
    as Hsym.
  pose proof (filter_defined_ni_count symbols_by_vaddr ni_syscalls 0 vaddrs [] [])
    as Hni.
  destruct (filter_defined symbols_by_vaddr ni_syscalls 0 vaddrs [] [])
    as [symbols ni_count].
  simpl in Hsym, Hni. subst symbols.
  rewrite build_syscalls_Ok. simpl.
  fold prefixes_of_run'. fold built_of_run'.
  rewrite add_esoteric_list.
  destruct (esoteric_list vmlinux (esoteric_syscalls arch version))
    as [extra|e] eqn:Hextra; simpl; [|done].
  apply esoteric_list_Forall2, Forall2_length in Hextra.
  rewrite sum_counts_sorted, Hni. unfold sum_counts at 1. simpl.
  pose proof (slots_partition symbols_by_vaddr ni_syscalls 0 vaddrs) as Hpart.
  pose proof (length_filter_bool (skip_syscall arch) built_of_run') as Hskip.
  unfold built_of_run in Hskip at 3. rewrite length_map in Hskip.
  rewrite length_app.
  destruct (Nat.eqb_spec (count_slots (unresolved_slot symbols_by_vaddr) vaddrs) 0)
    as [Hz|Hnz].
  - rewrite (proj2 (Z.eqb_eq _ _)) by lia. done.
  - rewrite (proj2 (Z.eqb_neq _ _)) by lia. done.
Qed.

Variable path_match : Path → string → bool.
Variable locations_of :
  list Syscall → ELF → option Path → option Path → Arch → nat
  → option Path * option Z * bool.
Variable signatures_of : list Syscall → ELF → bool → nat → option Signature.
Variable self_kdir self_rdir : option Path.

Local Abbreviation syscalls_of_resolved' :=
  (syscalls_of_resolved common_syscall_symbol_prefixes noprefix kconfig_syscall_deps
     path_match locations_of signatures_of self_kdir self_rdir (Ok version)
     arch vmlinux symbols_by_vaddr ni_syscalls vaddrs).

Local Abbreviation enriched' :=
  (enriched locations_of signatures_of self_kdir self_rdir arch vmlinux).

Lemma enriched_identity syscalls :
  Forall2 same_identity syscalls (enriched' syscalls).
Proof.
  unfold enriched, extract_syscall_signatures, extract_syscall_locations.
  eapply Forall2_compose; [apply same_identity_trans| |];
    apply imap_Forall2; intros i sc; unfold same_identity; simpl; done.
Qed.

Lemma implementation_filter_acc acc syscalls :
  foldl (λ implemented sc,
           if is_implemented path_match arch vmlinux sc then implemented ++ [sc]
           else implemented) acc syscalls
  = acc ++ filter (λ sc, is_implemented path_match arch vmlinux sc = true) syscalls.
Proof.
  revert acc. induction syscalls as [|sc syscalls IH]; intros acc; simpl.
  - by rewrite app_nil_r.
  - rewrite IH, filter_cons.
    destruct (is_implemented path_match arch vmlinux sc) eqn:Hsc.
    + rewrite decide_True by done. by rewrite <- app_assoc.
    + rewrite decide_False by done. done.
Qed.

(** The filter keeps the syscalls that pass the test, in their order. *)
Lemma implementation_filter_filter syscalls :
  implementation_filter path_match arch vmlinux syscalls
  = filter (λ sc, is_implemented path_match arch vmlinux sc = true) syscalls.
Proof. unfold implementation_filter. by rewrite implementation_filter_acc. Qed.

(** The drop rules are guarded by [not sc.esoteric]. *)
Lemma is_implemented_esoteric sc :
  sc_esoteric sc = true → is_implemented path_match arch vmlinux sc = true.
Proof. unfold is_implemented. by intros ->. Qed.

Lemma table_syscall_fields prefixes slot :
  sc_index (table_syscall' prefixes version slot) = Some slot.1
  ∧ sc_number (table_syscall' prefixes version slot)
    = syscall_num_base arch + Z.of_nat slot.1
  ∧ sc_symbol (table_syscall' prefixes version slot) = slot.2
  ∧ sc_esoteric (table_syscall' prefixes version slot) = false.
Proof. destruct slot as [idx sym]. done. Qed.

(** Every syscall kept from the table is a table entry. *)
Lemma kept_table_entries sc :
  sc ∈ filter (λ sc, skip_syscall arch sc = false)
         built_of_run' →
  table_entry arch symbols_by_vaddr vaddrs sc.
Proof.
  intros Hin. apply list_elem_of_filter in Hin as [_ Hin].
  unfold built_of_run in Hin.
  change (map ?f ?l) with (f <$> l) in Hin.
  apply list_elem_of_fmap in Hin as ([i sym] & -> & Hslot).
  apply defined_slots_lookup in Hslot as (_ & v & Hv & Hsym & _).
  rewrite Nat.sub_0_r in Hv.
  destruct (table_syscall_fields
              prefixes_of_run' (i, sym)) as (Hidx & Hnum & Hs & He).
  split; [done|]. exists i, v. rewrite Hs. done.
Qed.

(** The syscalls kept from the table are in slot order. *)
Lemma kept_slot_order :
  StronglySorted slot_before
    (filter (λ sc, skip_syscall arch sc = false)
       built_of_run').
Proof.
  apply StronglySorted_filter. unfold built_of_run.
  eapply (StronglySorted_Forall2 _ _ (λ slot sc, sc_index sc = Some slot.1));
    [| |apply (defined_slots_sorted symbols_by_vaddr ni_syscalls 0 vaddrs)].
  - intros a b a' b' Ha Hb Hab. unfold slot_before. by rewrite Ha, Hb.
  - generalize (defined_slots symbols_by_vaddr ni_syscalls 0 vaddrs). intros l.
    induction l as [|slot l IH]; simpl; constructor; [|done].
    apply table_syscall_fields.
Qed.

Lemma hardcoded_entries extra :
  esoteric_list vmlinux (esoteric_syscalls arch version) = Ok extra →
  Forall2 (λ e sc, sc_esoteric sc = true ∧ sc_index sc = None
                   ∧ sc_number sc = e.1.1.1 ∧ sc_name sc = e.1.1.2)
    (esoteric_syscalls arch version) extra.
Proof.
  intros H. apply esoteric_list_Forall2 in H.
  eapply Forall2_impl; [exact H|]. intros e sc (sym & _ & ->). done.
Qed.

(** C2: when every decoded address resolves to a symbol, the syscalls that
    the normaliser retains are as many as the decoded slots, less the slots
    of placeholders, less the slots the architecture skips, plus the
    hardcoded entries; and the normaliser returns them as soon as the
    symbols of the hardcoded entries exist. *)
Theorem C2_retained_count :
  (∀ v, v ∈ vaddrs → is_Some (symbols_by_vaddr !! v)) →
  (∀ norm, normalize' = Ok norm →
     Z.of_nat (length (nz_syscalls norm))
     = Z.of_nat (length vaddrs) - nz_ni_total norm - nz_n_skipped norm
       + nz_n_esoteric norm
     ∧ nz_ni_total norm
       = Z.of_nat (count_slots (ni_slot symbols_by_vaddr ni_syscalls) vaddrs)
     ∧ nz_n_skipped norm
       = Z.of_nat (length (filter (λ sc, skip_syscall arch sc = true)
            built_of_run'))
     ∧ nz_n_esoteric norm = Z.of_nat (length (esoteric_syscalls arch version)))
  ∧ ((∀ e, e ∈ esoteric_syscalls arch version →
          is_Some (dict_get e.1.2 (elf_symbols vmlinux))) →
     ∃ norm, normalize' = Ok norm).
Proof.
  intros Hres.
  assert (Hzero : count_slots (unresolved_slot symbols_by_vaddr) vaddrs = O).
  { apply count_slots_zero. intros v Hv. unfold unresolved_slot.
    by destruct (Hres v Hv) as [sym ->]. }
  rewrite normalize_unfold, Hzero. simpl. split.
  - intros norm.
    destruct (esoteric_list vmlinux (esoteric_syscalls arch version))
      as [extra|e] eqn:Hextra; simpl; [|done].
    intros [= <-]. simpl. split; [|done].
    apply esoteric_list_Forall2, Forall2_length in Hextra.
    pose proof (slots_partition symbols_by_vaddr ni_syscalls 0 vaddrs) as Hpart.
    pose proof (length_filter_bool (skip_syscall arch)
      built_of_run') as Hskip.
    unfold built_of_run in Hskip at 3. rewrite length_map in Hskip.
    rewrite length_app. lia.
  - intros Heso. destruct (esoteric_list_Ok _ _ Heso) as [extra ->]. simpl. by eexists.
Qed.

(** An unresolved slot makes the assertion of the normaliser fail: the run
    does not return. *)
Lemma unresolved_slot_raises v :
  v ∈ vaddrs → symbols_by_vaddr !! v = None →
  ∃ e, normalize' = Raise e ∧ syscalls_of_resolved' = Raise e.
Proof.
  intros Hin Hv.
  assert (Hpos : (0 < count_slots (unresolved_slot symbols_by_vaddr) vaddrs)%nat).
  { apply (count_slots_pos _ _ v Hin). unfold unresolved_slot. by rewrite Hv. }
  unfold syscalls_of_resolved. rewrite normalize_unfold.
  destruct (esoteric_list vmlinux (esoteric_syscalls arch version)) as [extra|e];
    simpl; [|by exists e].
  destruct (Nat.eqb_spec (count_slots (unresolved_slot symbols_by_vaddr) vaddrs) 0);
    [lia|]. by exists AssertionError.
Qed.

(** A hardcoded entry whose backing symbol is missing makes the loop over
    the hardcoded entries raise [KeyError]. *)
Lemma missing_esoteric_symbol_raises e :
  e ∈ esoteric_syscalls arch version →
  dict_get e.1.2 (elf_symbols vmlinux) = None →
  normalize' = Raise KeyError ∧ syscalls_of_resolved' = Raise KeyError.
Proof.
  intros Hin Hnone. unfold syscalls_of_resolved. rewrite normalize_unfold.
  by rewrite (esoteric_list_missing _ _ e Hin Hnone).
Qed.

(** The output of the second half of the extraction: the kept table
    syscalls that pass the filter, then the hardcoded entries, all after
    enrichment. *)
Lemma syscalls_of_resolved_Ok l :
  syscalls_of_resolved' = Ok l →
  ∃ table_part esoteric_part,
    l = table_part ++ esoteric_part
    ∧ Forall (table_entry arch symbols_by_vaddr vaddrs) table_part
    ∧ StronglySorted slot_before table_part
    ∧ Forall2 (λ e sc, sc_esoteric sc = true ∧ sc_index sc = None
                       ∧ sc_number sc = e.1.1.1 ∧ sc_name sc = e.1.1.2)
        (esoteric_syscalls arch version) esoteric_part.
Proof.
  unfold syscalls_of_resolved. rewrite normalize_unfold.
  destruct (esoteric_list vmlinux (esoteric_syscalls arch version))
    as [extra|e] eqn:Hextra; simpl; [|done].
  destruct (Nat.eqb _ 0); simpl; [|done].
  intros [= <-]. fold (enriched'
    (filter (λ sc, skip_syscall arch sc = false)
       built_of_run' ++ extra)).
  set (kept := filter _ built_of_run').
  pose proof (enriched_identity (kept ++ extra)) as Hid.
  apply Forall2_app_inv_l in Hid as (K & E & HK & HE & ->).
  rewrite implementation_filter_filter, filter_app.
  apply hardcoded_entries in Hextra.
  assert (HE' : Forall2 (λ e sc, sc_esoteric sc = true ∧ sc_index sc = None
                       ∧ sc_number sc = e.1.1.1 ∧ sc_name sc = e.1.1.2)
        (esoteric_syscalls arch version) E).
  { eapply Forall2_compose; [|exact Hextra|exact HE].
    intros x y z (H1 & H2 & H3 & H4) (Hi & Hn & Hna & _ & _ & _ & He).
    repeat split; congruence. }
  assert (Hall : Forall (λ sc, is_implemented path_match arch vmlinux sc = true) E).
  { eapply Forall2_Forall_r; [exact HE'|]. apply Forall_forall.
    intros x _ y (Hy & _). by apply is_implemented_esoteric. }
  rewrite (filter_all _ E Hall).
  eexists _, E. split; [done|]. split; [|split; [|done]].
  - apply Forall_forall. intros sc Hsc. apply list_elem_of_filter in Hsc as [_ Hsc].
    apply list_elem_of_lookup in Hsc as [i Hi].
    destruct (Forall2_lookup_r _ _ _ _ _ HK Hi) as (sc0 & Hsc0 & Hsame).
    eapply table_entry_identity; [exact Hsame|]. apply kept_table_entries.
    apply list_elem_of_lookup. by exists i.
  - apply StronglySorted_filter.
    eapply (StronglySorted_Forall2 _ _ same_identity); [|exact HK|apply kept_slot_order].
    intros a b a' b' (Ha & _) (Hb & _). unfold slot_before. by rewrite Ha, Hb.
Qed.



End ExtractionFacts.

(** C5 (amended): a hardcoded entry whose backing symbol is missing from the
    symbol table is fatal for the whole run: the second half of the
    extraction raises [KeyError] whatever the table holds, so the run
    returns no syscall at all (it raises, or it has left earlier with an
    empty list). *)
Theorem C5_missing_esoteric_symbol_aborts
    (adjust_abi : Arch → ELF → Arch) (set_order : list Symbol → list Symbol)
    (common_syscall_symbol_prefixes : list string → Z → list string)
    (noprefix : string → list string → string)
    (kconfig_syscall_deps : string → KernelVersion → KconfigDeps)
    (path_match : Path → string → bool)
    (locations_of : list Syscall → ELF → option Path → option Path → Arch → nat
                    → option Path * option Z * bool)
    (signatures_of : list Syscall → ELF → bool → nat → option Signature)
    (self_kdir self_rdir : option Path) (version : KernelVersion)
    (arch0 : Arch) (vmlinux : ELF) (e : Z * string * string * option Signature) :
  e ∈ esoteric_syscalls (adjust_abi arch0 vmlinux) version →
  dict_get e.1.2 (elf_symbols vmlinux) = None →
  (∀ symbols_by_vaddr ni_syscalls vaddrs,
     syscalls_of_resolved common_syscall_symbol_prefixes noprefix
       kconfig_syscall_deps path_match locations_of signatures_of
       self_kdir self_rdir (Ok version) (adjust_abi arch0 vmlinux) vmlinux
       symbols_by_vaddr ni_syscalls vaddrs = Raise KeyError)
  ∧ (∀ l,
       extract_syscalls adjust_abi set_order common_syscall_symbol_prefixes
         noprefix kconfig_syscall_deps path_match locations_of signatures_of
         self_kdir self_rdir (Ok version) arch0 vmlinux = Ok l →
       l = []).
Proof.
  intros Hin Hnone.
  assert (Hhalf : ∀ symbols_by_vaddr ni_syscalls vaddrs,
     syscalls_of_resolved common_syscall_symbol_prefixes noprefix
       kconfig_syscall_deps path_match locations_of signatures_of
       self_kdir self_rdir (Ok version) (adjust_abi arch0 vmlinux) vmlinux
       symbols_by_vaddr ni_syscalls vaddrs = Raise KeyError).
  { intros sbv ni vaddrs.
    by apply (missing_esoteric_symbol_raises _ _ _ _ _ _ _ _ _ _ _ _ _ _ e). }
  split; [exact Hhalf|].
  intros l. unfold extract_syscalls.
  destruct (negb _); [by intros [= <-]|].
  destruct (dict_get (syscall_table_name _) _) as [tbl|]; [|by intros [= <-]].
  destruct (dict_index ".text" (elf_sections vmlinux)) as [text|]; simpl; [|done].
  match goal with
  | |- bind ?d _ = _ → _ => destruct d as [[[|v vaddrs]|]|]; simpl
  end; try done; try (by intros [= <-]).
  destruct (find_ni_syscalls _ _) as [|ni0 ni]; [by intros [= <-]|].
  case_bool_decide; [by intros [= <-]|].
  destruct (most_frequent _ _); simpl; [|done].
  by rewrite Hhalf.
Qed.

(** ** The example run *)

Lemma ex_extract_output :
  ex_extract (Ok ex_version) (ex_arch "sys_esoteric") ex_vmlinux = Ok ex_output.
Proof. vm_compute. reflexivity. Qed.

Lemma ex_syscalls_of_resolved_output :
  ex_syscalls_of_resolved (ex_arch "sys_esoteric") ex_vmlinux ex_map [ex_ni] ex_vaddrs
  = Ok ex_output.
Proof. vm_compute. reflexivity. Qed.

Lemma ex_vaddrs_resolved v : v ∈ ex_vaddrs → is_Some (ex_map !! v).
Proof.
  unfold ex_vaddrs. intros Hv.
  repeat (apply elem_of_cons in Hv as [->|Hv]; [vm_compute; eauto|]).
  by apply elem_of_nil in Hv.
Qed.

Lemma C2_retained_count_witness :
  ∃ norm,
    ex_normalize (ex_arch "sys_esoteric") ex_vmlinux ex_map [ex_ni] ex_vaddrs = Ok norm
    ∧ Z.of_nat (length (nz_syscalls norm))
      = Z.of_nat (length ex_vaddrs) - nz_ni_total norm - nz_n_skipped norm
        + nz_n_esoteric norm
    ∧ nz_ni_total norm = 2.
Proof.
  destruct (C2_retained_count (λ _ _, ["__x64_sys_"%string]) ex_noprefix (λ _ _, [])
              ex_version (ex_arch "sys_esoteric") ex_vmlinux ex_map [ex_ni] ex_vaddrs
              ex_vaddrs_resolved) as [Hcount Hruns].
  destruct Hruns as [norm Hnorm].
  - intros e He. apply list_elem_of_singleton in He as ->. vm_compute. eauto.
  - exists norm. split; [exact Hnorm|].
    destruct (Hcount norm Hnorm) as (H1 & H2 & _). split; [exact H1|].
    rewrite H2. vm_compute. reflexivity.
Defined.

(** C3 (code defect): with one slot whose address has no symbol, the slot
    is skipped by the loop over the slots, but the assertion that closes the
    normalisation fails and the whole run ends with [AssertionError]; the
    same image with that slot resolved yields its syscalls. *)
Theorem C3_unresolved_slot_aborts_run :
  ex_extract (Ok ex_version) (ex_arch "sys_esoteric") ex_vmlinux_unresolved
  = Raise AssertionError
  ∧ ex_extract (Ok ex_version) (ex_arch "sys_esoteric") ex_vmlinux = Ok ex_output.
Proof. split; vm_compute; reflexivity. Qed.

(** C5 (as stated) fails: the hardcoded entry names a symbol that the image
    does not have, and the run returns no list at all. *)
Lemma C5_counterexample :
  dict_get "sys_missing" (elf_symbols ex_vmlinux) = None
  ∧ ex_extract (Ok ex_version) (ex_arch "sys_missing") ex_vmlinux = Raise KeyError
  ∧ ¬ ∃ l, ex_extract (Ok ex_version) (ex_arch "sys_missing") ex_vmlinux = Ok l.
Proof.
  split; [vm_compute; reflexivity|].
  assert (H : ex_extract (Ok ex_version) (ex_arch "sys_missing") ex_vmlinux
              = Raise KeyError) by (vm_compute; reflexivity).
  split; [exact H|]. intros [l Hl]. rewrite H in Hl. discriminate Hl.
Qed.

Lemma C5_missing_esoteric_symbol_aborts_witness :
  ex_syscalls_of_resolved (ex_arch "sys_missing") ex_vmlinux ex_map [ex_ni] ex_vaddrs
  = Raise KeyError.
Proof.
  apply (C5_missing_esoteric_symbol_aborts (λ a _, a) (λ l, l)
           (λ _ _, ["__x64_sys_"%string]) ex_noprefix (λ _ _, []) (λ _ _, false)
           (λ _ _ _ _ _ _, (None, None, false)) (λ l _ _ i, l !! i ≫= sc_signature)
           None None ex_version (ex_arch "sys_missing") ex_vmlinux ex_missing_entry).
  - apply list_elem_of_here.
  - vm_compute. reflexivity.
Defined.



(** ** Version detector and kernel builder *)

Section KernelObjectFacts.

Variable World : Type.
Variable Time : Type.
Variable monotonic : World → Time.
Variable time_sub : Time → Time → Time.
Variable sched_getaffinity : World → nat.
Variable high_verbosity : World → bool.
Variable path_join : Path → string → Path.
Variable path_absolute : Path → Path.
Variable ensure_command :
  list string → option Path → option string → bool → bool → World
  → result string * World.
Variable run_command :
  list string → option Path → option string → bool → World → Z * World.
Variable read_file : Path → World → result string.
Variable write_file : Path → string → World → World.
Variable search_kbuild_cflags : string → option (nat * nat).
Variable atexit_register : World → World.
Variable atexit_unregister : World → World.
Variable edit_config :
  option Path → Path → Kconfig → World → result unit * World.
Variable edit_config_check_deps :
  option Path → Path → Kconfig → World → result unit * World.
Variable kconfig_debugging : KernelVersion → Kconfig.
Variable kconfig_compatibility : KernelVersion → Kconfig.
Variable kconfig_more_syscalls : KernelVersion → Kconfig.
Variable Kernel__extract_syscalls : method World (list Syscall).

Local Abbreviation version' := (version World ensure_command).
Local Abbreviation syscalls' := (syscalls World Kernel__extract_syscalls).
Local Abbreviation make' :=
  (make World sched_getaffinity high_verbosity path_absolute ensure_command
     run_command).
Local Abbreviation sync_config' :=
  (sync_config World sched_getaffinity high_verbosity path_absolute ensure_command
     run_command).
Local Abbreviation clean' :=
  (clean World sched_getaffinity high_verbosity path_absolute ensure_command
     run_command).
Local Abbreviation configure' :=
  (configure World sched_getaffinity high_verbosity path_join path_absolute
     ensure_command run_command edit_config edit_config_check_deps
     kconfig_debugging kconfig_compatibility kconfig_more_syscalls).
Local Abbreviation build' :=
  (build World Time monotonic time_sub sched_getaffinity high_verbosity path_join
     path_absolute ensure_command run_command read_file write_file
     search_kbuild_cflags atexit_register atexit_unregister).

(** C4 (amended): with no version cached, the image alone is consulted
    when an image is given, and the build tool is not run even if the banner
    is missing or unreadable; the build tool is consulted only when no image
    is given and a source tree is; [KernelVersionError] is raised when the
    one source consulted yields no version, or when there is no source. *)
Theorem C4_version_detection self w :
  Kernel__version self = None →
  match vmlinux self, kdir self with
  | Some elf, _ =>
      version' self w
      = (match version_from_vmlinux elf with
         | Some v => Ok v
         | None => Raise KernelVersionError
         end,
         set_version_source (Some "vmlinux"%string)
           (set_version (version_from_vmlinux elf) self),
         w)
  | None, Some d =>
      match ensure_command ["make kernelversion"%string] (Some d) None false false w with
      | (Ok out, w') =>
          version' self w
          = (match version_from_str out with
             | Some v => Ok v
             | None => Raise KernelVersionError
             end,
             set_version_source (Some "make"%string)
               (set_version (version_from_str out) self),
             w')
      | (Raise e, w') => version' self w = (Raise e, self, w')
      end
  | None, None => version' self w = (Raise KernelVersionError, self, w)
  end.
Proof.
  intros Hnone. unfold version, mbind, get_self, modify, ret, raise, version_from_make.
  rewrite Hnone.
  destruct (vmlinux self) as [elf|] eqn:Hv.
  - simpl. by destruct (version_from_vmlinux elf).
  - destruct (kdir self) as [d|] eqn:Hk.
    + simpl. rewrite Hk.
      destruct (ensure_command _ (Some d) None false false w) as [[out|e] w'];
        simpl; [|done].
      by destruct (version_from_str out).
    + simpl. by rewrite Hnone.
Qed.

Lemma keeps_ret {A : Type} (a : A) : keeps_syscalls World (ret World a).
Proof. by intros self w. Qed.

Lemma keeps_raise {A : Type} (e : exn) : keeps_syscalls World (raise World (A:=A) e).
Proof. by intros self w. Qed.

Lemma keeps_get_self : keeps_syscalls World (get_self World).
Proof. by intros self w. Qed.

Lemma keeps_get_world : keeps_syscalls World (get_world World).
Proof. by intros self w. Qed.

Lemma keeps_modify_world f : keeps_syscalls World (modify_world World f).
Proof. by intros self w. Qed.

Lemma keeps_lift_world f : keeps_syscalls World (lift_world World f).
Proof. intros self w. unfold object_after, lift_world. by destruct (f w). Qed.

Lemma keeps_modify f :
  (∀ self, Kernel__syscalls (f self) = Kernel__syscalls self) →
  keeps_syscalls World (modify World f).
Proof. intros Hf self w. apply Hf. Qed.

Lemma keeps_bind {A B : Type} (m : method World A) (k : A → method World B) :
  keeps_syscalls World m → (∀ a, keeps_syscalls World (k a)) →
  keeps_syscalls World (mbind World m k).
Proof.
  intros Hm Hk self w. specialize (Hm self w).
  unfold object_after, mbind in *.
  destruct (m self w) as [[[a|e] self'] w']; simpl in *; [|done].
  rewrite <- Hm. apply Hk.
Qed.

(** Steps of a proof that a method keeps the cached syscall list. *)
Ltac keeps_by leaf :=
  repeat first
    [ leaf | apply keeps_ret | apply keeps_raise | apply keeps_get_self
    | apply keeps_get_world | apply keeps_modify_world | apply keeps_lift_world
    | apply keeps_modify; intros ?; reflexivity
    | apply keeps_bind; [|intros ?]
    | match goal with
      | |- keeps_syscalls _ (match ?x with _ => _ end) => destruct x
      end ].

Lemma keeps_version_from_make :
  keeps_syscalls World (version_from_make World ensure_command).
Proof.
  intros self w. unfold object_after, version_from_make.
  by destruct (ensure_command _ _ _ _ _ _) as [[out|e] w'].
Qed.

Lemma keeps_version : keeps_syscalls World version'.
Proof. unfold version. keeps_by ltac:(apply keeps_version_from_make). Qed.

Lemma keeps_make target stdin ensure : keeps_syscalls World (make' target stdin ensure).
Proof.
  intros self w. unfold object_after, make, mbind, get_self, get_world, raise. simpl.
  destruct (kdir self); [|done]. destruct ensure.
  - by destruct (ensure_command _ _ _ _ _ _) as [[out|e] w'].
  - by destruct (run_command _ _ _ _ _) as [res w'].
Qed.

Lemma keeps_sync_config : keeps_syscalls World sync_config'.
Proof.
  unfold sync_config.
  keeps_by ltac:(first [apply keeps_version | apply keeps_make]).
Qed.

Lemma keeps_try_set_optimization_level lvl :
  keeps_syscalls World
    (try_set_optimization_level World path_join read_file write_file
       search_kbuild_cflags lvl).
Proof. unfold try_set_optimization_level. keeps_by fail. Qed.

Lemma keeps_restore_makefile :
  keeps_syscalls World
    (restore_makefile World path_join write_file atexit_unregister).
Proof. unfold restore_makefile. keeps_by fail. Qed.

Lemma keeps_clean : keeps_syscalls World clean'.
Proof. unfold clean. keeps_by ltac:(apply keeps_make). Qed.

Lemma keeps_configure : keeps_syscalls World configure'.
Proof.
  unfold configure.
  keeps_by ltac:(first [apply keeps_version | apply keeps_make
                       | apply keeps_sync_config]).
Qed.

Lemma keeps_build try_disable_opt : keeps_syscalls World (build' try_disable_opt).
Proof.
  unfold build. cbv zeta.
  keeps_by ltac:(first [apply keeps_make | apply keeps_try_set_optimization_level
                       | apply keeps_restore_makefile]).
Qed.

Local Abbreviation keeps_version_field' := (keeps_version_field World).

Lemma keeps_version_field_bind {A B : Type} (m : method World A)
    (k : A → method World B) :
  keeps_version_field' m → (∀ a, keeps_version_field' (k a)) →
  keeps_version_field' (mbind World m k).
Proof.
  intros Hm Hk self w. specialize (Hm self w).
  unfold object_after, mbind in *.
  destruct (m self w) as [[[a|e] self'] w']; simpl in *; [|done].
  rewrite <- Hm. apply Hk.
Qed.

Ltac keeps_version_by leaf :=
  repeat first
    [ leaf | by intros ? ?
    | apply keeps_version_field_bind; [|intros ?]
    | match goal with
      | |- keeps_version_field' (match ?x with _ => _ end) => destruct x
      end ].

Lemma keeps_version_field_make target stdin ensure :
  keeps_version_field' (make' target stdin ensure).
Proof.
  intros self w. unfold object_after, make, mbind, get_self, get_world, raise. simpl.
  destruct (kdir self); [|done]. destruct ensure.
  - by destruct (ensure_command _ _ _ _ _ _) as [[out|e] w'].
  - by destruct (run_command _ _ _ _ _) as [res w'].
Qed.

Lemma keeps_version_field_try_set lvl :
  keeps_version_field'
    (try_set_optimization_level World path_join read_file write_file
       search_kbuild_cflags lvl).
Proof. unfold try_set_optimization_level. keeps_version_by fail. Qed.

Lemma keeps_version_field_restore :
  keeps_version_field'
    (restore_makefile World path_join write_file atexit_unregister).
Proof. unfold restore_makefile. keeps_version_by fail. Qed.

(** After [self.__version = None], a method that does not touch the cached
    version leaves it [None], however it ends. *)
Lemma reset_then {A : Type} (m : method World A) self w :
  keeps_version_field' m →
  Kernel__version
    (object_after World (mbind World (modify World (set_version None)) (λ _, m)) self w)
  = None.
Proof. intros Hm. exact (Hm (set_version None self) w). Qed.

Lemma object_after_get_world {A : Type} (k : World → method World A) self w :
  object_after World (mbind World (get_world World) k) self w
  = object_after World (k w) self w.
Proof. reflexivity. Qed.

(** The version is [None] when [clean] ends, however it ends. *)
Lemma clean_version self w : Kernel__version (object_after World clean' self w) = None.
Proof.
  unfold clean. apply reset_then.
  keeps_version_by ltac:(apply keeps_version_field_make).
Qed.

(** The version is [None] when [build] ends, however it ends. *)
Lemma build_version try_disable_opt self w :
  Kernel__version (object_after World (build' try_disable_opt) self w) = None.
Proof.
  unfold build. cbv zeta. rewrite object_after_get_world. apply reset_then.
  keeps_version_by ltac:(first [apply keeps_version_field_make
                               | apply keeps_version_field_try_set
                               | apply keeps_version_field_restore]).
Qed.

Lemma bind_get_self {A : Type} (k : Kernel → method World A) self w :
  mbind World (get_self World) k self w = k self self w.
Proof. reflexivity. Qed.

Lemma clean_discards_version : discards_version World clean'.
Proof. intros self w. reflexivity. Qed.

Lemma build_discards_version try_disable_opt :
  discards_version World (build' try_disable_opt).
Proof. intros self w. reflexivity. Qed.

Lemma configure_discards_version self w :
  is_Some (outdir self) ∨ is_Some (kdir self) →
  configure' self w = configure' (set_version None self) w.
Proof.
  intros Hdir. unfold configure. rewrite !bind_get_self.
  change (outdir (set_version None self)) with (outdir self).
  change (kdir (set_version None self)) with (kdir self).
  destruct (outdir self) as [o|]; [reflexivity|].
  destruct (kdir self) as [d|]; [reflexivity|].
  destruct Hdir as [[? [=]]|[? [=]]].
Qed.

(** With a cached list, the property returns it and runs nothing. *)
Lemma syscalls_cached self w l :
  Kernel__syscalls self = Some l → syscalls' self w = (Ok l, self, w).
Proof. intros Hl. unfold syscalls, mbind, get_self, ret. by rewrite Hl. Qed.

(** C10: [clean] and [build] leave no cached version behind, and
    [configure], given a directory for its configuration file, starts by
    discarding the cached version, so that every later read of the version
    detects it again; without such a directory [configure] raises
    [TypeError] and leaves the object, cached version included, and the
    world as they are. None of the three touches the cached syscall list,
    and the [syscalls] property then returns that list as it was, without
    calling the extraction and without changing the object or the world. *)
Theorem C10_builder_keeps_syscalls self w w1 l :
  Kernel__syscalls self = Some l →
  (Kernel__version (object_after World clean' self w) = None
   ∧ discards_version World clean'
   ∧ syscalls' (object_after World clean' self w) w1
     = (Ok l, object_after World clean' self w, w1))
  ∧ (∀ try_disable_opt,
       Kernel__version (object_after World (build' try_disable_opt) self w) = None
       ∧ discards_version World (build' try_disable_opt)
       ∧ syscalls' (object_after World (build' try_disable_opt) self w) w1
         = (Ok l, object_after World (build' try_disable_opt) self w, w1))
  ∧ ((is_Some (outdir self) ∨ is_Some (kdir self) →
      configure' self w = configure' (set_version None self) w)
     ∧ (outdir self = None → kdir self = None →
        configure' self w = (Raise TypeError, self, w))
     ∧ syscalls' (object_after World configure' self w) w1
       = (Ok l, object_after World configure' self w, w1)).
Proof.
  intros Hl. split; [|split].
  - split; [apply clean_version|]. split; [apply clean_discards_version|].
    apply syscalls_cached. by rewrite keeps_clean.
  - intros b. split; [apply build_version|].
    split; [apply build_discards_version|].
    apply syscalls_cached. by rewrite keeps_build.
  - split; [apply configure_discards_version|]. split.
    + intros Ho Hk. unfold configure. rewrite bind_get_self. by rewrite Ho, Hk.
    + apply syscalls_cached. by rewrite keeps_configure.
Qed.

End KernelObjectFacts.

(** C10 (as stated) fails: on an object that holds an image but neither a
    source tree nor an output directory, [configure] raises [TypeError] on
    the path of its configuration file before it resets anything, so the
    cached version is still there afterwards and the run differs from the
    run on an object without cached version. *)
Lemma C10_counterexample :
  Kernel__version ex_kernel_image_cached = Some [6; 1; 0]
  ∧ outcome ex_World ex_configure ex_kernel_image_cached [] = Raise TypeError
  ∧ Kernel__version (object_after ex_World ex_configure ex_kernel_image_cached [])
    = Some [6; 1; 0]
  ∧ ex_configure ex_kernel_image_cached []
    ≠ ex_configure (set_version None ex_kernel_image_cached) [].
Proof.
  split; [reflexivity|]. split; [reflexivity|]. split; [reflexivity|].
  vm_compute. discriminate.
Qed.

(** C4 (as stated) fails: the image has no version banner and a source tree
    is given whose build tool prints a version, yet the property raises
    [KernelVersionError] without running the build tool. *)
Lemma C4_counterexample :
  version_from_vmlinux ex_vmlinux = None
  ∧ outcome ex_World (version_from_make ex_World ex_ensure_command)
      ex_kernel_no_banner [] = Ok (Some [5; 10; 0])
  ∧ outcome ex_World ex_version_property ex_kernel_no_banner []
    = Raise KernelVersionError
  ∧ world_after ex_World ex_version_property ex_kernel_no_banner [] = [].
Proof. repeat split; vm_compute; reflexivity. Qed.

Lemma C4_version_detection_witness :
  ex_version_property ex_kernel_source_only []
  = (Ok [5; 10; 0],
     set_version_source (Some "make"%string)
       (set_version (Some [5; 10; 0]) ex_kernel_source_only),
     [["make kernelversion"%string]]).
Proof.
  exact (C4_version_detection ex_World ex_ensure_command ex_kernel_source_only []
           eq_refl).
Defined.

Lemma C10_builder_keeps_syscalls_witness :
  Kernel__version (object_after ex_World ex_clean ex_kernel_cached []) = None
  ∧ ex_syscalls_property (object_after ex_World ex_clean ex_kernel_cached []) []
    = (Ok ex_output, object_after ex_World ex_clean ex_kernel_cached [], [])
  ∧ ex_syscalls_property (object_after ex_World (ex_build true) ex_kernel_cached []) []
    = (Ok ex_output, object_after ex_World (ex_build true) ex_kernel_cached [], [])
  ∧ ex_configure ex_kernel_cached [] = ex_configure (set_version None ex_kernel_cached) []
  ∧ ex_syscalls_property (object_after ex_World ex_configure ex_kernel_cached []) []
    = (Ok ex_output, object_after ex_World ex_configure ex_kernel_cached [], []).
Proof.
  destruct (C10_builder_keeps_syscalls ex_World nat (λ w, length w) Nat.sub
              (λ _, 4%nat) (λ _, false) ex_path_join (λ d, d) ex_ensure_command
              ex_run_command ex_read_file (λ _ _ w, w) (λ _, Some (18%nat, 19%nat))
              (λ w, w) (λ w, w) ex_edit_config ex_edit_config
              (λ _, []) (λ _, []) (λ _, []) ex_extract_method
              ex_kernel_cached [] [] ex_output eq_refl)
    as ((Hclean & _ & Hclean_sys) & Hbuild & (Hconf & _ & Hconf_sys)).
  destruct (Hbuild true) as (_ & _ & Hbuild_sys).
  split; [exact Hclean|]. split; [exact Hclean_sys|]. split; [exact Hbuild_sys|].
  split; [|exact Hconf_sys].
  apply Hconf. right. vm_compute. eauto.
Defined.

(** ** The run as a whole *)

(** A run that returns a list left early with the empty list, or returns
    what the second half of the extraction computes from the decoded
    sequence, the placeholders and the address-to-symbol map. *)
Lemma extract_syscalls_second_half
    (adjust_abi : Arch → ELF → Arch) (set_order : list Symbol → list Symbol)
    (common_syscall_symbol_prefixes : list string → Z → list string)
    (noprefix : string → list string → string)
    (kconfig_syscall_deps : string → KernelVersion → KconfigDeps)
    (path_match : Path → string → bool)
    (locations_of : list Syscall → ELF → option Path → option Path → Arch → nat
                    → option Path * option Z * bool)
    (signatures_of : list Syscall → ELF → bool → nat → option Signature)
    (self_kdir self_rdir : option Path) (self_version : result KernelVersion)
    (arch0 : Arch) (vmlinux : ELF) (l : list Syscall) :
  extract_syscalls adjust_abi set_order common_syscall_symbol_prefixes
    noprefix kconfig_syscall_deps path_match locations_of signatures_of
    self_kdir self_rdir self_version arch0 vmlinux = Ok l →
  l = []
  ∨ ∃ vaddrs,
      syscalls_of_resolved common_syscall_symbol_prefixes noprefix
        kconfig_syscall_deps path_match locations_of signatures_of
        self_kdir self_rdir self_version (adjust_abi arch0 vmlinux) vmlinux
        (resolve_symbols (adjust_abi arch0 vmlinux) vaddrs
           (find_ni_syscalls (adjust_abi arch0 vmlinux) vmlinux)
           (set_order (find_ni_syscalls (adjust_abi arch0 vmlinux) vmlinux))
           (dict_values (elf_symbols vmlinux)))
        (find_ni_syscalls (adjust_abi arch0 vmlinux) vmlinux) vaddrs
      = Ok l.
Proof.
  unfold extract_syscalls.
  destruct (negb _); [intros [= <-]; by left|].
  destruct (dict_get (syscall_table_name _) _) as [tbl|]; [|intros [= <-]; by left].
  destruct (dict_index ".text" (elf_sections vmlinux)) as [text|]; simpl; [|done].
  match goal with
  | |- bind ?d _ = _ → _ => destruct d as [[[|v vaddrs]|]|]; simpl
  end; try done; try (intros [= <-]; by left).
  destruct (find_ni_syscalls _ _) as [|ni0 ni] eqn:Hni; [intros [= <-]; by left|].
  case_bool_decide; [intros [= <-]; by left|].
  destruct (most_frequent _ _); simpl; [|done].
  intros Hrun. right. by exists (v :: vaddrs).
Qed.

(** The map of the example run is the one the resolver computes. *)
Lemma ex_map_resolved :
  resolve_symbols (ex_arch "sys_esoteric") ex_vaddrs [ex_ni] [ex_ni]
    (dict_values ex_symbols) = ex_map
  ∧ unpack_syscall_table ex_vmlinux ex_tbl ex_text = Ok ex_vaddrs.
Proof. split; vm_compute; reflexivity. Qed.

(** Version strings and banners. *)
Lemma version_from_str_examples :
  version_from_str "6.1.0" = Some [6; 1; 0]
  ∧ version_from_str "5.15" = Some [5; 15]
  ∧ version_from_str "6.1-rc3" = Some [6; 1]
  ∧ version_from_str "6" = None
  ∧ version_from_banner "Linux version 6.1.0 (gcc 12.2.0) #1 SMP" = Some [6; 1; 0]
  ∧ version_from_banner "Darwin version 6.1.0" = None.
Proof. repeat split; reflexivity. Qed.

(** [configure] on an object that holds a stale version: the version read
    after the reset is the one of the image. *)
Lemma ex_configure_detects_again :
  Kernel__version ex_kernel_cached = Some [5; 9]
  ∧ outcome ex_World ex_configure ex_kernel_cached [] = Ok tt
  ∧ Kernel__version (object_after ex_World ex_configure ex_kernel_cached [])
    = Some [6; 1; 0]
  ∧ Kernel__syscalls (object_after ex_World ex_configure ex_kernel_cached [])
    = Some ex_output.
Proof. repeat split; vm_compute; reflexivity. Qed.

(** * Further properties *)

(** ** Version strings *)

Lemma string_app_nil (s : string) : EmptyString +:+ s = s.
Proof. reflexivity. Qed.

Lemma string_app_cons (c : ascii) (s t : string) :
  String c s +:+ t = String c (s +:+ t).
Proof. reflexivity. Qed.

Lemma string_app_assoc (s1 s2 s3 : string) : (s1 +:+ s2) +:+ s3 = s1 +:+ (s2 +:+ s3).
Proof.
  induction s1 as [|c s1 IH]; [done|]. by rewrite !string_app_cons, IH.
Qed.

Lemma int_of_digits_acc (ds : list ascii) (acc : Z) :
  foldl (λ acc c, 10 * acc + (Z.of_nat (nat_of_ascii c) - 48)) acc ds
  = acc * 10 ^ Z.of_nat (length ds) + int_of_digits ds.
Proof.
  unfold int_of_digits. revert acc. induction ds as [|c ds IH]; intros acc.
  - simpl. lia.
  - cbn [foldl length]. rewrite IH, (IH (10 * 0 + _)).
    rewrite Nat2Z.inj_succ, Z.pow_succ_r by lia. lia.
Qed.

Lemma int_of_digits_snoc (ds : list ascii) (c : ascii) :
  int_of_digits (ds ++ [c]) = 10 * int_of_digits ds + (Z.of_nat (nat_of_ascii c) - 48).
Proof. unfold int_of_digits. by rewrite foldl_app. Qed.

Lemma int_of_digits_nonneg (ds : list ascii) :
  Forall (λ c, is_digit c = true) ds → 0 ≤ int_of_digits ds.
Proof.
  induction ds as [|c ds IH] using rev_ind; intros H; [done|].
  apply Forall_app in H as [Hds Hc]. rewrite Forall_singleton in Hc.
  rewrite int_of_digits_snoc. specialize (IH Hds).
  unfold is_digit in Hc. apply andb_true_iff in Hc as [H1 H2]. lia.
Qed.

Lemma span_digits_digits (s : string) :
  Forall (λ c, is_digit c = true) (span_digits s).1.
Proof.
  induction s as [|c s IH]; simpl; [constructor|].
  destruct (is_digit c) eqn:Hc; [|constructor].
  destruct (span_digits s) as [ds rest]. simpl in *. by constructor.
Qed.

Lemma pretty_N_char_digit (x : N) :
  (x < 10)%N →
  is_digit (pretty_N_char x) = true
  ∧ Z.of_nat (nat_of_ascii (pretty_N_char x)) - 48 = Z.of_N x.
Proof.
  intros Hx.
  assert (x = 0 ∨ x = 1 ∨ x = 2 ∨ x = 3 ∨ x = 4 ∨ x = 5 ∨ x = 6 ∨ x = 7
          ∨ x = 8 ∨ x = 9)%N as Hcases by lia.
  repeat (destruct Hcases as [->|Hcases]; [by vm_compute|]). subst. by vm_compute.
Qed.

Lemma pretty_N_go_app (x : N) (s t : string) :
  pretty_N_go x s +:+ t = pretty_N_go x (s +:+ t).
Proof.
  revert s. induction (N.lt_wf_0 x) as [x _ IH]; intros s.
  destruct (decide (x = 0)%N) as [->|Hx]; [by rewrite !pretty_N_go_0|].
  rewrite (pretty_N_go_step x s), (pretty_N_go_step x (s +:+ t)) by lia.
  rewrite IH; [by rewrite string_app_cons|]. apply N.div_lt; lia.
Qed.

(** The digits that [str] prints for a number are read back as one run of
    digits whose value is the number. *)
Lemma span_digits_pretty_N_go (x : N) (s : string) :
  ∃ dx, span_digits (pretty_N_go x s) = (dx ++ (span_digits s).1, (span_digits s).2)
        ∧ int_of_digits dx = Z.of_N x
        ∧ (0 < x → dx ≠ [])%N
        ∧ ∀ ds, int_of_digits (dx ++ ds)
                = Z.of_N x * 10 ^ Z.of_nat (length ds) + int_of_digits ds.
Proof.
  revert s. induction (N.lt_wf_0 x) as [x _ IH]; intros s.
  destruct (decide (x = 0)%N) as [->|Hx].
  { exists []. rewrite pretty_N_go_0. split; [by destruct (span_digits s)|].
    split; [done|]. split; [lia|]. intros ds. simpl. lia. }
  rewrite pretty_N_go_step by lia.
  destruct (pretty_N_char_digit (x `mod` 10)%N) as [Hdig Hval];
    [apply N.mod_lt; lia|].
  destruct (IH (x `div` 10)%N) with (s := String (pretty_N_char (x `mod` 10)) s)
    as (dx & Hspan & Hdx & _ & Happ); [apply N.div_lt; lia|].
  simpl in Hspan. rewrite Hdig in Hspan.
  destruct (span_digits s) as [ds rest] eqn:Hs. simpl in Hspan.
  exists (dx ++ [pretty_N_char (x `mod` 10)]). simpl.
  split; [by rewrite <- app_assoc|].
  assert (Hx10 : Z.of_N x = 10 * Z.of_N (x `div` 10) + Z.of_N (x `mod` 10)).
  { pose proof (N.div_mod x 10 ltac:(lia)). lia. }
  split; [rewrite int_of_digits_snoc, Hdx, Hval; lia|].
  split; [intros _ Hnil; by destruct dx|].
  intros ds'. rewrite <- app_assoc. simpl. rewrite Happ. cbn [length].
  unfold int_of_digits at 1. cbn [foldl].
  rewrite int_of_digits_acc, Hval, Nat2Z.inj_succ, Z.pow_succ_r by lia. lia.
Qed.

(** [str(z)] followed by a string that does not start with a digit is
    read back as [z]. *)
Lemma span_digits_pretty (z : Z) (rest : string) :
  0 ≤ z → starts_with_digit rest = false →
  ∃ ds, span_digits (pretty z +:+ rest) = (ds, rest)
        ∧ ds ≠ [] ∧ int_of_digits ds = z.
Proof.
  intros Hz Hrest.
  assert (Hspan : span_digits rest = ([], rest)).
  { destruct rest as [|c rest]; [done|]. simpl in *. by rewrite Hrest. }
  destruct z as [|p|p]; [| |lia].
  - exists ["0"%char]. change (pretty 0) with "0"%string.
    rewrite string_app_cons, string_app_nil. simpl. rewrite Hspan. done.
  - change (pretty (Z.pos p)) with (pretty_N_go (N.pos p) "").
    rewrite pretty_N_go_app, string_app_nil.
    destruct (span_digits_pretty_N_go (N.pos p) rest) as (dx & Hdx & Hval & Hne & _).
    rewrite Hspan in Hdx. simpl in Hdx. rewrite app_nil_r in Hdx.
    exists dx. split; [done|]. split; [apply Hne; lia|done].
Qed.

Lemma version_from_str_pretty3 (a b c : Z) (rest : string) :
  0 ≤ a → 0 ≤ b → 0 ≤ c → starts_with_digit rest = false →
  version_from_str (pretty a +:+ "." +:+ pretty b +:+ "." +:+ pretty c +:+ rest)
  = Some [a; b; c].
Proof.
  intros Ha Hb Hc Hrest. unfold version_from_str.
  destruct (span_digits_pretty a ("." +:+ pretty b +:+ "." +:+ pretty c +:+ rest) Ha eq_refl)
    as (da & -> & Hda & <-).
  destruct da as [|a0 da]; [done|]. rewrite string_app_cons, string_app_nil.
  destruct (span_digits_pretty b ("." +:+ pretty c +:+ rest) Hb eq_refl)
    as (db & -> & Hdb & <-).
  destruct db as [|b0 db]; [done|]. rewrite string_app_cons, string_app_nil.
  destruct (span_digits_pretty c rest Hc Hrest) as (dc & -> & Hdc & <-).
  by destruct dc.
Qed.

Lemma version_from_str_pretty2 (a b : Z) (rest : string) :
  0 ≤ a → 0 ≤ b → ends_version rest = true →
  version_from_str (pretty a +:+ "." +:+ pretty b +:+ rest) = Some [a; b].
Proof.
  intros Ha Hb Hrest. unfold version_from_str.
  destruct (span_digits_pretty a ("." +:+ pretty b +:+ rest) Ha eq_refl)
    as (da & -> & Hda & <-).
  destruct da as [|a0 da]; [done|]. rewrite string_app_cons, string_app_nil.
  assert (Hnd : starts_with_digit rest = false).
  { destruct rest as [|ch rest]; [done|]. unfold ends_version in Hrest.
    destruct (decide (ch = "."%char)) as [->|Hne]; [done|].
    assert (negb (starts_with_digit (String ch rest)) = true) as Hn.
    { revert Hrest. destruct ch as [[] [] [] [] [] [] [] []]; try done. }
    by apply negb_true_iff in Hn. }
  destruct (span_digits_pretty b rest Hb Hnd) as (db & -> & Hdb & <-).
  destruct db as [|b0 db]; [done|].
  destruct rest as [|ch rest]; [done|].
  destruct (decide (ch = "."%char)) as [->|Hne].
  - simpl in Hrest. apply negb_true_iff in Hrest.
    assert (Hs : span_digits rest = ([], rest)).
    { destruct rest as [|d rest]; [done|]. simpl in *. by rewrite Hrest. }
    by rewrite Hs.
  - destruct ch as [[] [] [] [] [] [] [] []]; try done.
Qed.

(** X1: on ASCII text, a version whose components are non-negative
    integers that [str] and [int] convert, printed component by component
    with [str] and joined with dots, is read back by [version_from_str],
    whatever follows it, as long as what follows cannot be taken for more
    digits or for one more component. *)
Theorem version_from_str_roundtrip (a b c : Z) (rest : string) :
  0 ≤ a < 10 ^ int_max_str_digits →
  0 ≤ b < 10 ^ int_max_str_digits →
  0 ≤ c < 10 ^ int_max_str_digits →
  ascii_text rest = true →
  (starts_with_digit rest = false →
   version_from_str (join_dot (map pretty [a; b; c]) +:+ rest) = Some [a; b; c])
  ∧ (ends_version rest = true →
     version_from_str (join_dot (map pretty [a; b]) +:+ rest) = Some [a; b]).
Proof.
  intros [Ha _] [Hb _] [Hc _] _. split; intros Hrest; simpl.
  - rewrite !string_app_assoc. by apply version_from_str_pretty3.
  - rewrite !string_app_assoc. by apply version_from_str_pretty2.
Qed.

Lemma version_from_str_roundtrip_witness :
  version_from_str (join_dot (map pretty [6; 1; 0]) +:+ " (from vmlinux)")
  = Some [6; 1; 0]
  ∧ version_from_str (join_dot (map pretty [6; 1]) +:+ "-rc3") = Some [6; 1].
Proof.
  destruct (version_from_str_roundtrip 6 1 0 " (from vmlinux)") as [H3 _];
    [vm_compute; split; congruence..|reflexivity|].
  destruct (version_from_str_roundtrip 6 1 0 "-rc3") as [_ H2];
    [vm_compute; split; congruence..|reflexivity|].
  split; [apply H3; reflexivity|apply H2; reflexivity].
Defined.

Lemma version_from_str_well_formed (s : string) (v : KernelVersion) :
  version_from_str s = Some v → well_formed_version v.
Proof.
  unfold version_from_str, well_formed_version.
  pose proof (span_digits_digits s) as Ha.
  destruct (span_digits s) as [[|a0 da] [|ch s1]]; try done.
  destruct ch as [[] [] [] [] [] [] [] []]; try done.
  pose proof (span_digits_digits s1) as Hb.
  destruct (span_digits s1) as [[|b0 db] r1]; [done|].
  simpl in Ha, Hb. apply int_of_digits_nonneg in Ha, Hb.
  assert (H2 : ∀ v, Some [int_of_digits (a0 :: da); int_of_digits (b0 :: db)] = Some v →
    (length v = 2%nat ∨ length v = 3%nat) ∧ Forall (λ x : Z, 0 ≤ x) v).
  { intros ? [= <-]. split; [by left|]. by repeat constructor. }
  destruct r1 as [|ch r1]; [apply H2|].
  destruct ch as [[] [] [] [] [] [] [] []]; try apply H2.
  pose proof (span_digits_digits r1) as Hc.
  destruct (span_digits r1) as [[|c0 dc] r2]; [apply H2|].
  simpl in Hc. apply int_of_digits_nonneg in Hc.
  intros [= <-]. split; [by right|]. by repeat constructor.
Qed.

(** A failed match: the string does not start with a digit. *)
Lemma version_from_str_no_digit (s : string) :
  starts_with_digit s = false → version_from_str s = None.
Proof.
  intros Hs. unfold version_from_str.
  destruct s as [|ch s]; [done|]. simpl in *. by rewrite Hs.
Qed.

(** X2: on ASCII text, [version_from_str] only ever yields two or three
    components, none of them negative, and it yields nothing for a string
    that does not start with a digit. *)
Theorem version_from_str_shape (s : string) :
  ascii_text s = true →
  (∀ v, version_from_str s = Some v → well_formed_version v)
  ∧ (starts_with_digit s = false → version_from_str s = None).
Proof.
  intros _.
  split; [apply version_from_str_well_formed|apply version_from_str_no_digit].
Qed.

Lemma version_from_str_shape_witness :
  well_formed_version [6; 1; 0] ∧ version_from_str "rc-6.1" = None.
Proof.
  split.
  - apply (proj1 (version_from_str_shape "6.1.0-rc3" eq_refl)). reflexivity.
  - apply (proj2 (version_from_str_shape "rc-6.1" eq_refl)). reflexivity.
Defined.

Lemma prefix_drop (p s : string) :
  String.prefix p s = true → s = p +:+ string_drop (String.length p) s.
Proof.
  revert s. induction p as [|c p IH]; intros s; [done|].
  destruct s as [|d s]; [done|]. simpl.
  destruct (ascii_dec c d) as [->|]; [|done].
  intros H. rewrite string_app_cons. f_equal. by apply IH.
Qed.

Lemma prefix_app (p s : string) : String.prefix p (p +:+ s) = true.
Proof.
  induction p as [|c p IH]; [by destruct s|].
  rewrite string_app_cons. simpl. by destruct (ascii_dec c c).
Qed.

Lemma string_drop_app (p s : string) : string_drop (String.length p) (p +:+ s) = s.
Proof. induction p as [|c p IH]; [by destruct s|]. by rewrite string_app_cons. Qed.

(** X3: a banner yields a version exactly when it is the text
    ["Linux version "] followed by a string from which [version_from_str]
    reads that version. *)
Theorem version_from_banner_iff (banner : string) (v : KernelVersion) :
  version_from_banner banner = Some v
  ↔ ∃ s, banner = "Linux version " +:+ s ∧ version_from_str s = Some v.
Proof.
  unfold version_from_banner. split.
  - destruct (String.prefix "Linux version " banner) eqn:Hp; [|done].
    intros Hv. exists (string_drop 14 banner). split; [|done].
    by apply (prefix_drop "Linux version ").
  - intros (s & -> & Hv).
    rewrite (prefix_app "Linux version " s).
    change 14%nat with (String.length "Linux version ").
    by rewrite (string_drop_app "Linux version " s).
Qed.

Lemma version_from_banner_iff_witness :
  ∃ s, "Linux version 6.1.0 (gcc 12.2.0) #1 SMP"%string = ("Linux version " +:+ s)%string
       ∧ version_from_str s = Some [6; 1; 0].
Proof.
  apply (proj1 (version_from_banner_iff "Linux version 6.1.0 (gcc 12.2.0) #1 SMP"
                  [6; 1; 0])).
  reflexivity.
Defined.

(** ** Cached properties of the kernel object *)

Section KernelCacheFacts.

Variable World : Type.
Variable sched_getaffinity : World → nat.
Variable high_verbosity : World → bool.
Variable path_absolute : Path → Path.
Variable ensure_command :
  list string → option Path → option string → bool → bool → World
  → result string * World.
Variable run_command :
  list string → option Path → option string → bool → World → Z * World.
Variable Kernel__extract_syscalls : method World (list Syscall).

Local Abbreviation version' := (version World ensure_command).
Local Abbreviation version_str' := (version_str World ensure_command).
Local Abbreviation version_tag' := (version_tag World ensure_command).
Local Abbreviation version_source' := (version_source World ensure_command).
Local Abbreviation syscalls' := (syscalls World Kernel__extract_syscalls).
Local Abbreviation clean' :=
  (clean World sched_getaffinity high_verbosity path_absolute ensure_command
     run_command).

Lemma version_from_vmlinux_str elf v :
  version_from_vmlinux elf = Some v → ∃ s, version_from_str s = Some v.
Proof.
  unfold version_from_vmlinux, version_from_banner.
  destruct (dict_get _ _) as [banner|]; [|done].
  destruct (String.prefix _ _); [|done]. eauto.
Qed.

(** With a version cached, the property returns it and runs nothing. *)
Lemma version_hit self w v :
  Kernel__version self = Some v → version' self w = (Ok v, self, w).
Proof.
  intros Hv. unfold version, mbind, get_self, ret. rewrite Hv. simpl. by rewrite Hv.
Qed.

(** What a successful read of the version leaves behind. *)
Lemma version_Ok self w v self' w' :
  version' self w = (Ok v, self', w') →
  Kernel__version self' = Some v
  ∧ Kernel__syscalls self' = Kernel__syscalls self
  ∧ (Kernel__version self = None →
     (∃ s, version_from_str s = Some v)
     ∧ (∃ c src, Kernel__version_source self' = Some (String c src)))
  ∧ (is_Some (Kernel__version self) → self' = self ∧ w' = w).
Proof.
  destruct (Kernel__version self) as [v0|] eqn:Hv.
  { rewrite (version_hit self w v0 Hv). intros [= <- <- <-].
    split; [done|]. split; [done|]. split; [done|]. done. }
  unfold version, mbind, get_self, modify, ret, raise, version_from_make.
  rewrite Hv.
  destruct (vmlinux self) as [elf|] eqn:Helf.
  - simpl. destruct (version_from_vmlinux elf) as [v1|] eqn:Hv1; [|done].
    intros [= <- <- <-]. simpl. split; [done|]. split; [done|].
    split; [|by intros [? [=]]]. intros _.
    split; [by apply (version_from_vmlinux_str elf)|]. by eexists _, _.
  - destruct (kdir self) as [d|] eqn:Hd; simpl.
    + rewrite Hd.
      destruct (ensure_command _ (Some d) None false false w) as [[out|e] w1];
        simpl; [|done].
      destruct (version_from_str out) as [v1|] eqn:Hv1; [|done].
      intros [= <- <- <-]. simpl. split; [done|]. split; [done|].
      split; [|by intros [? [=]]]. intros _. split; [by exists out|].
      by eexists _, _.
    + by rewrite Hv.
Qed.

(** X4: once the [version] property has returned a version, every later
    read returns the same version from the cache: the object and the world
    stay as they are, so neither the image nor the build tool is consulted
    a second time. *)
Theorem version_read_once self w v self' w' :
  version World ensure_command self w = (Ok v, self', w') →
  ∀ w2, version World ensure_command self' w2 = (Ok v, self', w2).
Proof.
  intros Hrun w2. apply version_hit. by apply version_Ok in Hrun as [Hv _].
Qed.

Lemma join_dot_pretty_parse (v : KernelVersion) (rest : string) :
  well_formed_version v → ends_version rest = true → starts_with_digit rest = false →
  version_from_str (join_dot (map pretty v) +:+ rest) = Some v.
Proof.
  intros [Hlen Hpos] He Hd.
  destruct v as [|a [|b [|c [|d v]]]]; simpl in Hlen; try lia.
  - apply Forall_cons in Hpos as [Ha Hpos]. apply Forall_cons in Hpos as [Hb _].
    simpl. rewrite !string_app_assoc. by apply version_from_str_pretty2.
  - apply Forall_cons in Hpos as [Ha Hpos]. apply Forall_cons in Hpos as [Hb Hpos].
    apply Forall_cons in Hpos as [Hc _].
    simpl. rewrite !string_app_assoc. by apply version_from_str_pretty3.
Qed.

(** X5: the text of [version_str], computed on an object that had no
    version cached, is read back by [version_from_str] as the version the
    object now caches. *)
Theorem version_str_roundtrip self w s self' w' :
  Kernel__version self = None →
  version_str' self w = (Ok s, self', w') →
  ∃ v, Kernel__version self' = Some v ∧ version_from_str s = Some v.
Proof.
  intros Hnone. unfold version_str, mbind at 1.
  destruct (version' self w) as [[[v|e] self1] w1] eqn:Hrun; [|done].
  unfold mbind, get_self, ret. intros [= <- <- <-].
  apply version_Ok in Hrun as (Hv & _ & Hfresh & _).
  destruct (Hfresh Hnone) as [[s0 Hs0] _].
  exists v. split; [done|].
  apply join_dot_pretty_parse; [by apply (version_from_str_well_formed s0)|done..].
Qed.

(** X6: [version_tag] on an object that had no version cached returns a
    tag exactly when the detected version has three components; a version
    with two components, as read from ["6.1-rc3"], makes it raise
    [ValueError]. *)
Theorem version_tag_components self w v self' w' :
  Kernel__version self = None →
  version World ensure_command self w = (Ok v, self', w') →
  (length v = 3%nat
   ∧ ∃ tag, version_tag World ensure_command self w = (XOk tag, self', w'))
  ∨ (length v = 2%nat
     ∧ version_tag World ensure_command self w = (XRaise ValueError, self', w')).
Proof.
  intros Hnone Hrun. unfold version_tag. rewrite Hrun.
  apply version_Ok in Hrun as (_ & _ & Hfresh & _).
  destruct (Hfresh Hnone) as [[s0 Hs0] _].
  apply version_from_str_well_formed in Hs0 as [[Hlen|Hlen] _].
  - right. split; [done|]. by destruct v as [|a [|b [|c v]]].
  - left. split; [done|]. destruct v as [|a [|b [|c [|d v]]]]; try done. by eexists.
Qed.

(** [clean] changes nothing in the object but the cached version. *)
Lemma clean_object self w : object_after World clean' self w = set_version None self.
Proof.
  unfold object_after, clean, mbind at 1, modify at 1.
  unfold mbind at 1. unfold make, mbind, get_self, get_world, raise, ret. simpl.
  destruct (kdir self); [|done].
  by destruct (ensure_command _ _ _ _ _ _) as [[out|e] w'].
Qed.

(** X7: [version_source] answers from the recorded source without reading
    the version: after [clean] it still reports the source recorded before,
    and the cached version stays empty; and after a detection from the
    image that found no version, it reports the image as the source instead
    of raising again. *)
Theorem version_source_recorded self w w1 :
  (∀ c src, Kernel__version_source self = Some (String c src) →
     version_source' (object_after World clean' self w) w1
     = (Ok (Some (String c src)), set_version None self, w1))
  ∧ (∀ elf, vmlinux self = Some elf → Kernel__version self = None →
       version_from_vmlinux elf = None →
       outcome World version' self w = Raise KernelVersionError
       ∧ version_source' (object_after World version' self w) w1
         = (Ok (Some "vmlinux"%string), object_after World version' self w, w1)).
Proof.
  split.
  - intros c src Hsrc. rewrite clean_object.
    unfold version_source, mbind, get_self, ret. simpl. by rewrite Hsrc.
  - intros elf Helf Hnone Hv.
    unfold outcome, object_after, version_source, version, mbind, get_self,
      modify, ret, raise.
    rewrite Hnone, Helf. simpl. by rewrite Hv.
Qed.

(** X8: the first read of [syscalls] runs the extraction once and caches
    what it returns, the empty list included, so that a second read runs
    nothing; when the extraction raises, nothing is cached. *)
Theorem syscalls_extracted_once self w :
  Kernel__syscalls self = None →
  match Kernel__extract_syscalls self w with
  | (Ok l, self1, w1) =>
      syscalls' self w = (Ok l, set_syscalls (Some l) self1, w1)
      ∧ ∀ w2, syscalls' (set_syscalls (Some l) self1) w2
              = (Ok l, set_syscalls (Some l) self1, w2)
  | (Raise e, self1, w1) => syscalls' self w = (Raise e, self1, w1)
  end.
Proof.
  intros Hnone.
  assert (Hrun : syscalls' self w
    = match Kernel__extract_syscalls self w with
      | (Ok l, self1, w1) => (Ok l, set_syscalls (Some l) self1, w1)
      | (Raise e, self1, w1) => (Raise e, self1, w1)
      end).
  { unfold syscalls, mbind, get_self, modify, ret. rewrite Hnone.
    by destruct (Kernel__extract_syscalls self w) as [[[l|e] self1] w1]. }
  destruct (Kernel__extract_syscalls self w) as [[[l|e] self1] w1]; [|done].
  split; [done|]. intros w2. reflexivity.
Qed.

End KernelCacheFacts.

Lemma version_read_once_witness :
  outcome ex_World ex_version_property ex_kernel_source_only [] = Ok [5; 10; 0]
  ∧ ∀ w2,
      ex_version_property
        (object_after ex_World ex_version_property ex_kernel_source_only []) w2
      = (Ok [5; 10; 0],
         object_after ex_World ex_version_property ex_kernel_source_only [], w2).
Proof.
  split; [reflexivity|].
  apply (version_read_once ex_World ex_ensure_command ex_kernel_source_only []
           [5; 10; 0] _ (world_after ex_World ex_version_property
                           ex_kernel_source_only [])).
  reflexivity.
Defined.

Lemma version_str_roundtrip_witness :
  ∃ v,
    Kernel__version
      (object_after ex_World (version_str ex_World ex_ensure_command)
         ex_kernel_source_only []) = Some v
    ∧ version_from_str "5.10.0 (from make)" = Some v.
Proof.
  apply (version_str_roundtrip ex_World ex_ensure_command ex_kernel_source_only []
           "5.10.0 (from make)" _
           (world_after ex_World (version_str ex_World ex_ensure_command)
              ex_kernel_source_only [])); reflexivity.
Defined.

Lemma version_tag_components_witness :
  ((length [5; 10; 0] = 3%nat
    ∧ ∃ tag, version_tag ex_World ex_ensure_command ex_kernel_source_only []
             = (XOk tag,
                object_after ex_World ex_version_property ex_kernel_source_only [],
                [["make kernelversion"%string]]))
   ∨ (length [5; 10; 0] = 2%nat
      ∧ version_tag ex_World ex_ensure_command ex_kernel_source_only []
        = (XRaise ValueError,
           object_after ex_World ex_version_property ex_kernel_source_only [],
           [["make kernelversion"%string]])))
  ∧ version_tag ex_World ex_ensure_command_rc ex_kernel_source_only []
    = (XRaise ValueError,
       set_version_source (Some "make"%string)
         (set_version (Some [6; 1]) ex_kernel_source_only),
       [["make kernelversion"%string]]).
Proof.
  split.
  - apply (version_tag_components ex_World ex_ensure_command ex_kernel_source_only []);
      reflexivity.
  - destruct (version_tag_components ex_World ex_ensure_command_rc
                ex_kernel_source_only [] [6; 1]
                (set_version_source (Some "make"%string)
                   (set_version (Some [6; 1]) ex_kernel_source_only))
                [["make kernelversion"%string]] eq_refl eq_refl) as [[H _]|[_ H]].
    + discriminate H.
    + exact H.
Defined.

Lemma version_source_recorded_witness :
  version_source ex_World ex_ensure_command
    (object_after ex_World ex_clean ex_kernel_cached []) []
  = (Ok (Some "vmlinux"%string), set_version None ex_kernel_cached, [])
  ∧ outcome ex_World ex_version_property ex_kernel_no_banner []
    = Raise KernelVersionError
  ∧ version_source ex_World ex_ensure_command
      (object_after ex_World ex_version_property ex_kernel_no_banner []) []
    = (Ok (Some "vmlinux"%string),
       object_after ex_World ex_version_property ex_kernel_no_banner [], []).
Proof.
  split.
  - apply (proj1 (version_source_recorded ex_World (λ _, 4%nat) (λ _, false) (λ d, d)
                    ex_ensure_command ex_run_command ex_kernel_cached [] [])
             "v"%char "mlinux"%string).
    reflexivity.
  - apply (proj2 (version_source_recorded ex_World (λ _, 4%nat) (λ _, false) (λ d, d)
                    ex_ensure_command ex_run_command ex_kernel_no_banner [] [])
             ex_vmlinux); reflexivity.
Defined.

Lemma syscalls_extracted_once_witness :
  syscalls ex_World ex_extract_ok ex_kernel_source_only []
  = (Ok ex_output, set_syscalls (Some ex_output) ex_kernel_source_only,
     [["extract"%string]])
  ∧ ∀ w2,
      syscalls ex_World ex_extract_ok
        (set_syscalls (Some ex_output) ex_kernel_source_only) w2
      = (Ok ex_output, set_syscalls (Some ex_output) ex_kernel_source_only, w2).
Proof.
  exact (syscalls_extracted_once ex_World ex_extract_ok ex_kernel_source_only []
           eq_refl).
Defined.

(** ** More on the table unpacker *)

Lemma Byte_to_N_bound (b : Byte.byte) : (Byte.to_N b < 256)%N.
Proof. by destruct b. Qed.

Lemma le_to_Z_bound (bs : list Byte.byte) :
  0 ≤ le_to_Z bs < 256 ^ Z.of_nat (length bs).
Proof.
  induction bs as [|b bs IH]; simpl; [lia|].
  pose proof (Byte_to_N_bound b).
  rewrite Nat2Z.inj_succ, Z.pow_succ_r by lia. lia.
Qed.

Lemma words_bound vmlinux n bs :
  Forall (λ v, 0 ≤ v < 256 ^ Z.of_nat (long_size vmlinux)) (words vmlinux n bs).
Proof.
  revert bs. induction n as [|n IH]; intros bs; simpl; constructor; [|apply IH].
  set (chunk := take (long_size vmlinux) bs).
  assert (Hlen : (length chunk ≤ long_size vmlinux)%nat).
  { unfold chunk. rewrite length_take. lia. }
  assert (Hb : ∀ l : list Byte.byte, (length l ≤ long_size vmlinux)%nat →
            0 ≤ le_to_Z l < 256 ^ Z.of_nat (long_size vmlinux)).
  { intros l Hl. pose proof (le_to_Z_bound l) as [H0 H1]. split; [done|].
    eapply Z.lt_le_trans; [exact H1|]. apply Z.pow_le_mono_r; lia. }
  destruct (big_endian vmlinux); apply Hb; [by rewrite length_rev|done].
Qed.

Lemma words_prefix vmlinux n m bs :
  (n ≤ m)%nat → take n (words vmlinux m bs) = words vmlinux n bs.
Proof.
  revert m bs. induction n as [|n IH]; intros m bs Hle; [by rewrite take_0|].
  destruct m as [|m]; [lia|]. simpl. f_equal. apply IH. lia.
Qed.

Lemma words_take vmlinux n k bs :
  (n * long_size vmlinux ≤ k)%nat →
  words vmlinux n (take k bs) = words vmlinux n bs.
Proof.
  revert k bs. induction n as [|n IH]; intros k bs Hle; [done|]. simpl.
  assert (Hk : (long_size vmlinux ≤ k)%nat) by lia.
  rewrite take_take, Nat.min_l by done.
  replace (drop (long_size vmlinux) (take k bs))
    with (take (k - long_size vmlinux) (drop (long_size vmlinux) bs)).
  - rewrite IH; [done|]. lia.
  - rewrite take_drop_commute. f_equal. f_equal. lia.
Qed.

(** The result of the adaptive loop, as a prefix of the word stream. *)
Lemma adaptive_result vmlinux tbl target_section vaddrs :
  table_mode tbl = Adaptive →
  unpack_syscall_table vmlinux tbl target_section = Ok vaddrs →
  ∃ n v,
    table_words vmlinux tbl !! n = Some v
    ∧ vaddrs = take n (table_words vmlinux tbl)
    ∧ (in_section target_section v = false
       ∨ cursor vmlinux tbl n ∈ boundaries vmlinux tbl)
    ∧ ∀ i w, (i < n)%nat → table_words vmlinux tbl !! i = Some w →
             in_section target_section w = true
             ∧ cursor vmlinux tbl i ∉ boundaries vmlinux tbl.
Proof.
  intros Hmode. unfold unpack_syscall_table. rewrite Hmode.
  fold (table_words vmlinux tbl).
  destruct (adaptive_loop _ _ _ _ _ _) as [[res c']|e] eqn:Hloop; simpl; [|done].
  intros [= <-].
  apply adaptive_loop_Ok in Hloop as (n & v & Hn & Hstop & Hbefore & -> & _).
  exists n, v. done.
Qed.

(** X9: whichever mode decodes the table, every address it returns is an
    unsigned word of the image's pointer width. *)
Theorem unpack_syscall_table_word_bound vmlinux tbl target_section vaddrs :
  unpack_syscall_table vmlinux tbl target_section = Ok vaddrs →
  Forall (λ v, 0 ≤ v < 256 ^ Z.of_nat (long_size vmlinux)) vaddrs.
Proof.
  destruct (table_mode tbl) eqn:Hmode.
  - unfold unpack_syscall_table, iter_unpack_vmlinux_long_sized. rewrite Hmode.
    destruct (Nat.eqb _ 0); [|done]. intros [= <-]. apply words_bound.
  - intros Hrun.
    destruct (adaptive_result _ _ _ _ Hmode Hrun) as (n & v & _ & -> & _).
    apply Forall_take, words_bound.
Qed.

Lemma unpack_syscall_table_word_bound_witness :
  Forall (λ v, 0 ≤ v < 256 ^ Z.of_nat (long_size ex_image_alias)) [0x1000; 0x1008].
Proof.
  apply (unpack_syscall_table_word_bound ex_image_alias ex_tbl0 ex_text).
  vm_compute. reflexivity.
Defined.

(** X10: in adaptive mode every decoded address lies inside the target
    section, and the decoded addresses are fewer than the complete words the
    file holds from the table's offset on: the word that stops the decoding
    is read but not returned. *)
Theorem adaptive_addresses_in_section vmlinux tbl target_section vaddrs :
  table_mode tbl = Adaptive →
  unpack_syscall_table vmlinux tbl target_section = Ok vaddrs →
  Forall (λ v, in_section target_section v = true) vaddrs
  ∧ (length vaddrs < length (table_words vmlinux tbl))%nat.
Proof.
  intros Hmode Hrun.
  destruct (adaptive_result _ _ _ _ Hmode Hrun) as (n & v & Hn & -> & _ & Hbefore).
  apply lookup_lt_Some in Hn as Hlt. split.
  - apply Forall_forall. intros w Hw.
    apply list_elem_of_lookup in Hw as [i Hi].
    apply lookup_take_Some in Hi as [Hi Hin].
    by destruct (Hbefore i w Hin Hi).
  - rewrite length_take. lia.
Qed.

Lemma adaptive_addresses_in_section_witness :
  Forall (λ v, in_section ex_text v = true) [0x1000; 0x1008]
  ∧ (length [0x1000; 0x1008] < length (table_words ex_image_alias ex_tbl0))%nat.
Proof.
  apply (adaptive_addresses_in_section ex_image_alias ex_tbl0 ex_text);
    [reflexivity|vm_compute; reflexivity].
Defined.

(** X11: the table's own address is never a boundary: when the adaptive
    mode returns and the first word of the table lies in the target
    section, that word is decoded, whatever other symbols share the table's
    address. *)
Theorem adaptive_first_word vmlinux tbl target_section vaddrs v :
  table_mode tbl = Adaptive →
  unpack_syscall_table vmlinux tbl target_section = Ok vaddrs →
  table_words vmlinux tbl !! 0%nat = Some v →
  in_section target_section v = true →
  vaddrs !! 0%nat = Some v.
Proof.
  intros Hmode Hrun Hv Hin.
  destruct (adaptive_result _ _ _ _ Hmode Hrun) as (n & w & Hn & -> & Hstop & _).
  destruct n as [|n]; [|by rewrite lookup_take_lt by lia].
  rewrite Hv in Hn. injection Hn as <-.
  destruct Hstop as [Hout|Hb]; [congruence|].
  unfold cursor, boundaries in Hb. rewrite Z.mul_0_l, Z.add_0_r in Hb.
  apply elem_of_difference in Hb as [_ Hb]. by apply not_elem_of_singleton in Hb.
Qed.

Lemma adaptive_first_word_witness :
  [0x1000; 0x1008] !! 0%nat = Some 0x1000.
Proof.
  apply (adaptive_first_word ex_image_alias ex_tbl0 ex_text [0x1000; 0x1008] 0x1000);
    [reflexivity|vm_compute; reflexivity|vm_compute; reflexivity|reflexivity].
Defined.

(** X12: the strict mode decodes the same word stream as the adaptive
    mode: for a declared size that is a multiple of the pointer width and
    fits the file, its result is the first size / pointer-width words that
    follow the table's offset, whether they point into the target section
    or not. *)
Theorem strict_is_prefix_of_words vmlinux tbl target_section :
  table_mode tbl = Strict →
  (sym_size tbl) `mod` Z.of_nat (long_size vmlinux) = 0 →
  Z.of_nat (vaddr_to_file_offset vmlinux (sym_vaddr tbl)) + sym_size tbl
    ≤ Z.of_nat (length (elf_file vmlinux)) →
  unpack_syscall_table vmlinux tbl target_section
  = Ok (take (Z.to_nat (sym_size tbl / Z.of_nat (long_size vmlinux)))
          (table_words vmlinux tbl)).
Proof.
  intros Hmode Hmod Hfile. unfold unpack_syscall_table. rewrite Hmode.
  apply table_mode_strict in Hmode.
  unfold iter_unpack_vmlinux_long_sized, file_read, table_words,
    iter_unpack_vmlinux_long_unsized.
  set (off := vaddr_to_file_offset vmlinux (sym_vaddr tbl)) in *.
  set (buf := drop off (elf_file vmlinux)).
  pose proof (long_size_pos vmlinux) as Hpos.
  assert (Hbuf : (Z.to_nat (sym_size tbl) ≤ length buf)%nat).
  { unfold buf. rewrite length_drop. lia. }
  assert (Hlen : length (take (Z.to_nat (sym_size tbl)) buf) = Z.to_nat (sym_size tbl)).
  { rewrite length_take. lia. }
  rewrite Hlen.
  assert (Hm : (Z.to_nat (sym_size tbl) mod long_size vmlinux = 0)%nat).
  { apply Nat2Z.inj. rewrite Nat2Z.inj_mod, Z2Nat.id by lia. exact Hmod. }
  rewrite Hm. simpl. f_equal.
  assert (Hn : Z.to_nat (sym_size tbl / Z.of_nat (long_size vmlinux))
               = (Z.to_nat (sym_size tbl) / long_size vmlinux)%nat).
  { apply Nat2Z.inj. rewrite Nat2Z.inj_div, !Z2Nat.id; [done|lia|].
    apply Z.div_pos; lia. }
  rewrite Hn.
  set (n := (Z.to_nat (sym_size tbl) / long_size vmlinux)%nat).
  assert (Hexact : (n * long_size vmlinux = Z.to_nat (sym_size tbl))%nat).
  { unfold n. pose proof (Nat.div_mod (Z.to_nat (sym_size tbl)) (long_size vmlinux)).
    lia. }
  rewrite words_take by lia. rewrite words_prefix; [done|].
  unfold n. apply Nat.Div0.div_le_mono. done.
Qed.

Lemma strict_is_prefix_of_words_witness :
  unpack_syscall_table ex_image136 ex_tbl136 ex_text
  = Ok (take 17 (table_words ex_image136 ex_tbl136)).
Proof.
  apply (strict_is_prefix_of_words ex_image136 ex_tbl136 ex_text);
    [reflexivity|reflexivity|vm_compute; discriminate].
Defined.

(** ** Function descriptors *)

Lemma translate_descriptors_acc vmlinux descriptors acc :
  translate_descriptors vmlinux descriptors acc
  = if bool_decide (Forall (λ d, length (vaddr_read vmlinux d (long_size vmlinux))
                                 = long_size vmlinux) descriptors)
    then Ok (acc ++ map (descriptor_target vmlinux) descriptors)
    else Raise StructError.
Proof.
  revert acc. induction descriptors as [|d descriptors IH]; intros acc.
  - cbn [translate_descriptors map]. rewrite app_nil_r.
    case_bool_decide as Hnil; [done|]. destruct Hnil. constructor.
  - cbn [translate_descriptors]. unfold unpack_long at 1.
    destruct (Nat.eqb_spec (length (vaddr_read vmlinux d (long_size vmlinux)))
                (long_size vmlinux)) as [Hd|Hd]; simpl.
    + rewrite IH. fold (descriptor_target vmlinux d).
      case_bool_decide as Hall.
      * rewrite bool_decide_eq_true_2 by (by constructor).
        by rewrite <- app_assoc.
      * rewrite bool_decide_eq_false_2; [done|].
        intros Hall'. apply Forall_cons in Hall' as [_ ?]. done.
    + rewrite bool_decide_eq_false_2; [done|].
      intros Hall'. apply Forall_cons in Hall' as [? _]. done.
Qed.

(** X13: the translation of function descriptors yields one code address
    per descriptor, in the order of the descriptors and whether or not the
    address points into the code section, exactly when every descriptor can
    be read in full; otherwise it raises [struct.error]. *)
Theorem translate_descriptors_map vmlinux descriptors :
  (∀ vaddrs,
     translate_descriptors vmlinux descriptors [] = Ok vaddrs
     ↔ Forall (λ d, length (vaddr_read vmlinux d (long_size vmlinux))
                    = long_size vmlinux) descriptors
       ∧ vaddrs = map (descriptor_target vmlinux) descriptors)
  ∧ (∀ e, translate_descriptors vmlinux descriptors [] = Raise e → e = StructError).
Proof.
  rewrite translate_descriptors_acc. simpl. split.
  - intros vaddrs. case_bool_decide as Hall; split.
    + by intros [= <-].
    + by intros [_ ->].
    + done.
    + by intros [? _].
  - intros e. case_bool_decide; [done|]. by intros [= <-].
Qed.

Lemma translate_descriptors_map_witness :
  translate_descriptors ex_image_opd [0x5000; 0x5010] [] = Ok [0x1010; 0x9abc]
  ∧ ∀ e, translate_descriptors ex_image_opd [0x5000; 0x6000] [] = Raise e
         → e = StructError.
Proof.
  split.
  - apply (proj2 (proj1 (translate_descriptors_map ex_image_opd [0x5000; 0x5010])
                    [0x1010; 0x9abc])).
    split; [repeat constructor|vm_compute; reflexivity].
  - exact (proj2 (translate_descriptors_map ex_image_opd [0x5000; 0x6000])).
Defined.

(** ** More on the symbol resolver *)

Section ResolverFacts.

Variable arch : Arch.
Variable vaddrs : list Z.
Variable ni_syscalls ni_iter : list Symbol.

Lemma symbols_by_vaddr_init_Some p :
  p ∈ ni_iter → is_Some (symbols_by_vaddr_init ni_iter !! sym_vaddr p).
Proof.
  generalize ni_iter. intros l.
  induction l as [|x l IH] using rev_ind; intros Hp.
  { by apply elem_of_nil in Hp. }
  rewrite symbols_by_vaddr_init_snoc.
  destruct (decide (sym_vaddr x = sym_vaddr p)) as [Heq|Hne].
  - rewrite Heq, lookup_insert_eq. by eexists.
  - rewrite lookup_insert_ne by done. apply IH.
    apply elem_of_app in Hp as [Hp|Hp]; [done|].
    apply list_elem_of_singleton in Hp. congruence.
Qed.

Lemma symbols_by_vaddr_init_lookup a s :
  symbols_by_vaddr_init ni_iter !! a = Some s → s ∈ ni_iter ∧ sym_vaddr s = a.
Proof.
  generalize ni_iter. intros l. revert s.
  induction l as [|x l IH] using rev_ind; intros s.
  { unfold symbols_by_vaddr_init. simpl. by rewrite lookup_empty. }
  rewrite symbols_by_vaddr_init_snoc.
  destruct (decide (sym_vaddr x = a)) as [Heq|Hne].
  - rewrite Heq, lookup_insert_eq. intros [= <-]. split; [|done].
    apply elem_of_app. right. apply list_elem_of_here.
  - rewrite lookup_insert_ne by done. intros Hs.
    destruct (IH s Hs) as [Hin Hva]. split; [|done]. apply elem_of_app. by left.
Qed.

(** An address that holds a symbol keeps holding one. *)
Lemma resolve_step_is_Some seen m sym a :
  is_Some (m !! a) → is_Some (resolve_step arch seen ni_syscalls m sym !! a).
Proof.
  intros Ha. unfold resolve_step. case_bool_decide; [|done].
  assert (Hins : ∀ s, is_Some (<[sym_vaddr sym := s]> m !! a)).
  { intros s. destruct (decide (sym_vaddr sym = a)) as [->|Hne].
    - rewrite lookup_insert_eq. by eexists.
    - by rewrite lookup_insert_ne. }
  destruct (m !! sym_vaddr sym); [|done].
  case_bool_decide; [done|]. destruct (_ && _); done.
Qed.

Lemma resolve_step_self seen m sym :
  sym_vaddr sym ∈ seen →
  is_Some (resolve_step arch seen ni_syscalls m sym !! sym_vaddr sym).
Proof.
  intros Hseen. unfold resolve_step. rewrite bool_decide_eq_true_2 by done.
  destruct (m !! sym_vaddr sym) as [other|] eqn:Hm.
  - case_bool_decide; [by rewrite Hm|].
    destruct (_ && _); [by rewrite Hm|]. rewrite lookup_insert_eq. by eexists.
  - rewrite lookup_insert_eq. by eexists.
Qed.

Lemma resolve_fold_is_Some seen symbols m a :
  is_Some (m !! a) →
  is_Some (foldl (resolve_step arch seen ni_syscalls) m symbols !! a).
Proof.
  revert m. induction symbols as [|sym symbols IH]; intros m Ha; simpl; [done|].
  apply IH. by apply resolve_step_is_Some.
Qed.

(** X14: the resolver leaves no address unresolved that it could resolve:
    every decoded address at which the image has a symbol, and every address
    of a placeholder, holds a symbol in the final map. *)
Theorem resolver_complete (symbols : list Symbol) :
  (∀ sym, sym ∈ symbols → sym_vaddr sym ∈ vaddrs →
     is_Some (resolve_symbols arch vaddrs ni_syscalls ni_iter symbols !! sym_vaddr sym))
  ∧ (∀ p, p ∈ ni_iter →
       is_Some (resolve_symbols arch vaddrs ni_syscalls ni_iter symbols !! sym_vaddr p)).
Proof.
  unfold resolve_symbols. split.
  - generalize (symbols_by_vaddr_init ni_iter).
    induction symbols as [|x symbols IH]; intros m sym Hin Hseen.
    { by apply elem_of_nil in Hin. }
    simpl. apply elem_of_cons in Hin as [->|Hin]; [|by apply IH].
    apply resolve_fold_is_Some, resolve_step_self.
    unfold seen_of. by apply elem_of_list_to_set.
  - intros p Hp. by apply resolve_fold_is_Some, symbols_by_vaddr_init_Some.
Qed.

Lemma map_sound_step known m sym :
  (∀ x y, preferred_symbol arch x y = x ∨ preferred_symbol arch x y = y) →
  known sym → map_sound vaddrs ni_iter known m →
  map_sound vaddrs ni_iter known (resolve_step arch (seen_of vaddrs) ni_syscalls m sym).
Proof.
  intros Hpref Hsym Hm. unfold resolve_step.
  case_bool_decide as Hseen; [|done].
  apply elem_of_list_to_set in Hseen.
  destruct (m !! sym_vaddr sym) as [other|] eqn:Hother.
  - case_bool_decide; [done|]. destruct (_ && _); [done|].
    intros a s. destruct (decide (sym_vaddr sym = a)) as [<-|Hne].
    + rewrite lookup_insert_eq. intros [= <-].
      destruct (Hm _ _ Hother) as (Hva & Hkn & _).
      destruct (Hpref sym other) as [->| ->]; auto.
    + rewrite lookup_insert_ne by done. apply Hm.
  - intros a s. destruct (decide (sym_vaddr sym = a)) as [<-|Hne].
    + rewrite lookup_insert_eq. intros [= <-]. auto.
    + rewrite lookup_insert_ne by done. apply Hm.
Qed.

Lemma map_sound_fold known l m :
  (∀ x y, preferred_symbol arch x y = x ∨ preferred_symbol arch x y = y) →
  (∀ x, x ∈ l → known x) → map_sound vaddrs ni_iter known m →
  map_sound vaddrs ni_iter known (foldl (resolve_step arch (seen_of vaddrs) ni_syscalls) m l).
Proof.
  intros Hpref. revert m. induction l as [|x l IH]; intros m Hall Hm; simpl; [done|].
  apply IH; [intros y Hy; apply Hall; by apply list_elem_of_further|].
  apply map_sound_step; [done| |done]. apply Hall, list_elem_of_here.
Qed.

(** X15: when the tie-break of the architecture returns one of the two
    symbols it is given, every entry of the final map sends an address to a
    symbol of the image, or a placeholder, that sits at that very address,
    and only decoded addresses and addresses of placeholders have an
    entry. *)
Theorem resolver_sound (symbols : list Symbol) :
  (∀ x y, preferred_symbol arch x y = x ∨ preferred_symbol arch x y = y) →
  ∀ a s, resolve_symbols arch vaddrs ni_syscalls ni_iter symbols !! a = Some s →
    sym_vaddr s = a
    ∧ (s ∈ ni_iter ∨ s ∈ symbols)
    ∧ (a ∈ vaddrs ∨ ∃ p, p ∈ ni_iter ∧ sym_vaddr p = a).
Proof.
  intros Hpref.
  cut (map_sound vaddrs ni_iter (λ s, s ∈ symbols)
         (resolve_symbols arch vaddrs ni_syscalls ni_iter symbols)); [done|].
  unfold resolve_symbols.
  assert (Hinit : map_sound vaddrs ni_iter (λ s, s ∈ symbols) (symbols_by_vaddr_init ni_iter)).
  { intros a s Hs. apply symbols_by_vaddr_init_lookup in Hs as [Hin Hva].
    split; [done|]. split; [by left|]. right. by exists s. }
  by apply map_sound_fold.
Qed.

End ResolverFacts.

Lemma resolver_complete_witness :
  is_Some (resolve_symbols (ex_arch "sys_esoteric") [0x1010; 0x1000] [ex_ni] [ex_ni]
             [ex_ni_alias; ex_ni; ex_read] !! 0x1010)
  ∧ is_Some (resolve_symbols (ex_arch "sys_esoteric") [0x1010; 0x1000] [ex_ni] [ex_ni]
               [ex_ni_alias; ex_ni; ex_read] !! 0x1000).
Proof.
  destruct (resolver_complete (ex_arch "sys_esoteric") [0x1010; 0x1000] [ex_ni] [ex_ni]
              [ex_ni_alias; ex_ni; ex_read]) as [Hsym Hni].
  split.
  - apply (Hsym ex_read).
    + apply list_elem_of_further, list_elem_of_further, list_elem_of_here.
    + apply list_elem_of_here.
  - apply (Hni ex_ni), list_elem_of_here.
Defined.

Lemma resolver_sound_witness :
  sym_vaddr ex_read = 0x1010
  ∧ (ex_read ∈ [ex_ni] ∨ ex_read ∈ dict_values ex_symbols)
  ∧ (0x1010 ∈ ex_vaddrs ∨ ∃ p, p ∈ [ex_ni] ∧ sym_vaddr p = 0x1010).
Proof.
  apply (resolver_sound (ex_arch "sys_esoteric") ex_vaddrs [ex_ni] [ex_ni]
           (dict_values ex_symbols) (λ x y, or_introl eq_refl) 0x1010 ex_read).
  vm_compute. reflexivity.
Defined.

(** ** The most frequent address *)

Lemma count_get_incr {K : Type} `{EqDecision K} (k k' : K) (c : list (K * Z)) :
  count_get k' (count_incr k c)
  = count_get k' c + (if decide (k' = k) then 1 else 0).
Proof.
  induction c as [|[k0 n] c IH]; simpl.
  - destruct (decide (k' = k)); lia.
  - destruct (decide (k = k0)) as [->|Hne]; simpl.
    + destruct (decide (k' = k0)); lia.
    + destruct (decide (k' = k0)) as [->|Hne'].
      * rewrite decide_False by done. lia.
      * apply IH.
Qed.

Lemma Counter_snoc {K : Type} `{EqDecision K} (l : list K) (k : K) :
  Counter (l ++ [k]) = count_incr k (Counter l).
Proof. unfold Counter. by rewrite foldl_app. Qed.

Lemma occurrences_snoc (k x : Z) (l : list Z) :
  occurrences k (l ++ [x]) = occurrences k l + (if decide (k = x) then 1 else 0).
Proof. induction l as [|y l IH]; simpl; [lia|]. rewrite IH. lia. Qed.

Lemma occurrences_nonneg (k : Z) (l : list Z) : 0 ≤ occurrences k l.
Proof. induction l as [|y l IH]; simpl; [lia|]. destruct (decide (k = y)); lia. Qed.

(** The counter records for every address the number of its occurrences. *)
Lemma count_get_Counter (k : Z) (l : list Z) :
  count_get k (Counter l) = occurrences k l.
Proof.
  induction l as [|x l IH] using rev_ind; [done|].
  by rewrite Counter_snoc, count_get_incr, occurrences_snoc, IH.
Qed.

Lemma count_incr_keys {K : Type} `{EqDecision K} (k : K) (c : list (K * Z)) :
  (count_incr k c).*1 = if decide (k ∈ c.*1) then c.*1 else c.*1 ++ [k].
Proof.
  induction c as [|[k0 n] c IH]; [done|]. cbn [count_incr].
  destruct (decide (k = k0)) as [->|Hne]; rewrite !fmap_cons; cbn [fst].
  - rewrite decide_True; [done|]. apply list_elem_of_here.
  - rewrite IH. destruct (decide (k ∈ c.*1)) as [Hin|Hnin].
    + rewrite decide_True; [done|]. by apply list_elem_of_further.
    + rewrite decide_False; [done|].
      intros Hin. apply elem_of_cons in Hin as [?|?]; done.
Qed.

Lemma Counter_keys (l : list Z) :
  NoDup (Counter l).*1 ∧ ∀ k, k ∈ (Counter l).*1 ↔ k ∈ l.
Proof.
  induction l as [|x l [IHnd IHin]] using rev_ind.
  { split; [constructor|]. intros k. done. }
  rewrite Counter_snoc, count_incr_keys.
  destruct (decide (x ∈ (Counter l).*1)) as [Hin|Hnin].
  - split; [done|]. intros k. rewrite IHin, elem_of_app, list_elem_of_singleton.
    split; [by left|]. intros [?| ->]; [done|]. by apply IHin.
  - split.
    + apply NoDup_app. split; [done|]. split; [|apply NoDup_singleton].
      intros k Hk Hk'. apply list_elem_of_singleton in Hk' as ->. done.
    + intros k. by rewrite !elem_of_app, IHin.
Qed.

Lemma count_get_elem_of {K : Type} `{EqDecision K} (k : K) (n : Z) (c : list (K * Z)) :
  NoDup c.*1 → (k, n) ∈ c → count_get k c = n.
Proof.
  induction c as [|[k0 n0] c IH]; intros Hnd Hin.
  { by apply elem_of_nil in Hin. }
  simpl in *. apply NoDup_cons in Hnd as [Hk0 Hnd].
  apply elem_of_cons in Hin as [[= -> ->]|Hin].
  - by rewrite decide_True.
  - destruct (decide (k = k0)) as [->|Hne]; [|by apply IH].
    destruct Hk0. apply list_elem_of_fmap. by exists (k0, n).
Qed.

Lemma sorted_insert_elem_of {K : Type} (x y : K * Z) (l : list (K * Z)) :
  y ∈ sorted_insert x l ↔ y = x ∨ y ∈ l.
Proof.
  induction l as [|z l IH]; simpl.
  - rewrite list_elem_of_singleton. split; [by left|]. intros [?|H]; [done|].
    by apply elem_of_nil in H.
  - destruct (z.2 <=? x.2); rewrite !elem_of_cons; [done|].
    rewrite IH. tauto.
Qed.

Lemma sorted_by_count_elem_of {K : Type} (y : K * Z) (items : list (K * Z)) :
  y ∈ sorted_by_count items ↔ y ∈ items.
Proof.
  unfold sorted_by_count. induction items as [|x items IH]; simpl; [done|].
  by rewrite sorted_insert_elem_of, elem_of_cons, IH.
Qed.

Lemma sorted_insert_sorted {K : Type} (x : K * Z) (l : list (K * Z)) :
  StronglySorted (λ a b, b.2 ≤ a.2) l →
  StronglySorted (λ a b, b.2 ≤ a.2) (sorted_insert x l).
Proof.
  induction 1 as [|z l Hl IH Hz]; simpl; [repeat constructor|].
  destruct (Z.leb_spec z.2 x.2) as [Hle|Hgt].
  - constructor; [by constructor|]. constructor; [done|].
    eapply Forall_impl; [exact Hz|]. simpl. intros. lia.
  - constructor; [done|]. apply Forall_forall. intros y Hy.
    apply sorted_insert_elem_of in Hy as [->|Hy]; [lia|].
    by apply (proj1 (Forall_forall _ _) Hz).
Qed.

(** The sorted items come by descending count. *)
Lemma sorted_by_count_sorted {K : Type} (items : list (K * Z)) :
  StronglySorted (λ a b, b.2 ≤ a.2) (sorted_by_count items).
Proof.
  unfold sorted_by_count. induction items as [|x items IH]; simpl; [constructor|].
  by apply sorted_insert_sorted.
Qed.

(** The head of the sorted counter is an address of the sequence that no
    other address outnumbers. *)
Lemma sorted_Counter_head (vaddrs : list Z) (va : Z) (n : Z) rest :
  sorted_by_count (Counter vaddrs) = (va, n) :: rest →
  va ∈ vaddrs ∧ n = occurrences va vaddrs
  ∧ ∀ v, occurrences v vaddrs ≤ occurrences va vaddrs.
Proof.
  intros Hhead. destruct (Counter_keys vaddrs) as [Hnd Hkeys].
  assert (Hin : (va, n) ∈ Counter vaddrs).
  { apply sorted_by_count_elem_of. rewrite Hhead. apply list_elem_of_here. }
  assert (Hn : n = occurrences va vaddrs).
  { rewrite <- count_get_Counter. symmetry. by apply count_get_elem_of. }
  split; [|split; [done|]].
  - apply Hkeys, list_elem_of_fmap. by exists (va, n).
  - intros v. rewrite <- Hn.
    destruct (decide (v ∈ vaddrs)) as [Hv|Hv].
    + apply Hkeys, list_elem_of_fmap in Hv as ([v' n'] & -> & Hv'). simpl.
      assert (Hn' : n' = occurrences v' vaddrs).
      { rewrite <- count_get_Counter. symmetry. by apply count_get_elem_of. }
      rewrite <- Hn'.
      pose proof (sorted_by_count_sorted (Counter vaddrs)) as Hs.
      rewrite Hhead in Hs. apply StronglySorted_cons in Hs as [Hall _].
      apply sorted_by_count_elem_of in Hv'. rewrite Hhead in Hv'.
      apply elem_of_cons in Hv' as [[= -> ->]|Hv']; [lia|].
      by apply (proj1 (Forall_forall _ _) Hall (v', n')).
    + assert (occurrences v vaddrs = 0) as ->.
      { clear -Hv. induction vaddrs as [|x l IH]; simpl; [done|].
        rewrite decide_False, IH; [done| |].
        - intros H. apply Hv. by apply list_elem_of_further.
        - intros ->. apply Hv. apply list_elem_of_here. }
      rewrite Hn. apply occurrences_nonneg.
Qed.

(** X16: the lookup of the most frequent address, which a non-empty decoded
    sequence with every address resolved always passes, yields the symbol of
    an address that occurs in the sequence at least as often as any other;
    it raises [KeyError] only when that address has no symbol. *)
Theorem most_frequent_spec (symbols_by_vaddr : gmap Z Symbol) (vaddrs : list Z) :
  vaddrs ≠ [] →
  ∃ va, va ∈ vaddrs
        ∧ (∀ v, occurrences v vaddrs ≤ occurrences va vaddrs)
        ∧ most_frequent symbols_by_vaddr vaddrs
          = match symbols_by_vaddr !! va with
            | Some best => Ok best
            | None => Raise KeyError
            end.
Proof.
  intros Hne. unfold most_frequent.
  destruct (sorted_by_count (Counter vaddrs)) as [|[va n] rest] eqn:Hsorted.
  - destruct vaddrs as [|v vaddrs]; [done|].
    destruct (Counter_keys (v :: vaddrs)) as [_ Hkeys].
    assert (Hv : v ∈ (Counter (v :: vaddrs)).*1) by apply Hkeys, list_elem_of_here.
    apply list_elem_of_fmap in Hv as (y & _ & Hy).
    apply sorted_by_count_elem_of in Hy. rewrite Hsorted in Hy.
    by apply elem_of_nil in Hy.
  - apply sorted_Counter_head in Hsorted as (Hin & _ & Hmax).
    exists va. done.
Qed.

Lemma most_frequent_spec_witness :
  ∃ va, va ∈ ex_vaddrs
        ∧ (∀ v, occurrences v ex_vaddrs ≤ occurrences va ex_vaddrs)
        ∧ most_frequent ex_map ex_vaddrs
          = match ex_map !! va with
            | Some best => Ok best
            | None => Raise KeyError
            end.
Proof. apply (most_frequent_spec ex_map ex_vaddrs). discriminate. Defined.

(** ** More on the extraction *)

Lemma length_defined_slots sbv ni idx vaddrs :
  (length (defined_slots sbv ni idx vaddrs) ≤ length vaddrs)%nat.
Proof. pose proof (slots_partition sbv ni idx vaddrs). lia. Qed.

Lemma length_filter_le {A : Type} (P : A → Prop) `{∀ x, Decision (P x)} (l : list A) :
  (length (filter P l) ≤ length l)%nat.
Proof.
  induction l as [|x l IH]; [done|]. rewrite filter_cons.
  destruct (decide (P x)); simpl; lia.
Qed.

Lemma StronglySorted_lt_NoDup {A : Type} (f : A → Z) (l : list A) :
  StronglySorted (λ a b, f a < f b) l → NoDup (map f l).
Proof.
  induction 1 as [|x l Hl IH Hx]; simpl; constructor; [|done].
  change (map f l) with (f <$> l). intros Hin.
  apply list_elem_of_fmap in Hin as (y & Hy & Hin).
  pose proof (proj1 (Forall_forall _ _) Hx y Hin) as Hlt. simpl in Hlt. lia.
Qed.

Section ExtractionMoreFacts.

Variable common_syscall_symbol_prefixes : list string → Z → list string.
Variable noprefix : string → list string → string.
Variable kconfig_syscall_deps : string → KernelVersion → KconfigDeps.
Variable path_match : Path → string → bool.
Variable locations_of :
  list Syscall → ELF → option Path → option Path → Arch → nat
  → option Path * option Z * bool.
Variable signatures_of : list Syscall → ELF → bool → nat → option Signature.
Variable self_kdir self_rdir : option Path.
Variable arch : Arch.
Variable vmlinux : ELF.
Variable symbols_by_vaddr : gmap Z Symbol.
Variable ni_syscalls : list Symbol.
Variable vaddrs : list Z.

Local Abbreviation built' version :=
  (built_of_run common_syscall_symbol_prefixes noprefix kconfig_syscall_deps version
     arch symbols_by_vaddr ni_syscalls vaddrs).
Local Abbreviation run' self_version :=
  (syscalls_of_resolved common_syscall_symbol_prefixes noprefix kconfig_syscall_deps
     path_match locations_of signatures_of self_kdir self_rdir self_version
     arch vmlinux symbols_by_vaddr ni_syscalls vaddrs).

(** The parts of a returned list: enriched copies of the kept table
    syscalls that passed the filter, then enriched copies of the hardcoded
    ones. *)
Lemma syscalls_of_resolved_parts version l :
  run' (Ok version) = Ok l →
  ∃ K E extra,
    l = filter (λ sc, is_implemented path_match arch vmlinux sc = true) K ++ E
    ∧ Forall2 same_identity
        (filter (λ sc, skip_syscall arch sc = false) (built' version)) K
    ∧ Forall2 same_identity extra E
    ∧ esoteric_list vmlinux (esoteric_syscalls arch version) = Ok extra.
Proof.
  unfold syscalls_of_resolved. rewrite normalize_unfold.
  destruct (esoteric_list vmlinux (esoteric_syscalls arch version))
    as [extra|e] eqn:Hextra; simpl; [|done].
  destruct (Nat.eqb _ 0); simpl; [|done].
  intros [= <-].
  pose proof (enriched_identity arch vmlinux locations_of signatures_of
    self_kdir self_rdir
    (filter (λ sc, skip_syscall arch sc = false) (built' version) ++ extra)) as Hid.
  unfold enriched in Hid.
  apply Forall2_app_inv_l in Hid as (K & E & HK & HE & ->).
  rewrite implementation_filter_filter, filter_app.
  assert (Hall : Forall (λ sc, is_implemented path_match arch vmlinux sc = true) E).
  { apply esoteric_list_Forall2 in Hextra.
    apply Forall_forall. intros sc Hsc.
    apply list_elem_of_lookup in Hsc as [i Hi].
    destruct (Forall2_lookup_r _ _ _ _ _ HE Hi) as (sc0 & Hsc0 & Hsame).
    destruct (Forall2_lookup_r _ _ _ _ _ Hextra Hsc0) as (e & _ & sym & _ & ->).
    apply is_implemented_esoteric.
    destruct Hsame as (_ & _ & _ & _ & _ & _ & <-). done. }
  rewrite (filter_all _ E Hall). by exists K, E, extra.
Qed.

(** X17: no syscall of the output that comes from the table is backed by
    a placeholder symbol, and none is one that the architecture asked to
    skip. *)
Theorem output_excludes_placeholders_and_skipped version l sc :
  run' (Ok version) = Ok l → sc ∈ l → sc_esoteric sc = false →
  (sc_symbol sc ∉ ni_syscalls)
  ∧ ∃ sc0, same_identity sc0 sc ∧ sc0 ∈ built' version
           ∧ skip_syscall arch sc0 = false.
Proof.
  intros Hrun Hsc Hes.
  destruct (syscalls_of_resolved_parts version l Hrun)
    as (K & E & extra & -> & HK & HE & Hextra).
  apply elem_of_app in Hsc as [Hsc|Hsc].
  - apply list_elem_of_filter in Hsc as [_ Hsc].
    apply list_elem_of_lookup in Hsc as [i Hi].
    destruct (Forall2_lookup_r _ _ _ _ _ HK Hi) as (sc0 & Hsc0 & Hsame).
    assert (Hin0 : sc0 ∈ filter (λ sc, skip_syscall arch sc = false) (built' version)).
    { apply list_elem_of_lookup. by exists i. }
    apply list_elem_of_filter in Hin0 as [Hskip Hin0].
    split; [|by exists sc0].
    unfold built_of_run in Hin0. change (map ?f ?l) with (f <$> l) in Hin0.
    apply list_elem_of_fmap in Hin0 as ([idx sym] & -> & Hslot).
    apply defined_slots_lookup in Hslot as (_ & v & _ & _ & Hni).
    destruct Hsame as (_ & _ & _ & _ & <- & _). done.
  - exfalso. apply esoteric_list_Forall2 in Hextra.
    apply list_elem_of_lookup in Hsc as [i Hi].
    destruct (Forall2_lookup_r _ _ _ _ _ HE Hi) as (sc0 & Hsc0 & Hsame).
    destruct (Forall2_lookup_r _ _ _ _ _ Hextra Hsc0) as (e & _ & sym & _ & ->).
    destruct Hsame as (_ & _ & _ & _ & _ & _ & Hflag). simpl in Hflag. congruence.
Qed.

(** X18: the output is never longer than the decoded sequence plus the
    hardcoded entries. *)
Theorem output_length_bound version l :
  run' (Ok version) = Ok l →
  (length l ≤ length vaddrs + length (esoteric_syscalls arch version))%nat.
Proof.
  intros Hrun.
  destruct (syscalls_of_resolved_parts version l Hrun)
    as (K & E & extra & -> & HK & HE & Hextra).
  apply esoteric_list_Forall2, Forall2_length in Hextra.
  apply Forall2_length in HK, HE.
  rewrite length_app.
  pose proof (length_filter_le
    (λ sc, is_implemented path_match arch vmlinux sc = true) K).
  pose proof (length_filter_le (λ sc, skip_syscall arch sc = false) (built' version)).
  pose proof (length_defined_slots symbols_by_vaddr ni_syscalls 0 vaddrs).
  unfold built_of_run in *. rewrite length_map in *. lia.
Qed.

(** X19: the syscalls of the output that come from the table have pairwise
    distinct numbers. *)
Theorem table_numbers_distinct version l :
  run' (Ok version) = Ok l →
  NoDup (map sc_number (filter (λ sc, sc_esoteric sc = false) l)).
Proof.
  intros Hrun.
  destruct (syscalls_of_resolved_Ok _ _ _ _ _ _ _ _ _ _ _ _ _ _ l Hrun)
    as (T & E & -> & HT & Hsorted & HE).
  rewrite filter_app.
  assert (HTf : filter (λ sc, sc_esoteric sc = false) T = T).
  { apply filter_all. eapply Forall_impl; [exact HT|]. by intros sc [Hsc _]. }
  assert (HEf : filter (λ sc, sc_esoteric sc = false) E = []).
  { clear -HE. induction HE as [|e sc es E (Hsc & _) _ IH]; [done|].
    rewrite filter_cons, decide_False by congruence. done. }
  rewrite HTf, HEf, app_nil_r.
  apply StronglySorted_lt_NoDup.
  clear -HT Hsorted. induction Hsorted as [|x T Hs IH Hx]; [constructor|].
  apply Forall_cons in HT as [Hxe HT]. constructor; [by apply IH|].
  apply Forall_forall. intros y Hy.
  pose proof (proj1 (Forall_forall _ _) Hx y Hy) as Hlt.
  pose proof (proj1 (Forall_forall _ _) HT y Hy) as Hye.
  destruct Hxe as (_ & i & _ & Hi & _ & _ & ->).
  destruct Hye as (_ & j & _ & Hj & _ & _ & ->).
  unfold slot_before in Hlt. rewrite Hi, Hj in Hlt. lia.
Qed.

Lemma build_syscalls_version_raise e prefixes symbols syscalls n_skipped :
  build_syscalls noprefix kconfig_syscall_deps (Raise e) arch prefixes symbols
    syscalls n_skipped
  = match symbols with
    | [] => Ok (syscalls, n_skipped)
    | _ => Raise e
    end.
Proof. by destruct symbols. Qed.

(** X20: when reading [self.version] raises and at least one slot of the
    decoded sequence holds a defined syscall, the second half of the
    extraction raises that exception at the first such slot: no list is
    returned without a version. *)
Theorem syscalls_of_resolved_version_raise e :
  defined_slots symbols_by_vaddr ni_syscalls 0 vaddrs ≠ [] →
  syscalls_of_resolved common_syscall_symbol_prefixes noprefix kconfig_syscall_deps
    path_match locations_of signatures_of self_kdir self_rdir (Raise e)
    arch vmlinux symbols_by_vaddr ni_syscalls vaddrs
  = Raise e.
Proof.
  intros Hne. unfold syscalls_of_resolved, normalize.
  pose proof (filter_defined_symbols symbols_by_vaddr ni_syscalls 0 vaddrs [] [])
    as Hsymbols.
  destruct (filter_defined _ _ _ _ _ _) as [symbols ni_count].
  simpl in Hsymbols. subst symbols.
  rewrite build_syscalls_version_raise.
  by destruct (defined_slots symbols_by_vaddr ni_syscalls 0 vaddrs).
Qed.

End ExtractionMoreFacts.

Lemma syscalls_of_resolved_version_raise_witness :
  syscalls_of_resolved (λ _ _, ["__x64_sys_"%string]) ex_noprefix (λ _ _, [])
    (λ _ _, false) (λ _ _ _ _ _ _, (None, None, false))
    (λ l _ _ i, l !! i ≫= sc_signature) None None (Raise KernelVersionError)
    (ex_arch "sys_esoteric") ex_vmlinux ex_map [ex_ni] ex_vaddrs
  = Raise KernelVersionError.
Proof.
  apply (syscalls_of_resolved_version_raise (λ _ _, ["__x64_sys_"%string])
           ex_noprefix (λ _ _, []) (λ _ _, false) (λ _ _ _ _ _ _, (None, None, false))
           (λ l _ _ i, l !! i ≫= sc_signature) None None (ex_arch "sys_esoteric")
           ex_vmlinux ex_map [ex_ni] ex_vaddrs KernelVersionError).
  vm_compute. discriminate.
Defined.

Lemma output_excludes_placeholders_and_skipped_witness :
  (sc_symbol ex_sc_write ∉ [ex_ni])
  ∧ ∃ sc0, same_identity sc0 ex_sc_write
           ∧ sc0 ∈ built_of_run (λ _ _, ["__x64_sys_"%string]) ex_noprefix (λ _ _, [])
                     ex_version (ex_arch "sys_esoteric") ex_map [ex_ni] ex_vaddrs
           ∧ skip_syscall (ex_arch "sys_esoteric") sc0 = false.
Proof.
  apply (output_excludes_placeholders_and_skipped (λ _ _, ["__x64_sys_"%string])
           ex_noprefix (λ _ _, []) (λ _ _, false) (λ _ _ _ _ _ _, (None, None, false))
           (λ l _ _ i, l !! i ≫= sc_signature) None None (ex_arch "sys_esoteric")
           ex_vmlinux ex_map [ex_ni] ex_vaddrs ex_version ex_output ex_sc_write).
  - vm_compute. reflexivity.
  - apply list_elem_of_further, list_elem_of_here.
  - reflexivity.
Defined.

Lemma output_length_bound_witness :
  (length ex_output
   ≤ length ex_vaddrs + length (esoteric_syscalls (ex_arch "sys_esoteric") ex_version))%nat.
Proof.
  apply (output_length_bound (λ _ _, ["__x64_sys_"%string])
           ex_noprefix (λ _ _, []) (λ _ _, false) (λ _ _ _ _ _ _, (None, None, false))
           (λ l _ _ i, l !! i ≫= sc_signature) None None (ex_arch "sys_esoteric")
           ex_vmlinux ex_map [ex_ni] ex_vaddrs ex_version ex_output).
  vm_compute. reflexivity.
Defined.

Lemma table_numbers_distinct_witness :
  NoDup (map sc_number (filter (λ sc, sc_esoteric sc = false) ex_output)).
Proof.
  apply (table_numbers_distinct (λ _ _, ["__x64_sys_"%string])
           ex_noprefix (λ _ _, []) (λ _ _, false) (λ _ _ _ _ _ _, (None, None, false))
           (λ l _ _ i, l !! i ≫= sc_signature) None None (ex_arch "sys_esoteric")
           ex_vmlinux ex_map [ex_ni] ex_vaddrs ex_version ex_output).
  vm_compute. reflexivity.
Defined.

(** X21: the conditions under which a run gives up. A width mismatch
    between architecture and image, a missing table symbol, or (for an
    architecture with function descriptors) a missing [.opd] section make
    the run return the empty list; an image with the table symbol but
    without a [.text] section makes the run raise [KeyError]; and, without
    function descriptors, a table from which no address is decoded or an
    image without any placeholder function make the run return the empty
    list. With or without descriptors, a run without placeholder returns no
    syscall. *)
Theorem extract_syscalls_gives_up
    (adjust_abi : Arch → ELF → Arch) (set_order : list Symbol → list Symbol)
    (common_syscall_symbol_prefixes : list string → Z → list string)
    (noprefix : string → list string → string)
    (kconfig_syscall_deps : string → KernelVersion → KconfigDeps)
    (path_match : Path → string → bool)
    (locations_of : list Syscall → ELF → option Path → option Path → Arch → nat
                    → option Path * option Z * bool)
    (signatures_of : list Syscall → ELF → bool → nat → option Signature)
    (self_kdir self_rdir : option Path) (self_version : result KernelVersion)
    (arch0 : Arch) (vmlinux : ELF) :
  let run :=
    extract_syscalls adjust_abi set_order common_syscall_symbol_prefixes
      noprefix kconfig_syscall_deps path_match locations_of signatures_of
      self_kdir self_rdir self_version arch0 vmlinux in
  let arch := adjust_abi arch0 vmlinux in
  (arch_bits32 arch0 ≠ bits32 vmlinux → run = Ok [])
  ∧ (arch_bits32 arch0 = bits32 vmlinux →
     (dict_get (syscall_table_name arch) (elf_symbols vmlinux) = None → run = Ok [])
     ∧ (∀ tbl, dict_get (syscall_table_name arch) (elf_symbols vmlinux) = Some tbl →
        (dict_get ".text" (elf_sections vmlinux) = None → run = Raise KeyError)
        ∧ (∀ text, dict_get ".text" (elf_sections vmlinux) = Some text →
           (uses_function_descriptors arch = true →
            dict_get ".opd" (elf_sections vmlinux) = None → run = Ok [])
           ∧ (uses_function_descriptors arch = false →
              ∀ vaddrs, unpack_syscall_table vmlinux tbl text = Ok vaddrs →
                vaddrs = [] ∨ find_ni_syscalls arch vmlinux = [] → run = Ok []))))
  ∧ (find_ni_syscalls arch vmlinux = [] → ∀ l, run = Ok l → l = []).
Proof.
  intros run arch. subst run. unfold extract_syscalls. fold arch.
  split; [|split].
  - intros Hne. destruct (arch_bits32 arch0), (bits32 vmlinux); done.
  - intros ->. rewrite Bool.eqb_reflx. simpl. split.
    + by intros ->.
    + intros tbl ->. split.
      * intros Htext. unfold dict_index. by rewrite Htext.
      * intros text Htext. unfold dict_index. rewrite Htext. simpl. split.
        -- intros Hdesc Hopd. by rewrite Hdesc, Hopd.
        -- intros Hdesc vaddrs Hrun Hgive. rewrite Hdesc, Hrun. simpl.
           destruct Hgive as [->|Hni]; [done|]. rewrite Hni. by destruct vaddrs.
  - intros Hni l. rewrite Hni.
    destruct (negb _); [by intros [= <-]|].
    destruct (dict_get (syscall_table_name _) _) as [tbl|]; [|by intros [= <-]].
    destruct (dict_index ".text" (elf_sections vmlinux)) as [text|]; simpl; [|done].
    match goal with
    | |- bind ?d _ = _ → _ => destruct d as [[[|v vs]|]|]; simpl
    end; try done; by intros [= <-].
Qed.

Lemma extract_syscalls_gives_up_witness :
  ex_extract (Ok ex_version) (ex_arch "sys_esoteric") ex_image_no_table = Ok []
  ∧ ex_extract (Ok ex_version) (ex_arch "sys_esoteric") ex_image_no_text
    = Raise KeyError
  ∧ ex_extract (Ok ex_version) (ex_arch "sys_esoteric") ex_image_bad_pointer = Ok []
  ∧ ex_extract (Ok ex_version) (ex_arch "sys_esoteric") ex_image_no_placeholder
    = Ok [].
Proof.
  pose proof (λ arch0 vmlinux,
    extract_syscalls_gives_up (λ a _, a) (λ l, l)
      (λ _ _, ["__x64_sys_"%string]) ex_noprefix (λ _ _, []) (λ _ _, false)
      (λ _ _ _ _ _ _, (None, None, false)) (λ l _ _ i, l !! i ≫= sc_signature)
      None None (Ok ex_version) arch0 vmlinux) as H.
  split; [|split; [|split]].
  - destruct (H (ex_arch "sys_esoteric") ex_image_no_table) as (_ & Htable & _).
    destruct (Htable eq_refl) as [Hnone _]. apply Hnone. reflexivity.
  - destruct (H (ex_arch "sys_esoteric") ex_image_no_text) as (_ & Htable & _).
    destruct (Htable eq_refl) as [_ Hsome].
    destruct (Hsome ex_tbl eq_refl) as [Hnotext _]. apply Hnotext. reflexivity.
  - destruct (H (ex_arch "sys_esoteric") ex_image_bad_pointer) as (_ & Htable & _).
    destruct (Htable eq_refl) as [_ Hsome].
    destruct (Hsome ex_tbl eq_refl) as [_ Htext].
    destruct (Htext ex_text eq_refl) as [_ Hplain].
    apply (Hplain eq_refl []); [vm_compute; reflexivity|by left].
  - destruct (H (ex_arch "sys_esoteric") ex_image_no_placeholder)
      as (_ & Htable & _).
    destruct (Htable eq_refl) as [_ Hsome].
    destruct (Hsome ex_tbl eq_refl) as [_ Htext].
    destruct (Htext ex_text eq_refl) as [_ Hplain].
    apply (Hplain eq_refl [0x1010; 0x1020; 0x1010; 0x1020]);
      [vm_compute; reflexivity|by right].
Defined.

(** ** More on the kernel builder *)

Lemma tuple_ge_3_7 (a b : Z) (rest : list Z) :
  tuple_ge (a :: b :: rest) [3; 7] = bool_decide (3 < a ∨ (a = 3 ∧ 7 ≤ b)).
Proof.
  simpl. destruct (Z.ltb_spec 3 a); [by rewrite bool_decide_eq_true_2 by lia|].
  destruct (Z.ltb_spec a 3); [by rewrite bool_decide_eq_false_2 by lia|].
  destruct (Z.ltb_spec 7 b); [by rewrite bool_decide_eq_true_2 by lia|].
  destruct (Z.ltb_spec b 7); [by rewrite bool_decide_eq_false_2 by lia|].
  rewrite bool_decide_eq_true_2 by lia. by destruct rest.
Qed.

Lemma ensures_bind {World A B : Type} (P : Kernel → World → Prop)
    (m : method World A) (Q : result A → Kernel → World → Prop)
    (k : A → method World B) (R : result B → Kernel → World → Prop) :
  ensures P m Q →
  (∀ a, ensures (Q (Ok a)) (k a) R) →
  (∀ e self w, Q (Raise e) self w → R (Raise e) self w) →
  ensures P (mbind World m k) R.
Proof.
  intros Hm Hk He self w HP. specialize (Hm self w HP). unfold mbind.
  destruct (m self w) as [[[a|e] self1] w1]; simpl in *.
  - by apply Hk.
  - by apply He.
Qed.

Lemma ensures_weaken {World A : Type} (P P' : Kernel → World → Prop)
    (m : method World A) (Q Q' : result A → Kernel → World → Prop) :
  ensures P m Q → (∀ self w, P' self w → P self w) →
  (∀ r self w, Q r self w → Q' r self w) → ensures P' m Q'.
Proof. intros Hm HP HQ self w H. apply HQ, Hm, HP, H. Qed.

Section KernelBuilderFacts.

Variable World : Type.
Variable Time : Type.
Variable monotonic : World → Time.
Variable time_sub : Time → Time → Time.
Variable sched_getaffinity : World → nat.
Variable high_verbosity : World → bool.
Variable path_join : Path → string → Path.
Variable path_absolute : Path → Path.
Variable ensure_command :
  list string → option Path → option string → bool → bool → World
  → result string * World.
Variable run_command :
  list string → option Path → option string → bool → World → Z * World.
Variable read_file : Path → World → result string.
Variable write_file : Path → string → World → World.
Variable search_kbuild_cflags : string → option (nat * nat).
Variable atexit_register : World → World.
Variable atexit_unregister : World → World.
Variable edit_config :
  option Path → Path → Kconfig → World → result unit * World.
Variable edit_config_check_deps :
  option Path → Path → Kconfig → World → result unit * World.
Variable kconfig_debugging : KernelVersion → Kconfig.
Variable kconfig_compatibility : KernelVersion → Kconfig.
Variable kconfig_more_syscalls : KernelVersion → Kconfig.

Local Abbreviation make' :=
  (make World sched_getaffinity high_verbosity path_absolute ensure_command
     run_command).
Local Abbreviation sync_config' :=
  (sync_config World sched_getaffinity high_verbosity path_absolute ensure_command
     run_command).
Local Abbreviation clean' :=
  (clean World sched_getaffinity high_verbosity path_absolute ensure_command
     run_command).
Local Abbreviation configure' :=
  (configure World sched_getaffinity high_verbosity path_join path_absolute
     ensure_command run_command edit_config edit_config_check_deps
     kconfig_debugging kconfig_compatibility kconfig_more_syscalls).
Local Abbreviation build' :=
  (build World Time monotonic time_sub sched_getaffinity high_verbosity path_join
     path_absolute ensure_command run_command read_file write_file
     search_kbuild_cflags atexit_register atexit_unregister).
Local Abbreviation try_set' :=
  (try_set_optimization_level World path_join read_file write_file
     search_kbuild_cflags).
Local Abbreviation restore' :=
  (restore_makefile World path_join write_file atexit_unregister).

Lemma make_without_kdir target stdin ensure self w :
  kdir self = None → make' target stdin ensure self w = (Raise AttributeError, self, w).
Proof.
  intros Hk. unfold make, mbind, get_self, get_world, raise. simpl. by rewrite Hk.
Qed.

(** X22: on an object without a source tree the builder runs no command
    and touches no file: [clean] and a plain [build] raise
    [AttributeError], a [build] that tries to disable optimisations and a
    [configure] without output directory raise [TypeError]; the cached
    version is already reset, except when [configure] fails on the path of
    its configuration file. *)
Theorem builder_without_kdir self w :
  kdir self = None →
  clean' self w = (Raise AttributeError, set_version None self, w)
  ∧ build' false self w = (Raise AttributeError, set_version None self, w)
  ∧ build' true self w = (Raise TypeError, set_version None self, w)
  ∧ configure' self w
    = match outdir self with
      | Some _ => (Raise AttributeError, set_version None self, w)
      | None => (Raise TypeError, self, w)
      end.
Proof.
  intros Hk. repeat split.
  - unfold clean, mbind at 1, modify at 1. unfold mbind at 1.
    by rewrite make_without_kdir.
  - unfold build. cbv zeta. unfold mbind at 1, get_world at 1.
    unfold mbind at 1, modify at 1. unfold mbind at 1.
    by rewrite make_without_kdir.
  - unfold build. cbv zeta. unfold mbind at 1, get_world at 1.
    unfold mbind at 1, modify at 1. unfold mbind at 1.
    unfold try_set_optimization_level, mbind, get_self, raise. simpl.
    by rewrite Hk.
  - unfold configure. rewrite bind_get_self. rewrite Hk.
    destruct (outdir self) as [o|]; [|done].
    unfold mbind at 1, modify at 1. unfold mbind at 1.
    by rewrite make_without_kdir.
Qed.

(** X23: with a version cached, [sync_config] runs the target
    [olddefconfig] exactly for kernels from 3.7 on, and [oldconfig] fed
    with a thousand newlines for older ones. *)
Theorem sync_config_target self w (a b : Z) (rest : list Z) :
  Kernel__version self = Some (a :: b :: rest) →
  sync_config' self w
  = if bool_decide (3 < a ∨ (a = 3 ∧ 7 ≤ b))
    then mbind World (make' "olddefconfig" None true) (λ _, ret World tt) self w
    else mbind World (make' "oldconfig" (Some (newlines 1000)) true)
           (λ _, ret World tt) self w.
Proof.
  intros Hv. unfold sync_config. unfold mbind at 1.
  rewrite (version_hit World ensure_command self w _ Hv).
  rewrite tuple_ge_3_7. by case_bool_decide.
Qed.

(** The world of the build: writing a file and reading it back gives what
    was written, and neither the commands nor the [atexit] registry change
    the files this module reads; the pattern is not found in an empty
    Makefile. *)
Hypothesis read_write : ∀ p s w, read_file p (write_file p s w) = Ok s.
Hypothesis run_keeps_files :
  ∀ cmd cwd stdin v w p,
    read_file p (run_command cmd cwd stdin v w).2 = read_file p w.
Hypothesis ensure_keeps_files :
  ∀ cmd cwd stdin c v w p,
    read_file p (ensure_command cmd cwd stdin c v w).2 = read_file p w.
Hypothesis register_keeps_files :
  ∀ w p, read_file p (atexit_register w) = read_file p w.
Hypothesis unregister_keeps_files :
  ∀ w p, read_file p (atexit_unregister w) = read_file p w.
Hypothesis search_empty : search_kbuild_cflags EmptyString = None.

Variable d : Path.
Variable data : string.

Local Abbreviation intact := (makefile_intact World path_join read_file d data).
Local Abbreviation backed_up :=
  (makefile_backed_up World path_join read_file d data).

Lemma try_set_ensures lvl :
  ensures intact (try_set' lvl)
    (λ r self w,
       match r with
       | Ok patched => backed_up self w ∧ (patched = false → intact self w)
       | Raise _ => intact self w
       end).
Proof.
  intros self w [Hk Hread].
  unfold try_set_optimization_level, mbind, get_self, get_world, modify,
    modify_world, ret, raise. simpl. rewrite Hk. simpl. rewrite Hread. simpl.
  destruct (search_kbuild_cflags data) as [[start stop]|] eqn:Hsearch; simpl.
  - split; [|done]. split; [done|]. split; [done|].
    intros ->. by rewrite search_empty in Hsearch.
  - split; [|done]. split; [done|]. split; [done|]. done.
Qed.

(** [make] leaves the object and the files as they are; without [ensure]
    it returns the exit status. *)
Lemma make_frame target stdin ensure self w :
  kdir self = Some d →
  (make' target stdin ensure self w).1.2 = self
  ∧ (∀ p, read_file p (make' target stdin ensure self w).2 = read_file p w)
  ∧ (ensure = false → ∃ res, (make' target stdin ensure self w).1.1 = Ok res).
Proof.
  intros Hk. unfold make, mbind, get_self, get_world, raise. simpl. rewrite Hk.
  destruct ensure.
  - destruct (ensure_command _ _ _ _ _ _) as [r w'] eqn:Hrun.
    match type of Hrun with
    | ensure_command ?c ?cwd ?i ?a ?v ?w0 = _ =>
        pose proof (λ p, ensure_keeps_files c cwd i a v w0 p) as Hkeep
    end.
    rewrite Hrun in Hkeep. simpl in Hkeep. by destruct r.
  - destruct (run_command _ _ _ _ _) as [res w'] eqn:Hrun.
    match type of Hrun with
    | run_command ?c ?cwd ?i ?v ?w0 = _ =>
        pose proof (λ p, run_keeps_files c cwd i v w0 p) as Hkeep
    end.
    rewrite Hrun in Hkeep. simpl in *. split; [done|]. split; [done|]. by eexists.
Qed.

Lemma make_run_ensures target stdin :
  ensures backed_up (make' target stdin false)
    (λ r self w, backed_up self w ∧ ∃ res, r = Ok res).
Proof.
  intros self w (Hk & Hb & Hfile).
  destruct (make_frame target stdin false self w Hk) as (Hself & Hkeep & Hok).
  rewrite Hself. split; [|by apply Hok]. split; [done|]. split; [done|].
  intros He. rewrite Hkeep. by apply Hfile.
Qed.

Lemma make_ensure_ensures target stdin :
  ensures intact (make' target stdin true) (λ _ self w, intact self w).
Proof.
  intros self w [Hk Hread].
  destruct (make_frame target stdin true self w Hk) as (Hself & Hkeep & _).
  rewrite Hself. split; [done|]. by rewrite Hkeep.
Qed.

Lemma restore_ensures :
  ensures backed_up restore' (λ r self w, intact self w ∧ r = Ok tt).
Proof.
  intros self w (Hk & Hb & Hfile).
  unfold restore_makefile, mbind, get_self, modify_world, raise, ret. simpl.
  rewrite Hb. destruct data as [|c rest] eqn:Hdata; simpl.
  - split; [|done]. split; [done|]. rewrite unregister_keeps_files. by apply Hfile.
  - rewrite Hk. simpl. split; [|done]. split; [done|].
    by rewrite unregister_keeps_files, read_write.
Qed.

Lemma ensures_get_world {A : Type} (P : Kernel → World → Prop)
    (k : World → method World A) (Q : result A → Kernel → World → Prop) :
  (∀ w0, ensures P (k w0) Q) → ensures P (mbind World (get_world World) k) Q.
Proof. intros H self w HP. exact (H w self w HP). Qed.

Lemma finish_ensures start :
  ensures intact
    (mbind World (get_world World)
       (λ w, ret World (time_sub (monotonic w) start)))
    (λ _ self w, intact self w).
Proof. by intros self w H. Qed.

Lemma normal_build_ensures start :
  ensures intact
    (mbind World (make' "vmlinux" None true)
       (λ _, mbind World (get_world World)
               (λ w, ret World (time_sub (monotonic w) start))))
    (λ _ self w, intact self w).
Proof.
  eapply ensures_bind; [apply make_ensure_ensures| |done].
  intros a. apply finish_ensures.
Qed.

(** One attempt, from the build to the restore: the Makefile is intact
    when the rest of [build] goes on. *)
Lemma attempt_ensures {A : Type} (k : Z → method World A)
    (R : result A → Kernel → World → Prop) :
  (∀ res, ensures intact (k res) R) →
  ensures backed_up
    (mbind World (make' "vmlinux" None false)
       (λ res, mbind World restore' (λ _, k res))) R.
Proof.
  intros Hk.
  eapply ensures_bind; [apply make_run_ensures| |].
  - intros res. eapply ensures_bind.
    + eapply ensures_weaken; [apply restore_ensures| |intros r self w H; exact H].
      by intros self w [H _].
    + intros []. eapply ensures_weaken; [apply Hk| |done]. by intros self w [H _].
    + intros e self w [_ [=]].
  - intros e self w [_ [res [=]]].
Qed.

Lemma build_ensures try_disable_opt :
  ensures intact (build' try_disable_opt) (λ _ self w, intact self w).
Proof.
  unfold build. cbv zeta. apply ensures_get_world. intros w0.
  eapply ensures_bind with (Q := λ r self w, intact self w ∧ r = Ok tt).
  { by intros self w H. }
  2:{ intros e self w [_ [=]]. }
  intros [].
  eapply ensures_weaken with (P := intact) (Q := λ _ self w, intact self w);
    [|by intros self w [H _]|done].
  destruct try_disable_opt; [|apply normal_build_ensures].
  eapply ensures_bind; [apply try_set_ensures| |by intros e self w H].
  intros [].
  - eapply ensures_weaken with (P := backed_up) (Q := λ _ self w, intact self w);
      [|by intros self w [H _]|done].
    eapply ensures_bind with (Q := λ r self w, backed_up self w ∧ r = Ok tt).
    { intros self w (Hk & Hb & Hfile). simpl. split; [|done].
      split; [done|]. split; [done|]. intros He. rewrite register_keeps_files.
      by apply Hfile. }
    2:{ intros e self w [_ [=]]. }
    intros [].
    eapply ensures_weaken with (P := backed_up) (Q := λ _ self w, intact self w);
      [|by intros self w [H _]|done].
    apply attempt_ensures. intros res.
    destruct (res =? 0); [apply finish_ensures|].
    eapply ensures_bind; [apply try_set_ensures| |by intros e self w H].
    intros patched.
    eapply ensures_weaken with (P := backed_up) (Q := λ _ self w, intact self w);
      [|by intros self w [H _]|done].
    apply attempt_ensures. intros res'.
    destruct (res' =? 0); [apply finish_ensures|apply normal_build_ensures].
  - eapply ensures_weaken with (P := intact) (Q := λ _ self w, intact self w);
      [apply normal_build_ensures| |done].
    intros self w [_ H]. by apply H.
Qed.

(** X24: [build] never leaves the Makefile patched. In a world where a
    written file reads back as written, and where neither the commands nor
    the [atexit] registry change a file, the Makefile holds its original
    content when [build] ends: after a normal build, after the attempts with
    [-O0] and [-O1] whatever their exit status, and also when the final
    build raises. *)
Theorem build_restores_makefile try_disable_opt self w :
  kdir self = Some d →
  read_file (path_join d "Makefile") w = Ok data →
  read_file (path_join d "Makefile")
    (world_after World (build' try_disable_opt) self w)
  = Ok data.
Proof.
  intros Hk Hread.
  by destruct (build_ensures try_disable_opt self w (conj Hk Hread)) as [_ ?].
Qed.

End KernelBuilderFacts.

Lemma builder_without_kdir_witness :
  ex_clean ex_kernel_image_only []
  = (Raise AttributeError, set_version None ex_kernel_image_only, [])
  ∧ ex_build false ex_kernel_image_only []
    = (Raise AttributeError, set_version None ex_kernel_image_only, [])
  ∧ ex_build true ex_kernel_image_only []
    = (Raise TypeError, set_version None ex_kernel_image_only, [])
  ∧ ex_configure ex_kernel_image_only []
    = (Raise TypeError, ex_kernel_image_only, []).
Proof.
  exact (builder_without_kdir ex_World nat (λ w, length w) Nat.sub (λ _, 4%nat)
           (λ _, false) ex_path_join (λ d, d) ex_ensure_command ex_run_command
           ex_read_file (λ _ _ w, w) (λ _, Some (18%nat, 19%nat)) (λ w, w) (λ w, w)
           ex_edit_config ex_edit_config (λ _, []) (λ _, []) (λ _, [])
           ex_kernel_image_only [] eq_refl).
Defined.

Lemma sync_config_target_witness :
  sync_config ex_World (λ _, 4%nat) (λ _, false) (λ d, d) ex_ensure_command
    ex_run_command ex_kernel_cached []
  = (Ok tt, ex_kernel_cached,
     [["make"; "-j3"; "ARCH=x86"; "KCFLAGS='-fdebug-prefix-map=/usr/src/linux=.'";
       "olddefconfig"]%string])
  ∧ sync_config ex_World (λ _, 4%nat) (λ _, false) (λ d, d) ex_ensure_command
      ex_run_command ex_kernel_old []
    = mbind ex_World
        (make ex_World (λ _, 4%nat) (λ _, false) (λ d, d) ex_ensure_command
           ex_run_command "oldconfig" (Some (newlines 1000)) true)
        (λ _, ret ex_World tt) ex_kernel_old [].
Proof.
  split.
  - exact (sync_config_target ex_World (λ _, 4%nat) (λ _, false) (λ d, d)
             ex_ensure_command ex_run_command ex_kernel_cached [] 5 9 [] eq_refl).
  - exact (sync_config_target ex_World (λ _, 4%nat) (λ _, false) (λ d, d)
             ex_ensure_command ex_run_command ex_kernel_old [] 2 6 [32] eq_refl).
Defined.

Lemma build_restores_makefile_witness :
  outcome ex_Makefile (ex_makefile_build true) ex_kernel_source_only ex_makefile
  = Ok 0%nat
  ∧ Kernel__backup_makefile
      (object_after ex_Makefile (ex_makefile_build true) ex_kernel_source_only
         ex_makefile) = Some ex_makefile
  ∧ ex_makefile_read (ex_path_join "/usr/src/linux" "Makefile")
      (world_after ex_Makefile (ex_makefile_build true) ex_kernel_source_only
         ex_makefile)
    = Ok ex_makefile.
Proof.
  split; [vm_compute; reflexivity|]. split; [vm_compute; reflexivity|].
  apply (build_restores_makefile ex_Makefile nat (λ _, 0%nat) Nat.sub (λ _, 4%nat)
           (λ _, false) ex_path_join (λ d, d) ex_makefile_ensure ex_makefile_run
           ex_makefile_read ex_makefile_write ex_makefile_search (λ w, w) (λ w, w)
           (λ _ _ _, eq_refl) (λ _ _ _ _ _ _, eq_refl) (λ _ _ _ _ _ _ _, eq_refl)
           (λ _ _, eq_refl) (λ _ _, eq_refl) eq_refl
           "/usr/src/linux"%string ex_makefile true ex_kernel_source_only ex_makefile);
    reflexivity.
Defined.
